(** * Aura Prompt: the coordination layer of the background service worker

    A shallow embedding of [src/background.js] and [src/content.js]:
    the content-agent supervisor, the availability mapping, the
    suggestion cache with its parser, and the session coordinator
    (create / stream / cancel / teardown).

    JavaScript strings are modelled by [string] (a sequence of code
    units, here 8-bit ones), [Map] objects keyed by strings by [gmap],
    the insertion-ordered suggestion [Map] by an association list, and
    the asynchronous interleavings by explicit schedules of the actions
    that other turns of the event loop may perform on the shared tables
    while a function is suspended. *)

From Stdlib Require Import ZArith QArith Lqa Lia Bool List Sorted Ascii String DecimalString.
From stdpp Require Import base option list gmap strings.
Import ListNotations.

Local Open Scope string_scope.
Local Open Scope nat_scope.
Local Open Scope list_scope.

(** ** JavaScript values that reach the truthiness tests *)

Module Js.

(** A string-valued slot that may also hold [undefined] or [null]
    ([tab.url], [request.sessionId]). *)
Inductive Str : Type :=
| Undefined
| Null
| Text (s : string).

(** [if (v)] / [!v] on such a slot: only a non-empty string is truthy. *)
Definition truthy (v : Str) : bool :=
  match v with
  | Text s => negb (String.eqb s "")
  | _ => false
  end.

Definition eqb (a b : Str) : bool :=
  match a, b with
  | Undefined, Undefined => true
  | Null, Null => true
  | Text s, Text t => String.eqb s t
  | _, _ => false
  end.

End Js.

(** ** ContentAgentSupervisor: [isRestrictedUrl], [pingContentScript],
       [ensureContentScript] *)

Module Supervisor.

(** [restrictedUrlPatterns]: every pattern is [^literal], so
    [pattern.test(url)] is a prefix test. *)
Definition restrictedUrlPatterns : list string :=
  [ "chrome://"; "chrome-extension://"; "moz-extension://";
    "edge-extension://"; "file://"; "about:"; "data:"; "blob:" ].

Definition isRestrictedUrl (url : Js.Str) : bool :=
  if negb (Js.truthy url) then true
  else match url with
       | Js.Text u => existsb (fun pattern => String.prefix pattern u) restrictedUrlPatterns
       | _ => true
       end.

(** What the tab answers to a [ping] message. *)
Record PingReply : Type := MkPingReply
  { reply_alive : bool; reply_ready : bool; reply_url : string; reply_title : string }.

(** The four ways the promise of [pingContentScript] gets resolved. *)
Inductive PingOutcome : Type :=
| PingTimeout                              (* the timer fires first *)
| PingLastError                            (* chrome.runtime.lastError is set *)
| PingAnswer (r : option PingReply) (now : nat)  (* callback with a response; Date.now() *)
| PingThrows.                              (* sendMessage throws synchronously *)

Record AgentStatus : Type := MkAgentStatus
  { alive : bool; ready : bool; url : string; title : string; lastPing : nat }.

Inductive Action : Type :=
| Probe (tabId timeout : nat)     (* chrome.tabs.sendMessage(tabId, {action:'ping'}) *)
| Inject (tabId : nat)            (* chrome.scripting.executeScript *)
| Settle (ms : nat).              (* setTimeout(resolve, ms) *)

(** The collaborators: the outcome of the k-th probe and whether the
    k-th injection succeeds (it throws otherwise). *)
Record World : Type := MkWorld
  { ping_outcome : nat -> PingOutcome; inject_ok : nat -> bool }.

Record State : Type := MkState
  { contentScriptStatus : gmap nat AgentStatus; trace : list Action }.

Definition is_probe (a : Action) : bool :=
  match a with Probe _ _ => true | _ => false end.
Definition is_inject (a : Action) : bool :=
  match a with Inject _ => true | _ => false end.

Definition probes (t : list Action) : nat := List.length (List.filter is_probe t).
Definition injections (t : list Action) : nat := List.length (List.filter is_inject t).

Definition log (a : Action) (st : State) : State :=
  MkState (contentScriptStatus st) (trace st ++ [a]).

Definition pingContentScript (w : World) (tabId : nat) (timeout : nat) (st : State)
  : bool * State :=
  let k := probes (trace st) in
  let st1 := log (Probe tabId timeout) st in
  match ping_outcome w k with
  | PingTimeout => (false, st1)
  | PingLastError => (false, st1)
  | PingThrows => (false, st1)
  | PingAnswer None _ => (false, st1)
  | PingAnswer (Some r) now =>
      if reply_alive r then
        (reply_ready r,
         MkState (<[tabId := MkAgentStatus true (reply_ready r) (reply_url r) (reply_title r) now]>
                    (contentScriptStatus st1))
                 (trace st1))
      else (false, st1)
  end.

(** The value the promise of a probe resolves to. *)
Definition ping_verdict (o : PingOutcome) : bool :=
  match o with
  | PingAnswer (Some r) _ => reply_alive r && reply_ready r
  | _ => false
  end.

Definition default_timeout : nat := 3000.

Definition ensureContentScript (w : World) (tabId : nat) (url : Js.Str) (st : State)
  : bool * State :=
  if isRestrictedUrl url then (false, st)
  else
    let '(isReady, st1) := pingContentScript w tabId default_timeout st in
    if isReady then (true, st1)
    else
      let j := injections (trace st1) in
      let st2 := log (Inject tabId) st1 in
      if inject_ok w j then
        let st3 := log (Settle 500) st2 in
        pingContentScript w tabId default_timeout st3
      else (false, st2).               (* catch: return false *)

End Supervisor.

(** ** String primitives of the host language used by both scripts *)

Module JsString.

(** [\s] of a regular expression and the characters removed by
    [trim()], among 8-bit code units: TAB, LF, VT, FF, CR, space and
    the no-break space. *)
Definition is_space (c : ascii) : bool :=
  let n := nat_of_ascii c in
  (Nat.leb 9 n && Nat.leb n 13) || Nat.eqb n 32 || Nat.eqb n 160.

(** The characters that [.] refuses: LF and CR. *)
Definition is_line_terminator (c : ascii) : bool :=
  let n := nat_of_ascii c in Nat.eqb n 10 || Nat.eqb n 13.

Definition is_digit (c : ascii) : bool :=
  let n := nat_of_ascii c in Nat.leb 48 n && Nat.leb n 57.

Definition newline : ascii := "010"%char.
Definition dquote : ascii := "034"%char.
Definition squote : ascii := "039"%char.

Definition is_quote (c : ascii) : bool :=
  Ascii.eqb c dquote || Ascii.eqb c squote.

Fixpoint trimStart (s : string) : string :=
  match s with
  | String c r => if is_space c then trimStart r else s
  | EmptyString => EmptyString
  end.

Definition trimEnd (s : string) : string := String.rev (trimStart (String.rev s)).

Definition trim (s : string) : string := trimEnd (trimStart s).

Fixpoint drop (n : nat) (s : string) : string :=
  match n, s with
  | S k, String _ r => drop k r
  | _, _ => s
  end.

(** [s.substring(0, n)] *)
Fixpoint take (n : nat) (s : string) : string :=
  match n, s with
  | S k, String c r => String c (take k r)
  | _, _ => EmptyString
  end.

Fixpoint all (p : ascii -> bool) (s : string) : bool :=
  match s with
  | String c r => p c && all p r
  | EmptyString => true
  end.

(** Length of the longest prefix whose characters satisfy [p]. *)
Fixpoint span_length (p : ascii -> bool) (s : string) : nat :=
  match s with
  | String c r => if p c then S (span_length p r) else 0
  | EmptyString => 0
  end.

(** [s.split('\n')]: never empty, [''.split('\n')] is [['']]. *)
Fixpoint split_lines (s : string) : list string :=
  match s with
  | EmptyString => [EmptyString]
  | String c r =>
      if Ascii.eqb c newline then EmptyString :: split_lines r
      else match split_lines r with
           | l :: ls => String c l :: ls
           | [] => [String c EmptyString]
           end
  end.

End JsString.

(** ** The content script: [cleanText] and [extractPageContent] *)

Module Content.
Import JsString.

(** [replace(/\s+/g, ' ')]: every maximal run of white space becomes
    one space. [in_run] tells that the previous character was white. *)
Fixpoint collapse_spaces (in_run : bool) (s : string) : string :=
  match s with
  | EmptyString => EmptyString
  | String c r =>
      if is_space c then
        if in_run then collapse_spaces true r
        else String " "%char (collapse_spaces true r)
      else String c (collapse_spaces false r)
  end.

(** For [/\n\s*\n/] tried just after a line feed: [\s*] is greedy and
    gives characters back until a line feed follows, so the match
    ends at the last line feed of the white run. The result is the
    number of characters the match takes after the first line feed. *)
Fixpoint blank_span (s : string) : option nat :=
  match s with
  | String c r =>
      if is_space c then
        match blank_span r with
        | Some n => Some (S n)
        | None => if Ascii.eqb c newline then Some 1 else None
        end
      else None
  | EmptyString => None
  end.

(** [replace(/\n\s*\n/g, '\n')]; [skip] characters are still inside
    the match being replaced. *)
Fixpoint drop_blank_lines (skip : nat) (s : string) : string :=
  match s with
  | EmptyString => EmptyString
  | String c r =>
      match skip with
      | S k => drop_blank_lines k r
      | O =>
          if Ascii.eqb c newline then
            match blank_span r with
            | Some n => String newline (drop_blank_lines n r)
            | None => String c (drop_blank_lines 0 r)
            end
          else String c (drop_blank_lines 0 r)
      end
  end.

Definition cleanText (text : string) : string :=
  trim (drop_blank_lines 0 (collapse_spaces false text)).

(** The selector [[role="main"]], its two quotes written by code. *)
Definition role_main : string :=
  "[role=" +:+ String dquote ("main" +:+ String dquote "]").

Definition contentSelectors : list string :=
  [ "main"; "article"; role_main; ".content"; ".main-content";
    ".post-content"; ".entry-content"; ".article-content"; "body" ].

(** The page as the function sees it: the text that
    [extractTextFromElement] yields for the first element matching a
    selector ([None] when [querySelector] finds nothing), and the
    text of [document.body]. *)
Record Page : Type := MkPage
  { query_text : string -> option string; body_text : string }.

(** The [for (const selector of contentSelectors)] loop with its
    [break]. *)
Fixpoint select_content (p : Page) (selectors : list string) (content : string) : string :=
  match selectors with
  | [] => content
  | selector :: rest =>
      match query_text p selector with
      | Some text =>
          if Nat.ltb 100 (String.length text) then text
          else select_content p rest text
      | None => select_content p rest content
      end
  end.

Definition content_limit : nat := 2000.

Definition extractPageContent (p : Page) : string :=
  let content := select_content p contentSelectors EmptyString in
  let content :=
    if String.eqb content EmptyString || Nat.ltb (String.length content) 100
    then body_text p else content in
  let content := cleanText content in
  if Nat.ltb content_limit (String.length content)
  then take content_limit content +:+ "..."
  else content.

(** The value that reaches the length test of [extractPageContent]. *)
Definition cleaned_content (p : Page) : string :=
  let content := select_content p contentSelectors EmptyString in
  cleanText (if String.eqb content EmptyString || Nat.ltb (String.length content) 100
             then body_text p else content).

End Content.

(** ** ModelLifecycleManager: [checkAPIAvailability] *)

Module Lifecycle.

(** What [LanguageModel.availability()] does: it resolves to a string
    or rejects with an error message. *)
Inductive AvailabilityResult : Type :=
| Reports (value : string)
| Rejects (message : string).

(** ["LanguageModel" in self], and the provider behind it. *)
Inductive Provider : Type :=
| Absent
| Present (availability : AvailabilityResult).

(** The object literal returned: [status] and [reason] are optional
    properties. *)
Record Availability : Type := MkAvailability
  { available : bool;
    status : option string;
    reason : option string;
    message : string }.

Definition checkAPIAvailability (p : Provider) : Availability :=
  match p with
  | Absent =>
      MkAvailability false None (Some "API_NOT_FOUND")
        "Chrome Prompt API is not available. Please ensure you have Chrome 138+"
  | Present (Rejects msg) =>
      MkAvailability false None (Some "ERROR")
        ("Error checking availability: " +:+ msg)
  | Present (Reports availability) =>
      if String.eqb availability "available" then
        MkAvailability true (Some "ready") None "AI model is ready to use."
      else if String.eqb availability "downloadable" then
        MkAvailability true (Some "downloadable") None
          "AI model needs to be downloaded before first use."
      else if String.eqb availability "downloading" then
        MkAvailability false (Some "downloading") None
          "AI model is currently downloading. Please wait."
      else if String.eqb availability "unavailable" then
        MkAvailability false (Some "unavailable") None
          "AI model is not available on this device."
      else
        MkAvailability false (Some "unknown") None
          ("Unknown availability status: " +:+ availability)
  end.

(** The four values the switch names. *)
Definition known_values : list string :=
  [ "available"; "downloadable"; "downloading"; "unavailable" ].

End Lifecycle.

(** ** SuggestionCache: [simpleHash], [suggestionCache], [parseAISuggestions],
       [generateAISuggestions] and the periodic cleanup *)

Module Suggestions.
Import JsString.

(** *** [simpleHash] *)

(** ToInt32: the value of a bitwise operator's operand. *)
Definition to_int32 (z : Z) : Z := ((z + 2147483648) mod 4294967296 - 2147483648)%Z.

Definition hash_step (hash : Z) (c : ascii) : Z :=
  let char := Z.of_nat (nat_of_ascii c) in
  let hash := (to_int32 (hash * 32) - hash + char)%Z in   (* ((hash << 5) - hash) + char *)
  to_int32 hash.                                          (* hash & hash *)

Fixpoint hash_loop (hash : Z) (str : string) : Z :=
  match str with
  | EmptyString => hash
  | String c r => hash_loop (hash_step hash c) r
  end.

(** [hash.toString()] *)
Definition Z_toString (z : Z) : string :=
  DecimalString.NilEmpty.string_of_int (Z.to_int z).

Definition simpleHash (str : string) : string := Z_toString (hash_loop 0 str).

(** *** The insertion-ordered [Map] *)

Definition Entry : Type := string * list string.

Definition keys (c : list Entry) : list string := List.map fst c.

Definition has (k : string) (c : list Entry) : bool :=
  existsb (fun e => String.eqb (fst e) k) c.

Fixpoint get (k : string) (c : list Entry) : option (list string) :=
  match c with
  | [] => None
  | (k', v) :: r => if String.eqb k' k then Some v else get k r
  end.

(** [Map.prototype.set]: a present key keeps its position, a new one
    goes last. *)
Fixpoint set (k : string) (v : list string) (c : list Entry) : list Entry :=
  match c with
  | [] => [(k, v)]
  | (k', v') :: r => if String.eqb k' k then (k', v) :: r else (k', v') :: set k v r
  end.

Definition delete (k : string) (c : list Entry) : list Entry :=
  List.filter (fun e => negb (String.eqb (fst e) k)) c.

(** [suggestionCache.keys().next().value], [undefined] on an empty map. *)
Definition first_key (c : list Entry) : option string := List.head (keys c).

Definition cache_bound : nat := 50.

(** Lines 241-247: store, then evict once when over the bound. *)
Definition store (k : string) (v : list string) (c : list Entry) : list Entry :=
  let c := set k v c in
  if Nat.ltb cache_bound (List.length c) then
    match first_key c with
    | Some firstKey => delete firstKey c
    | None => c
    end
  else c.

(** The five-minute interval: above 30 entries the first ten keys go. *)
Definition cleanup (c : list Entry) : list Entry :=
  if Nat.ltb 30 (List.length c) then
    List.fold_left (fun acc key => delete key acc) (List.firstn 10 (keys c)) c
  else c.

(** *** [parseAISuggestions] *)

(** [(.+)$] on what is left of the line: non-empty, no line terminator. *)
Definition dot_plus_to_end (s : string) : bool :=
  negb (String.eqb s EmptyString) && all (fun c => negb (is_line_terminator c)) s.

(** [\s*(.+)$] by backtracking: [\s*] holds [k] characters of [r] and
    gives them back one at a time until the rest matches. *)
Fixpoint backtrack_spaces (k : nat) (r : string) : option string :=
  let rest := drop k r in
  if dot_plus_to_end rest then Some rest
  else match k with
       | O => None
       | S k' => backtrack_spaces k' r
       end.

(** [line.match(/^\d+\.\s*(.+)$/)], the value of [match[1]]. *)
Definition match_numbered (line : string) : option string :=
  let d := span_length is_digit line in
  if Nat.eqb d 0 then None
  else match drop d line with
       | String c r =>
           if Ascii.eqb c "."%char then backtrack_spaces (span_length is_space r) r
           else None
       | EmptyString => None
       end.

(** [replace(/^["']|["']$/g, '')]: one quote off the front, then one
    off the end of what remains. *)
Definition strip_front_quote (s : string) : string :=
  match s with
  | String c r => if is_quote c then r else s
  | EmptyString => s
  end.

Definition strip_quotes (s : string) : string :=
  String.rev (strip_front_quote (String.rev (strip_front_quote s))).

Definition suggestion_of (captured : string) : string := strip_quotes (trim captured).

(** The [for (const line of lines)] loop with its [break]. *)
Fixpoint collect (lines : list string) (suggestions : list string) : list string :=
  match lines with
  | [] => suggestions
  | line :: rest =>
      match match_numbered line with
      | Some captured =>
          if negb (String.eqb captured EmptyString) then
            let suggestions := (suggestions ++ [suggestion_of captured])%list in
            if Nat.leb 3 (List.length suggestions) then suggestions
            else collect rest suggestions
          else collect rest suggestions
      | None => collect rest suggestions
      end
  end.

Definition nonblank (line : string) : bool := negb (String.eqb (trim line) EmptyString).

(** A response that is not a string makes [response.split] throw; the
    [catch] returns the empty array. *)
Definition parseAISuggestions (response : Js.Str) : list string :=
  match response with
  | Js.Text text => collect (List.filter nonblank (split_lines text)) []
  | _ => []
  end.

Definition getFallbackSuggestions : list string :=
  [ "Summarize this page"; "What are the main points?"; "Explain this in simple terms" ].

(** *** [generateAISuggestions] *)

(** What other turns of the event loop do to the cache while this
    call is suspended. *)
Inductive CacheOp : Type :=
| OpStore (k : string) (v : list string)
| OpCleanup.

Definition apply_op (c : list Entry) (op : CacheOp) : list Entry :=
  match op with
  | OpStore k v => store k v c
  | OpCleanup => cleanup c
  end.

Definition apply_ops (ops : list CacheOp) (c : list Entry) : list Entry :=
  List.fold_left apply_op ops c.

(** The provider as one call meets it, with the cache operations that
    run during each of its three awaits. [prompt_response = None] is
    a rejected [session.prompt]; [destroy_throws] tells whether
    [session.destroy()] throws in the [finally] block, which sends the
    call to its [catch]. *)
Record Provider : Type := MkProvider
  { capability : bool;
    availability : Lifecycle.AvailabilityResult;
    during_availability : list CacheOp;
    create_ok : bool;
    during_create : list CacheOp;
    prompt_response : option Js.Str;
    during_prompt : list CacheOp;
    destroy_throws : bool }.

Inductive ProviderCall : Type :=
| CallCreate
| CallPrompt
| CallDestroy.

Record State : Type := MkState
  { suggestionCache : list Entry; calls : list ProviderCall }.

Definition is_prompt (c : ProviderCall) : bool :=
  match c with CallPrompt => true | _ => false end.

(** Number of generations invoked so far. *)
Definition generations (st : State) : nat := List.length (List.filter is_prompt (calls st)).

Definition generateAISuggestions (p : Provider) (content title : string) (st : State)
  : list string * State :=
  let contentHash := simpleHash (content +:+ title) in
  let cache := suggestionCache st in
  match (if has contentHash cache then get contentHash cache else None) with
  | Some cached => (cached, st)
  | None =>
      if negb (capability p) then (getFallbackSuggestions, st)
      else
        let cache := apply_ops (during_availability p) cache in
        match availability p with
        | Lifecycle.Rejects _ => (getFallbackSuggestions, MkState cache (calls st))
        | Lifecycle.Reports availability =>
            if negb (String.eqb availability "available") then
              (getFallbackSuggestions, MkState cache (calls st))
            else
              let cache := apply_ops (during_create p) cache in
              let log := (calls st ++ [CallCreate])%list in
              if negb (create_ok p) then (getFallbackSuggestions, MkState cache log)
              else
                let cache := apply_ops (during_prompt p) cache in
                let log := (log ++ [CallPrompt])%list in
                match prompt_response p with
                | None =>
                    (getFallbackSuggestions, MkState cache (log ++ [CallDestroy])%list)
                | Some response =>
                    let suggestions := parseAISuggestions response in
                    if Nat.eqb (List.length suggestions) 3 then
                      ((if destroy_throws p then getFallbackSuggestions else suggestions),
                       MkState (store contentHash suggestions cache) (log ++ [CallDestroy])%list)
                    else
                      (getFallbackSuggestions, MkState cache (log ++ [CallDestroy])%list)
                end
        end
  end.

(** *** Vocabulary of the statements *)

(** The keys the [OpStore] operations of a history carry, in order. *)
Fixpoint stored_keys (ops : list CacheOp) : list string :=
  match ops with
  | [] => []
  | OpStore k _ :: r => k :: stored_keys r
  | OpCleanup :: r => stored_keys r
  end.

(** A line opens with an ordinal marker: digits, then a full stop. *)
Definition leading_ordinal (line : string) : bool :=
  let d := span_length is_digit line in
  Nat.ltb 0 d && String.prefix "." (drop d line).

(** The parse as the specification words it: of the non-blank lines,
    those that match the numbered pattern, each trimmed and with its
    surrounding quotes stripped. *)
Definition entry_of (line : string) : option string :=
  option_map suggestion_of (match_numbered line).

Definition numbered_entries (text : string) : list string :=
  omap entry_of (List.filter nonblank (split_lines text)).

(** The provider lets a call get as far as [session.prompt]. *)
Definition reaches_prompt (p : Provider) : bool :=
  capability p
  && match availability p with
     | Lifecycle.Reports value => String.eqb value "available"
     | Lifecycle.Rejects _ => false
     end
  && create_ok p.

(** The cache as the other turns leave it during one call. *)
Definition after_interleaving (p : Provider) (c : list Entry) : list Entry :=
  apply_ops (during_prompt p) (apply_ops (during_create p) (apply_ops (during_availability p) c)).

End Suggestions.

(** ** SessionCoordinator: [handlePromptAPI], [streamResponse],
       [cancelSession] *)

Module Session.

(** A provider session object, by identity. *)
Definition Handle : Type := nat.

Inductive Event : Type :=
| Destroyed (h : Handle)
    (* session.destroy() invoked on h *)
| Streamed (sessionId : Js.Str) (chunk fullResponse : string) (delivered : bool)
    (* chrome.runtime.sendMessage of a streamingResponse; [delivered]
       is what safeSendMessage resolved to *)
| CancelReturned (sessionId : Js.Str) (found : option Handle) (result : bool).
    (* cancelSession(sessionId) returned; [found] is the handle it looked up *)

(** The shared tables and what the outside has observed so far. *)
Record State : Type := MkState
  { activeSessions : gmap string Handle;
    activeConnections : gset nat;
    log : list Event }.

Definition emit (e : Event) (st : State) : State :=
  MkState (activeSessions st) (activeConnections st) (log st ++ [e]).

Definition with_sessions (m : gmap string Handle) (st : State) : State :=
  MkState m (activeConnections st) (log st).

Definition with_connections (c : gset nat) (st : State) : State :=
  MkState (activeSessions st) c (log st).

(** [activeSessions.get(sessionId)]: only non-empty strings are ever
    stored as keys. *)
Definition lookup_session (sessionId : Js.Str) (st : State) : option Handle :=
  match sessionId with
  | Js.Text s => activeSessions st !! s
  | _ => None
  end.

Definition has_session (sessionId : Js.Str) (st : State) : bool :=
  match lookup_session sessionId st with Some _ => true | None => false end.

Definition delete_session (sessionId : Js.Str) (st : State) : State :=
  match sessionId with
  | Js.Text s => with_sessions (delete s (activeSessions st)) st
  | _ => st
  end.

(** [cancelSession]; [destroy_throws] tells whether [session.destroy()]
    throws in this call. *)
Definition cancelSession (sessionId : Js.Str) (destroy_throws : bool) (st : State)
  : bool * State :=
  match lookup_session sessionId st with
  | Some session =>
      let st := emit (Destroyed session) st in
      if destroy_throws then
        (false, emit (CancelReturned sessionId (Some session) false) st)
      else
        let st := delete_session sessionId st in
        (true, emit (CancelReturned sessionId (Some session) true) st)
  | None => (false, emit (CancelReturned sessionId None false) st)
  end.

(** Lines 525-527: [if (sessionId) activeSessions.set(sessionId, session)]. *)
Definition register (sessionId : Js.Str) (session : Handle) (st : State) : State :=
  match sessionId with
  | Js.Text s =>
      if Js.truthy sessionId then with_sessions (<[s := session]> (activeSessions st)) st
      else st
  | _ => st
  end.

(** The [finally] block of [handlePromptAPI]. *)
Definition cleanup (session : option Handle) (sessionId : Js.Str) (st : State) : State :=
  let st := match session with
            | Some h => emit (Destroyed h) st
            | None => st
            end in
  if Js.truthy sessionId && has_session sessionId st
  then delete_session sessionId st else st.

(** What other turns of the event loop do to the shared tables while
    the request is suspended. *)
Inductive Turn : Type :=
| TurnCancel (sessionId : Js.Str) (destroy_throws : bool)
    (* a cancelSession message is dispatched *)
| TurnRegister (sessionId : Js.Str) (session : Handle)
    (* another request reaches line 526 *)
| TurnFinish (sessionId : Js.Str) (session : option Handle)
    (* another request reaches its finally block *)
| TurnConnect (port : nat)
| TurnDisconnect (port : nat).

Definition run_turn (st : State) (t : Turn) : State :=
  match t with
  | TurnCancel sessionId throws => snd (cancelSession sessionId throws st)
  | TurnRegister sessionId session => register sessionId session st
  | TurnFinish sessionId session => cleanup session sessionId st
  | TurnConnect port => with_connections ({[port]} ∪ activeConnections st) st
  | TurnDisconnect port => with_connections (activeConnections st ∖ {[port]}) st
  end.

Definition run_turns (ts : list Turn) (st : State) : State := List.fold_left run_turn ts st.

(** One iteration of [for await (const chunk of stream)]: the turns
    that ran while the loop waited, the chunk, and how the delivery
    attempt (if one is made) ends. *)
Record Step : Type := MkStep
  { before : list Turn; chunk : string; delivered : bool }.

Inductive Ending : Type :=
| Exhausted        (* the stream is done *)
| Thrown.          (* promptStreaming or the iteration throws *)

Inductive Result : Type :=
| Ok (response : string)
| Err (message : string).

Inductive Download : Type :=
| DownloadCompleted (session : Handle) (destroy_error : option string)
    (* downloadcomplete on the monitor session, whose destroy() then
       succeeds or throws *)
| DownloadFailed (message : string).
    (* create rejects, downloaderror, or the timeout *)

(** The provider and the interleaving as one request meets them. *)
Record Provider : Type := MkProvider
  { capability : bool;
    availability : Lifecycle.AvailabilityResult;
    download : Download;
    params_failure : option string;        (* LanguageModel.params() rejects, or ok *)
    created : string + Handle;             (* LanguageModel.create(validatedParams) *)
    before_register : list Turn;           (* turns during the awaits above *)
    steps : list Step;
    before_end : list Turn;
    ending : Ending;
    during_fallback : list Turn;
    fallback : Result }.                   (* session.prompt(prompt) *)

Definition connected (st : State) : bool :=
  negb (Nat.eqb (size (activeConnections st)) 0).

(** The body of the streaming loop; the boolean tells whether the
    loop was left by [break]. *)
Fixpoint stream_loop (sessionId : Js.Str) (todo : list Step) (fullResponse : string)
  (st : State) : bool * string * State :=
  match todo with
  | [] => (false, fullResponse, st)
  | step :: rest =>
      let st := run_turns (before step) st in
      if Js.truthy sessionId && negb (has_session sessionId st) then
        (true, fullResponse, st)
      else if negb (connected st) then
        stream_loop sessionId rest (fullResponse +:+ chunk step) st
      else
        let fullResponse := fullResponse +:+ chunk step in
        let st := emit (Streamed sessionId (chunk step) fullResponse (delivered step)) st in
        stream_loop sessionId rest fullResponse st
  end.

Definition streamResponse (p : Provider) (sessionId : Js.Str) (st : State)
  : Result * State :=
  let '(broke, fullResponse, st) := stream_loop sessionId (steps p) EmptyString st in
  if broke then (Ok fullResponse, st)
  else
    let st := run_turns (before_end p) st in
    match ending p with
    | Exhausted => (Ok fullResponse, st)
    | Thrown => (fallback p, run_turns (during_fallback p) st)
    end.

(** [handleModelDownload] *)
Definition handleModelDownload (p : Provider) (availability : string) (st : State)
  : option string * State :=
  if String.eqb availability "downloadable" then
    match download p with
    | DownloadCompleted session None => (None, emit (Destroyed session) st)
    | DownloadCompleted session (Some message) =>
        (Some ("Failed to download AI model: " +:+ message), emit (Destroyed session) st)
    | DownloadFailed message => (Some ("Failed to download AI model: " +:+ message), st)
    end
  else if String.eqb availability "downloading" then
    (Some "AI model is currently downloading. Please try again in a few moments.", st)
  else (None, st).

(** The [try] block of [handlePromptAPI], with the session it holds
    when the block is left. The numeric generation parameters do not
    influence the control flow and are left out. *)
Definition attempt (p : Provider) (sessionId : Js.Str) (st : State)
  : Result * option Handle * State :=
  if negb (capability p) then
    (Err "Chrome Prompt API is not available. Please ensure you have Chrome 127+ and the AI features are enabled.",
     None, st)
  else
    let st := run_turns (before_register p) st in
    match availability p with
    | Lifecycle.Rejects message => (Err message, None, st)
    | Lifecycle.Reports availability =>
        if String.eqb availability "unavailable" then
          (Err "The AI language model is not available on this device.", None, st)
        else
          match (if String.eqb availability "downloadable" || String.eqb availability "downloading"
                 then handleModelDownload p availability st else (None, st)) with
          | (Some message, st) => (Err message, None, st)
          | (None, st) =>
              match params_failure p with
              | Some message => (Err message, None, st)
              | None =>
                match created p with
                | inl message => (Err message, None, st)
                | inr session =>
                    let st := register sessionId session st in
                    let '(result, st) := streamResponse p sessionId st in
                    (result, Some session, st)
                end
              end
          end
    end.

Definition handlePromptAPI (p : Provider) (sessionId : Js.Str) (st : State)
  : Result * State :=
  let '(result, session, st) := attempt p sessionId st in
  (result, cleanup session sessionId st).

(** *** What the log says *)

Definition is_destroy_of (h : Handle) (e : Event) : bool :=
  match e with Destroyed h' => Nat.eqb h' h | _ => false end.

(** Number of [session.destroy()] invocations on [h]. *)
Definition destroys (h : Handle) (l : list Event) : nat :=
  List.length (List.filter (is_destroy_of h) l).

Definition is_cancel_of (h : Handle) (e : Event) : bool :=
  match e with CancelReturned _ (Some h') _ => Nat.eqb h' h | _ => false end.

(** Number of [cancelSession] calls that found [h] in the table. *)
Definition cancel_hits (h : Handle) (l : list Event) : nat :=
  List.length (List.filter (is_cancel_of h) l).

(** The [fullResponse] values of the messages that were delivered
    for [sessionId], in order. *)
Fixpoint delivered_responses (sessionId : Js.Str) (l : list Event) : list string :=
  match l with
  | [] => []
  | Streamed sid _ fullResponse true :: r =>
      if Js.eqb sid sessionId then fullResponse :: delivered_responses sessionId r
      else delivered_responses sessionId r
  | _ :: r => delivered_responses sessionId r
  end.

Definition is_stream_for (sessionId : Js.Str) (e : Event) : bool :=
  match e with Streamed sid _ _ _ => Js.eqb sid sessionId | _ => false end.

Definition cancels (sessionId : Js.Str) (t : Turn) : bool :=
  match t with TurnCancel sid _ => Js.eqb sid sessionId | _ => false end.

Definition registers (sessionId : Js.Str) (t : Turn) : bool :=
  match t with TurnRegister sid _ => Js.eqb sid sessionId | _ => false end.

Definition mentions (h : Handle) (t : Turn) : bool :=
  match t with
  | TurnRegister _ h' => Nat.eqb h' h
  | TurnFinish _ (Some h') => Nat.eqb h' h
  | _ => false
  end.

(** Every turn of the interleaving, in the order of the fields. *)
Definition schedule (p : Provider) : list Turn :=
  (before_register p ++ List.concat (List.map before (steps p))
     ++ before_end p ++ during_fallback p)%list.

(** The handle [h] belongs to this request alone: no entry of the
    table holds it, no other request registers or destroys it, and
    the download monitor is another session. *)
Definition own_handle (h : Handle) (p : Provider) (st : State) : Prop :=
  (forall k, activeSessions st !! k <> Some h)
  /\ forallb (fun t => negb (mentions h t)) (schedule p) = true
  /\ (forall e, download p <> DownloadCompleted h e).

(** The session id is used by this request alone: it is not active
    when the request starts and no other request registers it. *)
Definition own_id (sessionId : Js.Str) (p : Provider) (st : State) : Prop :=
  lookup_session sessionId st = None
  /\ forallb (fun t => negb (registers sessionId t)) (schedule p) = true.

Definition is_cancel_true (sessionId : Js.Str) (e : Event) : bool :=
  match e with CancelReturned sid _ true => Js.eqb sid sessionId | _ => false end.

(** A [cancelSession(sessionId)] has returned true. *)
Definition cancelled (sessionId : Js.Str) (l : list Event) : bool :=
  existsb (is_cancel_true sessionId) l.

(** Two states are related when the log of the second continues the
    log of the first by events satisfying [P]. *)
Definition grows (P : list Event -> Prop) (st st' : State) : Prop :=
  exists new, log st' = (log st ++ new)%list /\ P new.

(** The second state satisfies the table invariant [T] and its log
    continues the log of the first by events satisfying [P]. *)
Definition carried (T : State -> Prop) (P : list Event -> Prop) (st st' : State) : Prop :=
  T st' /\ grows P st st'.

(** Each destroy of [h] in the log is the one of a cancel that found [h]. *)
Definition balanced (h : Handle) (l : list Event) : Prop :=
  destroys h l = cancel_hits h l.

(** Only the session id [sessionId] may lead to the handle [h]. *)
Definition only_under (sessionId : Js.Str) (h : Handle) (st : State) : Prop :=
  forall k, activeSessions st !! k = Some h -> Js.Text k = sessionId.

(** The provider is ready and creates the session [h]. *)
Definition ready (p : Provider) (h : Handle) : Prop :=
  capability p = true
  /\ availability p = Lifecycle.Reports "available"
  /\ params_failure p = None
  /\ created p = inr h.

(** No other turn runs while the request is suspended, and the stream
    ends normally. *)
Definition undisturbed (p : Provider) : Prop :=
  before_register p = []
  /\ Forall (fun s => before s = []) (steps p)
  /\ before_end p = []
  /\ ending p = Exhausted.

(** [b] is [a] followed by more text. *)
Definition extends (a b : string) : Prop := exists more, b = a +:+ more.

Definition strictly_extends (a b : string) : Prop :=
  exists more, more <> EmptyString /\ b = a +:+ more.

(** No [streamingResponse] for [sessionId] follows a
    [cancelSession(sessionId)] that returned true. *)
Definition quiet_after_cancel (sessionId : Js.Str) (l : list Event) : Prop :=
  forall l1 found l2,
    l = (l1 ++ CancelReturned sessionId found true :: l2)%list ->
    Forall (fun e => is_stream_for sessionId e = false) l2.

(** Before the request registers its session: the id is not in the
    table and no cancel of it has succeeded. *)
Definition before_registration (sessionId : Js.Str) (new : list Event) (st : State) : Prop :=
  has_session sessionId st = false /\ cancelled sessionId new = false.

(** From the registration on: the log is quiet after a cancel, a
    successful cancel has left the id out of the table, and an id that
    is not truthy is never in the table nor cancelled. *)
Definition after_registration (sessionId : Js.Str) (new : list Event) (st : State) : Prop :=
  quiet_after_cancel sessionId new
  /\ (cancelled sessionId new = true -> has_session sessionId st = false)
  /\ (Js.truthy sessionId = false ->
      has_session sessionId st = false /\ cancelled sessionId new = false).

(** The log of [st] continues [base] by events that, together with the
    tables of [st], satisfy [I]. *)
Definition holds_since (I : list Event -> State -> Prop) (base : list Event) (st : State) : Prop :=
  exists new, log st = (base ++ new)%list /\ I new st.

(** The chunks of some steps, appended in order. *)
Fixpoint joined (l : list Step) : string :=
  match l with
  | [] => EmptyString
  | step :: r => chunk step +:+ joined r
  end.

(** What the responses delivered from some point on look like: each
    extends all the earlier ones and the text [full] accumulated before
    them, and each is the chunks of the first steps of the stream,
    joined. *)
Definition ordered_from (all_steps : list Step) (full : string) (rs : list string) : Prop :=
  StronglySorted extends rs
  /\ Forall (extends full) rs
  /\ Forall (fun r => exists n, r = joined (List.firstn n all_steps)) rs.

Definition strictly_ordered_from (full : string) (rs : list string) : Prop :=
  StronglySorted strictly_extends rs /\ Forall (strictly_extends full) rs.

End Session.

(** ** [handlePageContentRequest]: the caller of the readiness check *)

Module PageRequest.

Record Tab : Type := MkTab { tab_id : nat; tab_url : Js.Str; tab_title : Js.Str }.

(** [chrome.tabs.query]: [lastError], or the (possibly missing) array. *)
Inductive TabsQuery : Type :=
| QueryFails (message : string)
| QueryTabs (tabs : option (list Tab)).

(** The answer to [extractContent]. *)
Inductive Extraction : Type :=
| ExtractLastError
| ExtractNoResponse
| ExtractSuccess (content title url : string)
| ExtractError (error : string).

Record World : Type := MkWorld
  { tabs : TabsQuery;
    tab_lookup : option Tab;              (* chrome.tabs.get, None when it rejects *)
    agent : Supervisor.World;
    extraction : Extraction;
    provider : Suggestions.Provider }.

Inductive Response : Type :=
| RespError (error : string)
| RespFallback (url title : Js.Str) (suggestions : list string) (reason : string)
| RespFallbackError (reason : option string)
| RespContent (content title url : string) (suggestions : list string) (aiGenerated : bool).

Record State : Type := MkState
  { supervisor : Supervisor.State; suggestions : Suggestions.State }.

Definition getFallbackPageInfo (w : World) : Response :=
  match tab_lookup w with
  | Some tab =>
      RespFallback (tab_url tab) (tab_title tab) Suggestions.getFallbackSuggestions
        "Content script unavailable on this page type"
  | None => RespFallbackError None
  end.

(** [{...fallbackInfo, reason: ...}] *)
Definition with_reason (reason : string) (r : Response) : Response :=
  match r with
  | RespFallback url title suggestions _ => RespFallback url title suggestions reason
  | RespFallbackError _ => RespFallbackError (Some reason)
  | other => other
  end.

Definition handlePageContentRequest (w : World) (st : State) : Response * State :=
  match tabs w with
  | QueryFails message =>
      (RespError ("Failed to process page content request: " +:+ message), st)
  | QueryTabs None | QueryTabs (Some []) => (RespError "No active tab found", st)
  | QueryTabs (Some (tab :: _)) =>
      let tabId := tab_id tab in
      let url := tab_url tab in
      if Supervisor.isRestrictedUrl url then (getFallbackPageInfo w, st)
      else
        let '(isContentScriptReady, sup) :=
          Supervisor.ensureContentScript (agent w) tabId url (supervisor st) in
        let st := MkState sup (suggestions st) in
        if negb isContentScriptReady then (getFallbackPageInfo w, st)
        else
          match extraction w with
          | ExtractLastError => (getFallbackPageInfo w, st)
          | ExtractSuccess content title url =>
              let '(suggested, sug) :=
                Suggestions.generateAISuggestions (provider w) content title (suggestions st) in
              (RespContent content title url suggested true, MkState (supervisor st) sug)
          | ExtractError error =>
              (with_reason (if String.eqb error EmptyString
                            then "Content extraction failed" else error)
                 (getFallbackPageInfo w), st)
          | ExtractNoResponse =>
              (with_reason "Content extraction failed" (getFallbackPageInfo w), st)
          end
  end.

End PageRequest.

(** ** [validateParameters] and the requested temperature *)

Module Params.

(** JavaScript numbers: the finite ones as rationals (the comparisons,
    [Math.max] and [Math.min] are exact on them), the two infinities,
    and [NaN]. Every comparison with [NaN] is false, and [Math.max] and
    [Math.min] return [NaN] as soon as an argument is [NaN]. The two
    zeros are not told apart. *)
Inductive Number : Type :=
| NaN
| NegInf
| Fin (q : Q)
| PosInf.

(** [a < b] *)
Definition lt (a b : Number) : bool :=
  match a with
  | NaN => false
  | NegInf => match b with Fin _ | PosInf => true | _ => false end
  | Fin x => match b with
             | Fin y => negb (Qle_bool y x)
             | PosInf => true
             | _ => false
             end
  | PosInf => false
  end.

Definition is_nan (a : Number) : bool :=
  match a with NaN => true | _ => false end.

Definition Math_max (a b : Number) : Number :=
  if is_nan a || is_nan b then NaN else if lt a b then b else a.

Definition Math_min (a b : Number) : Number :=
  if is_nan a || is_nan b then NaN else if lt b a then b else a.

(** [apiParams.temperature] and [apiParams.topK]: an object whose [min]
    and [max] may each be missing. *)
Record Range : Type := MkRange { min : option Number; max : option Number }.

Record ApiParams : Type := MkApiParams
  { api_temperature : option Range; api_topK : option Range }.

(** [requestedParams] and the validated object: a missing property is
    [None]. *)
Record Requested : Type := MkRequested
  { temperature : option Number; topK : option Number }.

(** [apiParams.x?.bound ?? fallback] *)
Definition bound (range : option Range) (pick : Range -> option Number) (fallback : Number)
  : Number :=
  match range with
  | Some r => match pick r with Some v => v | None => fallback end
  | None => fallback
  end.

(** The [if (v < min || v > max) ... else ...] of both parameters. *)
Definition clamp (value minV maxV : Number) : Number :=
  if lt value minV || lt maxV value
  then Math_max minV (Math_min maxV value)
  else value.

Definition minTemp (apiParams : ApiParams) : Number :=
  bound (api_temperature apiParams) min (Fin 0).
Definition maxTemp (apiParams : ApiParams) : Number :=
  bound (api_temperature apiParams) max (Fin 2).
Definition minTopK (apiParams : ApiParams) : Number :=
  bound (api_topK apiParams) min (Fin 1).
Definition maxTopK (apiParams : ApiParams) : Number :=
  bound (api_topK apiParams) max (Fin 8).

Definition validateParameters (apiParams : ApiParams) (requestedParams : Requested)
  : Requested :=
  MkRequested
    (option_map (fun temp => clamp temp (minTemp apiParams) (maxTemp apiParams))
       (temperature requestedParams))
    (option_map (fun k => clamp k (minTopK apiParams) (maxTopK apiParams))
       (topK requestedParams)).

(** Lines 516-519: the parameters [handlePromptAPI] asks for. [scaled]
    is the value of [params.defaultTemperature * 1.2]: [NaN] when the
    model reports no [defaultTemperature], since [undefined * 1.2] is
    [NaN]. *)
Definition requestedParams (scaled : Number) : Requested :=
  MkRequested (Some (Math_max scaled (Fin 2))) (Some (Fin 3)).

End Params.

(** ** The message dispatcher of the service worker *)

Module Dispatcher.

(** [s.includes(sub)] *)
Fixpoint includes (s sub : string) : bool :=
  String.prefix sub s
  || match s with
     | String _ r => includes r sub
     | EmptyString => false
     end.

Definition not_available_message : string :=
  "AI features are not available. Please ensure you have Chrome 138+".
Definition downloading_message : string :=
  "AI model is downloading. Please wait a moment and try again.".
Definition download_failed_message : string :=
  "Failed to download AI model. Please check your internet connection and try again.".

(** Lines 44-51: the message shown to the user for an error. *)
Definition userMessage (message : string) : string :=
  if includes message "not available" then not_available_message
  else if includes message "downloading" then downloading_message
  else if includes message "download" then download_failed_message
  else message.

(** Line 34: [request.sessionId || `session_${Date.now()}_${Math.random()}`];
    [now] and [random] are the two numbers as printed. *)
Definition effectiveSessionId (requested : Js.Str) (now random : string) : Js.Str :=
  if Js.truthy requested then requested
  else Js.Text ("session_" +:+ now +:+ "_" +:+ random).

Inductive PromptResponse : Type :=
| PromptSuccess (response : string) (sessionId : Js.Str)
| PromptFailure (error originalError : string) (sessionId : Js.Str).

(** The [promptAPI] branch of the listener. *)
Definition onPromptAPI (p : Session.Provider) (requested : Js.Str) (now random : string)
  (st : Session.State) : PromptResponse * Session.State :=
  let sessionId := effectiveSessionId requested now random in
  match Session.handlePromptAPI p sessionId st with
  | (Session.Ok response, st) => (PromptSuccess response sessionId, st)
  | (Session.Err message, st) => (PromptFailure (userMessage message) message sessionId, st)
  end.

(** The [contentScriptReady] branch: [sender.tab?.id], and [if (tabId)]. *)
Definition onContentScriptReady (tabId : option nat) (url title : string) (now : nat)
  (st : Supervisor.State) : Supervisor.State :=
  match tabId with
  | Some id =>
      if Nat.eqb id 0 then st
      else Supervisor.MkState
             (<[id := Supervisor.MkAgentStatus true true url title now]>
                (Supervisor.contentScriptStatus st))
             (Supervisor.trace st)
  | None => st
  end.

(** [chrome.tabs.onRemoved] *)
Definition onTabRemoved (tabId : nat) (st : Supervisor.State) : Supervisor.State :=
  match Supervisor.contentScriptStatus st !! tabId with
  | Some _ => Supervisor.MkState (delete tabId (Supervisor.contentScriptStatus st))
                (Supervisor.trace st)
  | None => st
  end.

(** [chrome.tabs.onUpdated]; [changed_url] is [changeInfo.url]. *)
Definition onTabUpdated (tabId : nat) (changed_url : Js.Str) (st : Supervisor.State)
  : Supervisor.State :=
  if Js.truthy changed_url then onTabRemoved tabId st else st.

End Dispatcher.

(** ** The message listener of the content script *)

Module Agent.

(** The content script in its tab: the readiness flag, the location
    and title of the document, and what walking the document yields
    (the page, or the message of the exception it throws). *)
Record Script : Type := MkScript
  { isContentScriptReady : bool;
    href : string;
    documentTitle : string;
    document : string + Content.Page }.

Inductive Reply : Type :=
| Pong (alive ready : bool) (url title : string)
| Extracted (content url title : string)
| Failed (error url title : string).

Inductive Action : Type :=
| Ping
| ExtractContent
| Other.

(** [initializeContentScript] *)
Definition initializeContentScript (s : Script) : Script :=
  MkScript true (href s) (documentTitle s) (document s).

(** The listener of lines 26-67; [None] when it does not answer. *)
Definition onMessage (action : Action) (s : Script) : option Reply :=
  match action with
  | Ping => Some (Pong true (isContentScriptReady s) (href s) (documentTitle s))
  | ExtractContent =>
      if negb (isContentScriptReady s) then
        Some (Failed "Content script not ready" (href s) (documentTitle s))
      else
        match document s with
        | inr page =>
            Some (Extracted (Content.extractPageContent page) (href s) (documentTitle s))
        | inl message =>
            Some (Failed ("Failed to extract page content: " +:+ message)
                    (href s) (documentTitle s))
        end
  | Other => None
  end.

(** How the answers reach the service worker: the response of a
    [ping] as [pingContentScript] receives it at time [now], and the
    response of [extractContent] as [handlePageContentRequest] does. *)
Definition ping_outcome (s : Script) (now : nat) : Supervisor.PingOutcome :=
  match onMessage Ping s with
  | Some (Pong alive ready url title) =>
      Supervisor.PingAnswer (Some (Supervisor.MkPingReply alive ready url title)) now
  | _ => Supervisor.PingAnswer None now
  end.

Definition extraction (s : Script) : PageRequest.Extraction :=
  match onMessage ExtractContent s with
  | Some (Extracted content url title) => PageRequest.ExtractSuccess content title url
  | Some (Failed error _ _) => PageRequest.ExtractError error
  | _ => PageRequest.ExtractNoResponse
  end.

(** The world of a page request on a tab: [script_at k] is the script
    that receives the k-th probe ([None] when no listener is there, so
    that [lastError] is set), [extracting] the one that receives
    [extractContent]. *)
Definition hosting (script_at : nat -> option Script) (extracting : option Script)
  (tab : PageRequest.Tab) (clock : nat -> nat) (inject_ok : nat -> bool)
  (provider : Suggestions.Provider) : PageRequest.World :=
  PageRequest.MkWorld (PageRequest.QueryTabs (Some [tab])) (Some tab)
    (Supervisor.MkWorld
       (fun k => match script_at k with
                 | Some s => ping_outcome s (clock k)
                 | None => Supervisor.PingLastError
                 end)
       inject_ok)
    (match extracting with
     | Some s => extraction s
     | None => PageRequest.ExtractLastError
     end)
    provider.

End Agent.

(** ** Vocabulary of the further properties *)

Module Vocabulary.
Import JsString.

(** *** Text *)

(** Every white character is a plain space and no two of them are
    adjacent. *)
Fixpoint single_spaced (s : string) : bool :=
  match s with
  | EmptyString => true
  | String c r =>
      (negb (is_space c) || Ascii.eqb c " "%char)
      && match r with
         | String d _ => negb (is_space c && is_space d)
         | EmptyString => true
         end
      && single_spaced r
  end.

Definition starts_clean (s : string) : bool :=
  match s with
  | String c _ => negb (is_space c)
  | EmptyString => true
  end.

(** Neither the first nor the last character is white. *)
Definition trimmed (s : string) : bool := starts_clean s && starts_clean (String.rev s).

Definition carriage_return : ascii := "013"%char.

(** *** The hash *)

Definition code (c : ascii) : Z := Z.of_nat (nat_of_ascii c).

(** The polynomial of the code units in base 31, without wrap-around. *)
Fixpoint poly31 (acc : Z) (str : string) : Z :=
  match str with
  | EmptyString => acc
  | String c r => poly31 (31 * acc + code c)%Z r
  end.

Definition int32 (z : Z) : Prop := (- 2147483648 <= z < 2147483648)%Z.

(** *** The cache *)

(** Every stored value is a triple. *)
Definition triples (c : list Suggestions.Entry) : Prop :=
  Forall (fun e => List.length (snd e) = 3) c.

Definition stores_triple (op : Suggestions.CacheOp) : Prop :=
  match op with
  | Suggestions.OpStore _ v => List.length v = 3
  | Suggestions.OpCleanup => True
  end.

(** The other turns store triples only. *)
Definition polite (p : Suggestions.Provider) : Prop :=
  Forall stores_triple (Suggestions.during_availability p)
  /\ Forall stores_triple (Suggestions.during_create p)
  /\ Forall stores_triple (Suggestions.during_prompt p).

(** *** Sessions *)

Definition is_streamed (e : Session.Event) : bool :=
  match e with Session.Streamed _ _ _ _ => true | _ => false end.

Definition connects (t : Session.Turn) : bool :=
  match t with Session.TurnConnect _ => true | _ => false end.

(** No popup is connected and none connects while the request runs. *)
Definition unobserved (p : Session.Provider) (st : Session.State) : Prop :=
  Session.activeConnections st = ∅
  /\ forallb (fun t => negb (connects t)) (Session.schedule p) = true.

(** The same provider and interleaving with other delivery outcomes. *)
Definition with_delivery (outcome : Session.Step -> bool) (p : Session.Provider)
  : Session.Provider :=
  Session.MkProvider (Session.capability p) (Session.availability p) (Session.download p)
    (Session.params_failure p) (Session.created p) (Session.before_register p)
    (List.map (fun s => Session.MkStep (Session.before s) (Session.chunk s) (outcome s))
       (Session.steps p))
    (Session.before_end p) (Session.ending p) (Session.during_fallback p)
    (Session.fallback p).

(** Two states with the same tables. *)
Definition same_tables (a b : Session.State) : Prop :=
  Session.activeSessions a = Session.activeSessions b
  /\ Session.activeConnections a = Session.activeConnections b.

(** The events of a log with the delivery outcomes forgotten. *)
Definition forget_delivery (e : Session.Event) : Session.Event :=
  match e with
  | Session.Streamed sid c f _ => Session.Streamed sid c f true
  | other => other
  end.

(** *** The page *)

(** The selector finds nothing, or an element of at most 100
    characters: the loop of [extractPageContent] goes on. *)
Definition short_or_absent (p : Content.Page) (selector : string) : Prop :=
  forall text, Content.query_text p selector = Some text -> String.length text <= 100.

(** *** Page requests *)


(** *** The status table *)

(** The table says that the script of the tab is alive and ready. *)
Definition recorded_ready (tabId : nat) (st : Supervisor.State) : Prop :=
  exists s, Supervisor.contentScriptStatus st !! tabId = Some s
            /\ Supervisor.alive s = true /\ Supervisor.ready s = true.

(** The entries of the other tabs are the same. *)
Definition same_elsewhere (tabId : nat) (a b : Supervisor.State) : Prop :=
  forall t, t <> tabId ->
            Supervisor.contentScriptStatus a !! t = Supervisor.contentScriptStatus b !! t.

(** *** The dispatcher *)

(** One of the three messages the dispatcher substitutes. *)
Definition friendly (m : string) : Prop :=
  m = Dispatcher.not_available_message
  \/ m = Dispatcher.downloading_message
  \/ m = Dispatcher.download_failed_message.

Definition download_fails (d : Session.Download) : bool :=
  match d with
  | Session.DownloadCompleted _ None => false
  | _ => true
  end.

(** The request is refused by [handlePromptAPI] itself, before a
    session is asked for. *)
Definition refused_early (p : Session.Provider) : Prop :=
  Session.capability p = false
  \/ Session.availability p = Lifecycle.Reports "unavailable"
  \/ Session.availability p = Lifecycle.Reports "downloading"
  \/ (Session.availability p = Lifecycle.Reports "downloadable"
      /\ download_fails (Session.download p) = true).

(** The session id an answer of the dispatcher carries. *)
Definition answered_id (r : Dispatcher.PromptResponse) : Js.Str :=
  match r with
  | Dispatcher.PromptSuccess _ sessionId => sessionId
  | Dispatcher.PromptFailure _ _ sessionId => sessionId
  end.

(** The same tables, and the same log up to the delivery outcomes. *)
Definition alike (a b : Session.State) : Prop :=
  same_tables a b
  /\ List.map forget_delivery (Session.log a) = List.map forget_delivery (Session.log b).

(** The [streamingResponse] messages of a log. *)
Definition streamed (l : list Session.Event) : list Session.Event :=
  List.filter is_streamed l.

(** No popup is connected, and the log has the streamed messages of
    [base]. *)
Definition silent_since (base : list Session.Event) (st : Session.State) : Prop :=
  Session.activeConnections st = ∅ /\ streamed (Session.log st) = streamed base.

(** *** Numbers *)

(** [a] is at most [b], as numbers: false as soon as one is [NaN]. *)
Definition at_most (a b : Params.Number) : Prop :=
  match a, b with
  | Params.NaN, _ | _, Params.NaN => False
  | Params.NegInf, _ => True
  | _, Params.PosInf => True
  | Params.Fin x, Params.Fin y => (x <= y)%Q
  | _, _ => False
  end.

(** [v] lies between [lo] and [hi]. *)
Definition between (lo v hi : Params.Number) : Prop := at_most lo v /\ at_most v hi.

End Vocabulary.

(** ** The parser as the claim words it *)

(** Written from the words of the specification, without the
    functions above: which lines open with an ordinal marker, what
    stripping the surrounding quotes means, and which entries a
    response yields. *)
Module Wording.

(** The character classes, by code: [0-9], the white characters, the
    two line breaks that end a line for a pattern, the two quotes. *)
Definition digit (c : ascii) : Prop := 48 <= nat_of_ascii c <= 57.

Definition white (c : ascii) : Prop := In (nat_of_ascii c) [9; 10; 11; 12; 13; 32; 160].

Definition line_break (c : ascii) : Prop := nat_of_ascii c = 10 \/ nat_of_ascii c = 13.

Definition line_feed (c : ascii) : Prop := nat_of_ascii c = 10.

Definition quote (c : ascii) : Prop := nat_of_ascii c = 34 \/ nat_of_ascii c = 39.

Fixpoint every (P : ascii -> Prop) (s : string) : Prop :=
  match s with
  | EmptyString => True
  | String c r => P c /\ every P r
  end.

Definition opens_with (P : ascii -> Prop) (s : string) : Prop :=
  exists c r, s = String c r /\ P c.

Definition closes_with (P : ascii -> Prop) (s : string) : Prop :=
  exists r c, s = r +:+ String c EmptyString /\ P c.

(** The line opens with an ordinal marker, one or more digits and a
    full stop, and [text] is what follows the marker and the white
    space after it, up to the end of the line: it is not empty and
    holds no line break. It starts with a white character only when
    nothing but white space follows the marker; it is then the last
    character of the line. *)
Definition marked (line text : string) : Prop :=
  exists digits gap,
    line = digits +:+ "." +:+ gap +:+ text
    /\ digits <> EmptyString /\ every digit digits
    /\ every white gap
    /\ text <> EmptyString /\ every (fun c => ~ line_break c) text
    /\ (opens_with white text -> String.length text = 1).

(** [core] is [s] without the white space around it. *)
Definition trimmed_of (s core : string) : Prop :=
  exists a b,
    s = a +:+ core +:+ b
    /\ every white a /\ every white b
    /\ ~ opens_with white core /\ ~ closes_with white core.

(** [r] is [s] without its surrounding quotes: a quote character at
    the start is taken off, and so is one at the end of what is left. *)
Definition unquoted (s r : string) : Prop :=
  exists front back,
    s = front +:+ r +:+ back
    /\ ((front = EmptyString /\ ~ opens_with quote s)
        \/ exists q, front = String q EmptyString /\ quote q)
    /\ ((back = EmptyString /\ ~ closes_with quote r)
        \/ exists q, back = String q EmptyString /\ quote q).

(** The entries of some lines, in order: a line that opens with an
    ordinal marker gives its text, trimmed and unquoted; every other
    line gives nothing. *)
Inductive entries : list string -> list string -> Prop :=
| entries_end : entries [] []
| entries_skip (line : string) (rest found : list string) :
    (forall text, ~ marked line text) ->
    entries rest found -> entries (line :: rest) found
| entries_keep (line text core entry : string) (rest found : list string) :
    marked line text -> trimmed_of text core -> unquoted core entry ->
    entries rest found -> entries (line :: rest) (entry :: found).

(** The lines of a text: the pieces between its line feeds. *)
Definition lines_of (text : string) (lines : list string) : Prop :=
  lines <> []
  /\ text = String.concat (String "010"%char EmptyString) lines
  /\ Forall (every (fun c => ~ line_feed c)) lines.

(** The parse of a response: the first three entries of its lines. *)
Definition parse (text : string) (result : list string) : Prop :=
  exists lines found,
    lines_of text lines /\ entries lines found /\ result = List.firstn 3 found.

End Wording.

(** ** Concrete runs used below *)

Module Scenarios.
Import Session.

(** One popup is connected, no session is active, nothing has happened. *)
Definition idle : State := MkState ∅ {[ 1 ]} [].

Definition step (ts : list Turn) (c : string) : Step := MkStep ts c true.

(** A provider that is ready and creates the session [h]; the stream
    is given by [ss]. *)
Definition ready_provider (h : Handle) (ss : list Step) : Provider :=
  MkProvider true (Lifecycle.Reports "available") (DownloadFailed "") None (inr h)
    [] ss [] Exhausted [] (Err "").

(** Three chunks are streamed, then [cancelSession] runs before the
    fourth chunk reaches the loop. *)
Definition cancelled_after_three : Provider :=
  ready_provider 7
    [ step [] "a"; step [] "b"; step [] "c";
      step [TurnCancel (Js.Text "s") false] "d" ].

(** The id is cancelled and at once registered again by another
    request, before the next chunk of the cancelled stream arrives. *)
Definition reused_after_cancel : Provider :=
  ready_provider 7
    [ step [] "a";
      step [TurnCancel (Js.Text "s") false; TurnRegister (Js.Text "s") 8] "b" ].

(** Another request holds the id [s] with the session [1]. *)
Definition busy : State := MkState {[ "s" := 1 ]} {[ 1 ]} [].

(** The request streams two chunks; a cancel arrives in between. *)
Definition duplicate_request : Provider :=
  ready_provider 2 [ step [] "a"; step [TurnCancel (Js.Text "s") false] "b" ].

(** The provider yields an empty chunk. *)
Definition empty_chunk : Provider :=
  ready_provider 7 [ step [] "a"; step [] "" ].

(** Two chunks and no other turn. *)
Definition two_chunks : Provider :=
  ready_provider 2 [ step [] "a"; step [] "b" ].

(** The stream throws after one chunk and the single-shot fallback
    fails as well. *)
Definition failing_stream : Provider :=
  MkProvider true (Lifecycle.Reports "available") (DownloadFailed "") None (inr 7)
    [] [ step [] "a" ] [] Thrown [] (Err "The session has been destroyed").

(** A tab without a locator, an agent that never answers, and no
    language model. *)
Definition blank_tab : PageRequest.Tab := PageRequest.MkTab 1 Js.Undefined Js.Undefined.

Definition silent_agent : Supervisor.World :=
  Supervisor.MkWorld (fun _ => Supervisor.PingTimeout) (fun _ => false).

Definition no_model : Suggestions.Provider :=
  Suggestions.MkProvider false (Lifecycle.Rejects "") [] false [] None [] false.

Definition blank_page : PageRequest.World :=
  PageRequest.MkWorld (PageRequest.QueryTabs (Some [blank_tab])) (Some blank_tab)
    silent_agent PageRequest.ExtractNoResponse no_model.

Definition fresh_start : PageRequest.State :=
  PageRequest.MkState (Supervisor.MkState ∅ []) (Suggestions.MkState [] []).

(** A model that answers the suggestion prompt with [response]. *)
Definition answering (response : string) : Suggestions.Provider :=
  Suggestions.MkProvider true (Lifecycle.Reports "available") [] true []
    (Some (Js.Text response)) [] false.

Definition five_lines : string :=
  "1. What is the main claim?
2. 'Who wrote this?'
3. How was it measured?
4. What comes next?
5. Where is the data?".

Definition two_lines : string :=
  "1. What is the main claim?
2. Who wrote this?".

Definition empty_cache : Suggestions.State := Suggestions.MkState [] [].

(** The n-th of a family of distinct fingerprints, and its entry. *)
Definition fingerprint (n : nat) : string := Suggestions.Z_toString (Z.of_nat n).

Definition inserts (n : nat) : list Suggestions.CacheOp :=
  List.map (fun i => Suggestions.OpStore (fingerprint i) Suggestions.getFallbackSuggestions)
    (List.seq 0 n).

(** A page with an initialised content script, and its tab. *)
Definition example_script : Agent.Script :=
  Agent.MkScript false "https://example.org/" "Example"
    (inr (Content.MkPage (fun _ => None) "Hello   world ")).

Definition example_tab : PageRequest.Tab :=
  PageRequest.MkTab 5 (Js.Text "https://example.org/") (Js.Text "Example").

(** The page request on that tab; [answers k] is the script that
    receives the k-th probe, [extracting] the one that is asked for
    the content. No injection succeeds and there is no model. *)
Definition served (answers : nat -> option Agent.Script) (extracting : option Agent.Script)
  : PageRequest.World :=
  Agent.hosting answers extracting example_tab (fun k => 100 + k) (fun _ => false) no_model.

End Scenarios.

(** * Properties *)

(** ** The content-agent supervisor *)

Section SupervisorFacts.
Import Supervisor.

Variable w : World.

Lemma probes_snoc (t : list Action) (a : Action) :
  probes (t ++ [a]) = probes t + (if is_probe a then 1 else 0).
Proof.
  unfold probes. rewrite List.filter_app, List.length_app. simpl.
  destruct (is_probe a); reflexivity.
Qed.

Lemma injections_snoc (t : list Action) (a : Action) :
  injections (t ++ [a]) = injections t + (if is_inject a then 1 else 0).
Proof.
  unfold injections. rewrite List.filter_app, List.length_app. simpl.
  destruct (is_inject a); reflexivity.
Qed.

(** A probe appends exactly one action and answers with the verdict
    of the outcome whose index is the number of earlier probes. *)
Lemma pingContentScript_spec (tabId timeout : nat) (st : State) :
  fst (pingContentScript w tabId timeout st)
    = ping_verdict (ping_outcome w (probes (trace st)))
  /\ trace (snd (pingContentScript w tabId timeout st))
    = trace st ++ [Probe tabId timeout].
Proof.
  unfold pingContentScript.
  destruct (ping_outcome w (probes (trace st))) as [ | | [r|] now | ]; simpl; auto.
  destruct (reply_alive r); simpl; auto.
Qed.

Lemma falsy_is_restricted (url : Js.Str) :
  Js.truthy url = false -> isRestrictedUrl url = true.
Proof. intros H. unfold isRestrictedUrl. now rewrite H. Qed.

Lemma truthy_false_cases (url : Js.Str) :
  Js.truthy url = false <-> url = Js.Undefined \/ url = Js.Null \/ url = Js.Text "".
Proof.
  split.
  - destruct url as [ | | s]; auto. simpl. destruct s; simpl; [auto | discriminate].
  - intros [-> | [-> | ->]]; reflexivity.
Qed.

End SupervisorFacts.

(** C8. A call of the readiness check on a restricted locator returns
    false at once and leaves the state, trace included, untouched: no
    probe is made. On any other locator the call appends one of three
    traces: a single probe that reported ready (verdict true); a probe,
    then an injection that failed (verdict false); or a probe, one
    injection, the 500 ms settle delay and a second probe whose verdict
    is the result. So it makes at most two probes and at most one
    injection, and never retries. *)
Theorem ensureContentScript_probe_budget
    (w : Supervisor.World) (tabId : nat) (url : Js.Str) (st : Supervisor.State) :
  let r := Supervisor.ensureContentScript w tabId url st in
  let k := Supervisor.probes (Supervisor.trace st) in
  let first := Supervisor.ping_verdict (Supervisor.ping_outcome w k) in
  let second := Supervisor.ping_verdict (Supervisor.ping_outcome w (S k)) in
  let injected := Supervisor.inject_ok w (Supervisor.injections (Supervisor.trace st)) in
  if Supervisor.isRestrictedUrl url then r = (false, st)
  else
    exists new : list Supervisor.Action,
      Supervisor.trace (snd r) = Supervisor.trace st ++ new
      /\ Supervisor.probes new <= 2
      /\ Supervisor.injections new <= 1
      /\ new = (if first then [Supervisor.Probe tabId 3000]
                else if injected
                     then [Supervisor.Probe tabId 3000; Supervisor.Inject tabId;
                           Supervisor.Settle 500; Supervisor.Probe tabId 3000]
                     else [Supervisor.Probe tabId 3000; Supervisor.Inject tabId])
      /\ fst r = (if first then true else if injected then second else false).
Proof.
  intros r k first second injected. subst r.
  unfold Supervisor.ensureContentScript.
  destruct (Supervisor.isRestrictedUrl url); [reflexivity | ].
  pose proof (pingContentScript_spec w tabId Supervisor.default_timeout st) as [Hv Ht].
  destruct (Supervisor.pingContentScript w tabId Supervisor.default_timeout st)
    as [isReady st1] eqn:Hp.
  simpl in Hv, Ht. fold k in Hv. fold first in Hv. subst isReady.
  assert (Hj : Supervisor.injections (Supervisor.trace st1)
               = Supervisor.injections (Supervisor.trace st)).
  { rewrite Ht, injections_snoc. simpl. lia. }
  destruct first eqn:Hfirst.
  - exists [Supervisor.Probe tabId 3000]. simpl. repeat split; auto.
  - rewrite Hj. fold injected. destruct injected eqn:Hinj.
    + set (st3 := Supervisor.log (Supervisor.Settle 500)
                    (Supervisor.log (Supervisor.Inject tabId) st1)).
      pose proof (pingContentScript_spec w tabId Supervisor.default_timeout st3) as [Hv2 Ht2].
      assert (Hk : Supervisor.probes (Supervisor.trace st3) = S k).
      { subst st3. simpl. rewrite !probes_snoc, Ht, probes_snoc. simpl. fold k. lia. }
      rewrite Hk in Hv2. fold second in Hv2.
      exists [Supervisor.Probe tabId 3000; Supervisor.Inject tabId;
              Supervisor.Settle 500; Supervisor.Probe tabId 3000].
      repeat split; auto.
      rewrite Ht2. subst st3. simpl. rewrite Ht.
      rewrite <- !List.app_assoc. reflexivity.
    + exists [Supervisor.Probe tabId 3000; Supervisor.Inject tabId].
      simpl. repeat split; auto.
      rewrite Ht, <- List.app_assoc. reflexivity.
Qed.

(** C10. A locator that is undefined, null or the empty string (the
    falsy values) is classified as restricted; the readiness check then
    returns false with the state and its trace unchanged, so neither a
    probe nor an injection is attempted, and the page-content handler
    answers with the fallback payload without touching the supervisor. *)
Theorem falsy_locator_takes_fallback
    (w : PageRequest.World) (tab : PageRequest.Tab) (others : list PageRequest.Tab)
    (st : PageRequest.State) :
  Js.truthy (PageRequest.tab_url tab) = false ->
  PageRequest.tabs w = PageRequest.QueryTabs (Some (tab :: others)) ->
  (PageRequest.tab_url tab = Js.Undefined \/ PageRequest.tab_url tab = Js.Null
     \/ PageRequest.tab_url tab = Js.Text "")
  /\ Supervisor.isRestrictedUrl (PageRequest.tab_url tab) = true
  /\ (forall sup : Supervisor.State,
        Supervisor.ensureContentScript (PageRequest.agent w) (PageRequest.tab_id tab)
          (PageRequest.tab_url tab) sup = (false, sup))
  /\ PageRequest.handlePageContentRequest w st = (PageRequest.getFallbackPageInfo w, st).
Proof.
  intros Hfalsy Htabs.
  pose proof (falsy_is_restricted _ Hfalsy) as Hr.
  split; [ now apply truthy_false_cases | ].
  split; [ exact Hr | ].
  split.
  - intros sup. unfold Supervisor.ensureContentScript. now rewrite Hr.
  - unfold PageRequest.handlePageContentRequest. rewrite Htabs. now rewrite Hr.
Qed.

(** ** The content script *)

Section ContentFacts.
Import JsString.

Lemma length_take (n : nat) (s : string) :
  String.length (take n s) = Nat.min n (String.length s).
Proof.
  revert s. induction n as [ | n IH]; intros [ | c r]; simpl; auto.
Qed.

Lemma take_drop (n : nat) (s : string) : take n s +:+ drop n s = s.
Proof.
  revert s. induction n as [ | n IH]; intros [ | c r]; try reflexivity.
  change (String c (take n r +:+ drop n r) = String c r). now rewrite IH.
Qed.

Lemma length_app_string (s t : string) :
  String.length (s +:+ t) = String.length s + String.length t.
Proof.
  induction s as [ | c s IH]; [reflexivity | ].
  change (S (String.length (s +:+ t)) = S (String.length s) + String.length t).
  now rewrite IH.
Qed.

Lemma extractPageContent_unfold (p : Content.Page) :
  Content.extractPageContent p
  = if Nat.ltb Content.content_limit (String.length (Content.cleaned_content p))
    then take Content.content_limit (Content.cleaned_content p) +:+ "..."
    else Content.cleaned_content p.
Proof. reflexivity. Qed.

End ContentFacts.

(** C9. When the cleaned page content has more than 2000 characters,
    [extractPageContent] returns its first 2000 characters followed by
    the three-character marker [...], 2003 characters in all; content of
    2000 characters or fewer is returned as it is. *)
Theorem extractPageContent_truncation (p : Content.Page) :
  let content := Content.cleaned_content p in
  if Nat.ltb 2000 (String.length content)
  then Content.extractPageContent p = JsString.take 2000 content +:+ "..."
       /\ String.length (JsString.take 2000 content) = 2000
       /\ content = JsString.take 2000 content +:+ JsString.drop 2000 content
       /\ String.length (Content.extractPageContent p) = 2003
  else Content.extractPageContent p = content.
Proof.
  intros content. rewrite extractPageContent_unfold. fold content.
  change Content.content_limit with 2000.
  destruct (Nat.ltb 2000 (String.length content)) eqn:Hlen; [ | reflexivity].
  apply Nat.ltb_lt in Hlen.
  assert (Htake : String.length (JsString.take 2000 content) = 2000).
  { rewrite length_take. lia. }
  repeat split; auto.
  - symmetry. apply take_drop.
  - rewrite length_app_string, Htake. reflexivity.
Qed.

(** ** The availability mapping *)

(** C3, the claim as stated fails: with the provider capability absent
    the result has no [status] property at all, so its status is not
    [api_not_found]; the tag travels in [reason], spelled
    [API_NOT_FOUND]. *)
Lemma absent_capability_has_no_status :
  Lifecycle.status (Lifecycle.checkAPIAvailability Lifecycle.Absent) = None
  /\ Lifecycle.status (Lifecycle.checkAPIAvailability Lifecycle.Absent) <> Some "api_not_found"
  /\ Lifecycle.reason (Lifecycle.checkAPIAvailability Lifecycle.Absent) = Some "API_NOT_FOUND".
Proof. repeat split; simpl; congruence. Qed.

(** C3, amended. [checkAPIAvailability] is a function of the provider's
    state. The four values available, downloadable, downloading and
    unavailable map to the fixed results with status ready,
    downloadable, downloading and unavailable, no [reason], and a fixed
    message each; any other reported value maps to status unknown. An
    absent capability maps to a fixed result without [status] whose
    [reason] is API_NOT_FOUND, and a failing availability query to a
    result without [status] whose [reason] is ERROR. *)
Theorem checkAPIAvailability_table :
  Lifecycle.checkAPIAvailability (Lifecycle.Present (Lifecycle.Reports "available"))
    = Lifecycle.MkAvailability true (Some "ready") None "AI model is ready to use."
  /\ Lifecycle.checkAPIAvailability (Lifecycle.Present (Lifecycle.Reports "downloadable"))
    = Lifecycle.MkAvailability true (Some "downloadable") None
        "AI model needs to be downloaded before first use."
  /\ Lifecycle.checkAPIAvailability (Lifecycle.Present (Lifecycle.Reports "downloading"))
    = Lifecycle.MkAvailability false (Some "downloading") None
        "AI model is currently downloading. Please wait."
  /\ Lifecycle.checkAPIAvailability (Lifecycle.Present (Lifecycle.Reports "unavailable"))
    = Lifecycle.MkAvailability false (Some "unavailable") None
        "AI model is not available on this device."
  /\ Lifecycle.checkAPIAvailability Lifecycle.Absent
    = Lifecycle.MkAvailability false None (Some "API_NOT_FOUND")
        "Chrome Prompt API is not available. Please ensure you have Chrome 138+"
  /\ (forall value : string,
        ~ In value Lifecycle.known_values ->
        Lifecycle.checkAPIAvailability (Lifecycle.Present (Lifecycle.Reports value))
        = Lifecycle.MkAvailability false (Some "unknown") None
            ("Unknown availability status: " +:+ value))
  /\ (forall message : string,
        Lifecycle.checkAPIAvailability (Lifecycle.Present (Lifecycle.Rejects message))
        = Lifecycle.MkAvailability false None (Some "ERROR")
            ("Error checking availability: " +:+ message))
  /\ (forall p : Lifecycle.Provider,
        let r := Lifecycle.checkAPIAvailability p in
        match Lifecycle.status r, Lifecycle.reason r with
        | Some s, None => In s ["ready"; "downloadable"; "downloading"; "unavailable"; "unknown"]
        | None, Some t => In t ["API_NOT_FOUND"; "ERROR"] /\ Lifecycle.available r = false
        | _, _ => False
        end).
Proof.
  do 5 (split; [reflexivity | ]).
  split; [ | split].
  - intros value Hnot. unfold Lifecycle.checkAPIAvailability.
    repeat match goal with
      | |- context [String.eqb value ?lit] =>
          destruct (String.eqb_spec value lit) as [-> | _];
          [ exfalso; apply Hnot; simpl; tauto | ]
      end.
    reflexivity.
  - reflexivity.
  - intros [ | [value | message]]; simpl; auto.
    repeat match goal with
      | |- context [String.eqb value ?lit] => destruct (String.eqb value lit)
      end; simpl; tauto.
Qed.

(** ** The suggestion cache *)

Section CacheFacts.
Import Suggestions.

Implicit Types (c : list Entry) (k : string) (v : list string).

Lemma has_keys k c : has k c = true <-> In k (keys c).
Proof.
  unfold has, keys. rewrite List.existsb_exists, List.in_map_iff. split.
  - intros [e [He Hk]]. apply String.eqb_eq in Hk. eauto.
  - intros [e [Hk He]]. exists e. split; auto. now apply String.eqb_eq.
Qed.

Lemma has_false_keys k c : has k c = false <-> ~ In k (keys c).
Proof.
  rewrite <- has_keys. destruct (has k c); split; congruence.
Qed.

Lemma set_fresh k v c : ~ In k (keys c) -> set k v c = c ++ [(k, v)].
Proof.
  induction c as [ | [k' v'] r IH]; simpl; intros Hk; [reflexivity | ].
  destruct (String.eqb_spec k' k) as [-> | _]; [tauto | ].
  rewrite IH; tauto.
Qed.

Lemma length_set_present k v c : In k (keys c) -> List.length (set k v c) = List.length c.
Proof.
  induction c as [ | [k' v'] r IH]; simpl; intros Hk; [tauto | ].
  destruct (String.eqb_spec k' k) as [-> | Hne]; simpl; [reflexivity | ].
  rewrite IH; tauto.
Qed.

Lemma length_set_le k v c : List.length (set k v c) <= S (List.length c).
Proof.
  induction c as [ | [k' v'] r IH]; simpl; [lia | ].
  destruct (String.eqb k' k); simpl; lia.
Qed.

Lemma get_set k v c : get k (set k v c) = Some v.
Proof.
  induction c as [ | [k' v'] r IH]; simpl.
  - now rewrite String.eqb_refl.
  - destruct (String.eqb_spec k' k) as [-> | Hne]; simpl.
    + now rewrite String.eqb_refl.
    + destruct (String.eqb_spec k' k); [tauto | exact IH].
Qed.

Lemma get_delete_ne k k' c : k' <> k -> get k (delete k' c) = get k c.
Proof.
  intros Hne. induction c as [ | [k0 v0] r IH]; simpl; [reflexivity | ].
  destruct (String.eqb_spec k0 k') as [-> | Hk0]; simpl.
  - destruct (String.eqb_spec k' k); [tauto | exact IH].
  - now rewrite IH.
Qed.

Lemma length_delete_le k c : List.length (delete k c) <= List.length c.
Proof. unfold delete. apply List.filter_length_le. Qed.

(** With distinct keys, deleting the first key removes the head and
    nothing else. *)
Lemma delete_head k v c : ~ In k (keys c) -> delete k ((k, v) :: c) = c.
Proof.
  intros Hk. unfold delete. simpl. rewrite String.eqb_refl. simpl.
  induction c as [ | [k' v'] r IH]; simpl in *; [reflexivity | ].
  destruct (String.eqb_spec k' k) as [-> | _]; [tauto | ].
  simpl. rewrite IH; tauto.
Qed.

Lemma length_delete_head k v c : List.length (delete k ((k, v) :: c)) <= List.length c.
Proof.
  unfold delete. simpl. rewrite String.eqb_refl. simpl. apply List.filter_length_le.
Qed.

Lemma store_bound k v c : List.length c <= cache_bound -> List.length (store k v c) <= cache_bound.
Proof.
  intros Hc. unfold store, cache_bound in *.
  destruct (Nat.ltb 50 (List.length (set k v c))) eqn:Hover.
  - apply Nat.ltb_lt in Hover. pose proof (length_set_le k v c) as Hle.
    destruct (set k v c) as [ | [k0 v0] r] eqn:Hset; simpl in Hover, Hle; [lia | ].
    change (first_key ((k0, v0) :: r)) with (Some k0). cbv beta iota.
    pose proof (length_delete_head k0 v0 r) as Hdel. unfold Entry in *. lia.
  - apply Nat.ltb_ge in Hover. exact Hover.
Qed.

Lemma fold_delete_le (ks : list string) c :
  List.length (List.fold_left (fun acc key => delete key acc) ks c) <= List.length c.
Proof.
  revert c. induction ks as [ | k ks IH]; intros c; simpl; [lia | ].
  etransitivity; [apply IH | apply length_delete_le].
Qed.

Lemma cleanup_le c : List.length (cleanup c) <= List.length c.
Proof.
  unfold cleanup. destruct (Nat.ltb 30 (List.length c)); [apply fold_delete_le | lia].
Qed.

Lemma apply_op_bound op c :
  List.length c <= cache_bound -> List.length (apply_op c op) <= cache_bound.
Proof.
  destruct op as [k v | ]; simpl; intros Hc.
  - now apply store_bound.
  - pose proof (cleanup_le c). lia.
Qed.

Lemma apply_ops_bound ops c :
  List.length c <= cache_bound -> List.length (apply_ops ops c) <= cache_bound.
Proof.
  revert c. induction ops as [ | op ops IH]; intros c Hc; simpl; [exact Hc | ].
  apply IH. now apply apply_op_bound.
Qed.

Lemma apply_ops_snoc ops op c : apply_ops (ops ++ [op]) c = apply_op (apply_ops ops c) op.
Proof. unfold apply_ops. now rewrite List.fold_left_app. Qed.

Lemma stored_keys_app ops1 ops2 :
  stored_keys (ops1 ++ ops2) = stored_keys ops1 ++ stored_keys ops2.
Proof.
  induction ops1 as [ | [k v | ] r IH]; simpl; [reflexivity | | exact IH].
  now rewrite IH.
Qed.

Lemma keys_app c1 c2 : keys (c1 ++ c2) = keys c1 ++ keys c2.
Proof. apply List.map_app. Qed.

(** With distinct keys, deleting the first [m] keys one after the
    other removes the first [m] entries. *)
Lemma fold_delete_first (m : nat) c :
  List.NoDup (keys c) ->
  List.fold_left (fun acc key => delete key acc) (List.firstn m (keys c)) c = List.skipn m c.
Proof.
  revert c. induction m as [ | m IH]; intros c Hnd; [reflexivity | ].
  destruct c as [ | [k v] r]; [reflexivity | ].
  simpl in Hnd. inversion Hnd as [ | ? ? Hk Hr]; subst.
  change (List.fold_left (fun acc key => delete key acc) (List.firstn m (keys r))
            (delete k ((k, v) :: r)) = List.skipn m r).
  rewrite delete_head by exact Hk. now apply IH.
Qed.

End CacheFacts.

Section CacheInvariant.
Import Suggestions.

Implicit Types (c : list Entry) (k : string) (v : list string).

Lemma in_skipn {A : Type} (n : nat) (l : list A) (x : A) : In x (List.skipn n l) -> In x l.
Proof.
  intros Hx. rewrite <- (List.firstn_skipn n l). apply List.in_or_app. now right.
Qed.

Lemma NoDup_skipn {A : Type} (n : nat) (l : list A) : List.NoDup l -> List.NoDup (List.skipn n l).
Proof.
  intros Hl. rewrite <- (List.firstn_skipn n l) in Hl.
  now apply List.NoDup_app_remove_l in Hl.
Qed.

Lemma NoDup_snoc_fresh {A : Type} (l : list A) (x : A) : List.NoDup (l ++ [x]) -> ~ In x l.
Proof.
  intros Hnd Hin. apply List.NoDup_remove_2 in Hnd. apply Hnd.
  rewrite List.app_nil_r. exact Hin.
Qed.

(** Storing under a key the map does not hold: the entry goes last
    and, when the map was full, the first entry leaves. *)
Lemma store_fresh k v c :
  List.NoDup (keys c) -> ~ In k (keys c) ->
  store k v c = (if Nat.ltb (List.length c) cache_bound then c else List.tl c) ++ [(k, v)].
Proof.
  intros Hnd Hk. unfold store. rewrite (set_fresh k v c Hk).
  rewrite List.length_app. simpl List.length. unfold cache_bound.
  destruct (Nat.ltb_spec (List.length c) 50) as [Hlt | Hge].
  - destruct (Nat.ltb_spec 50 (List.length c + 1)); [lia | reflexivity].
  - destruct (Nat.ltb_spec 50 (List.length c + 1)); [ | lia].
    destruct c as [ | [k0 v0] r]; [simpl in Hge; lia | ].
    change (delete k0 ((k0, v0) :: (r ++ [(k, v)])) = r ++ [(k, v)]).
    apply delete_head. unfold keys in *. rewrite List.map_app. simpl in Hnd, Hk |- *.
    inversion Hnd as [ | ? ? Hk0 Hr]; subst.
    intros Hin. apply List.in_app_or in Hin. simpl in Hin.
    destruct Hin as [Hin | [Heq | []]]; [tauto | subst; tauto].
Qed.

(** The members of a reachable cache are a contiguous, most recent
    part of the history of stored keys. *)
Lemma cache_is_recent_window (ops : list CacheOp) :
  List.NoDup (stored_keys ops) ->
  exists n, n <= List.length (stored_keys ops)
            /\ keys (apply_ops ops []) = List.skipn n (stored_keys ops).
Proof.
  induction ops as [ | op ops IH] using List.rev_ind; intros Hnd.
  - exists 0. split; [simpl; lia | reflexivity].
  - rewrite stored_keys_app in Hnd |- *. rewrite apply_ops_snoc.
    pose proof (List.NoDup_app_remove_r _ _ Hnd) as Hhist.
    destruct (IH Hhist) as [n [Hn Hkeys]].
    set (c := apply_ops ops []) in *.
    assert (Hcnd : List.NoDup (keys c)) by (rewrite Hkeys; now apply NoDup_skipn).
    destruct op as [k v | ]; simpl stored_keys in *; simpl apply_op.
    + assert (Hk : ~ In k (stored_keys ops)).
      { now apply NoDup_snoc_fresh. }
      assert (Hkc : ~ In k (keys c)) by (rewrite Hkeys; intros Hin; now apply in_skipn in Hin).
      rewrite (store_fresh k v c Hcnd Hkc).
      assert (Hwin : keys c ++ [k] = List.skipn n (stored_keys ops ++ [k])).
      { rewrite List.skipn_app, <- Hkeys.
        replace (n - List.length (stored_keys ops)) with 0 by lia. reflexivity. }
      destruct (Nat.ltb_spec (List.length c) cache_bound) as [Hroom | Hfull].
      * exists n. rewrite List.length_app. simpl. split; [lia | ].
        rewrite keys_app. exact Hwin.
      * exists (S n). rewrite keys_app, List.length_app. simpl List.length.
        destruct c as [ | e r] eqn:Hc; [unfold cache_bound in Hfull; simpl in Hfull; lia | ].
        assert (Hlen : List.length (List.skipn n (stored_keys ops)) = S (List.length r)).
        { rewrite <- Hkeys. unfold keys. now rewrite List.length_map. }
        rewrite List.length_skipn in Hlen. split; [lia | ].
        rewrite <- (List.skipn_skipn 1 n), <- Hwin. reflexivity.
    + rewrite List.app_nil_r in *. unfold cleanup.
      destruct (Nat.ltb_spec 30 (List.length c)) as [Hbig | _].
      * rewrite (fold_delete_first 10 c Hcnd).
        exists (10 + n). unfold keys at 1. rewrite <- List.skipn_map.
        change (List.map fst c) with (keys c).
        rewrite Hkeys, List.skipn_skipn. split; [ | reflexivity].
        assert (Hlen : List.length (keys c) = List.length c)
          by (unfold keys; apply List.length_map).
        rewrite Hkeys, List.length_skipn in Hlen. lia.
      * exists n. auto.
Qed.

Lemma reachable_bound (ops : list CacheOp) : List.length (apply_ops ops []) <= cache_bound.
Proof. apply apply_ops_bound. simpl. unfold cache_bound. lia. Qed.

End CacheInvariant.

(** C5. Start from the empty cache and run any history of insertions
    (the store of lines 241-247) and periodic cleanups whose inserted
    fingerprints are pairwise distinct, then insert one more. Before and
    after that insertion the cache holds at most 50 entries and its keys
    are a contiguous, most recent part of the keys inserted so far, in
    insertion order; the insertion appends the new entry and, exactly
    when the cache was full, removes the first one, which is the one
    inserted earliest among the members. As the history is arbitrary,
    this holds after every insertion of a run. *)
Theorem suggestionCache_bounded_fifo
    (ops : list Suggestions.CacheOp) (k : string) (v : list string) :
  List.NoDup (Suggestions.stored_keys (ops ++ [Suggestions.OpStore k v])) ->
  let c := Suggestions.apply_ops ops [] in
  let c' := Suggestions.apply_ops (ops ++ [Suggestions.OpStore k v]) [] in
  List.length c <= 50
  /\ List.length c' <= 50
  /\ (exists m, Suggestions.keys c = List.skipn m (Suggestions.stored_keys ops))
  /\ (exists n, Suggestions.keys c' = List.skipn n (Suggestions.stored_keys ops ++ [k]))
  /\ c' = (if Nat.ltb (List.length c) 50 then c else List.tl c) ++ [(k, v)].
Proof.
  intros Hnd c c'.
  pose proof (reachable_bound ops) as Hc.
  pose proof (reachable_bound (ops ++ [Suggestions.OpStore k v])) as Hc'.
  pose proof (cache_is_recent_window _ Hnd) as [n [_ Hn]].
  rewrite stored_keys_app in Hnd, Hn. simpl in Hnd, Hn.
  pose proof (List.NoDup_app_remove_r _ _ Hnd) as Hhist.
  pose proof (cache_is_recent_window _ Hhist) as [m [_ Hm]].
  fold c in Hm, Hc. fold c' in Hn, Hc'. unfold Suggestions.cache_bound in *.
  repeat split; eauto.
  subst c'. rewrite apply_ops_snoc. fold c. simpl.
  apply store_fresh.
  - rewrite Hm. now apply NoDup_skipn.
  - rewrite Hm. intros Hin. apply in_skipn in Hin.
    now apply (NoDup_snoc_fresh _ _ Hnd).
Qed.

(** ** The suggestion parser and generator *)

Section ParserFacts.
Import JsString Suggestions.

Lemma dot_plus_nonempty (s : string) : dot_plus_to_end s = true -> s <> EmptyString.
Proof.
  unfold dot_plus_to_end.
  destruct (String.eqb_spec s EmptyString); simpl; [discriminate | auto].
Qed.

Lemma backtrack_spaces_nonempty (k : nat) (r captured : string) :
  backtrack_spaces k r = Some captured ->
  captured <> EmptyString /\ exists j, captured = drop j r.
Proof.
  induction k as [ | k IH]; intros H.
  - change (backtrack_spaces 0 r)
      with (if dot_plus_to_end (drop 0 r) then Some (drop 0 r) else None) in H.
    destruct (dot_plus_to_end (drop 0 r)) eqn:E; [ | discriminate].
    injection H as <-. split; [now apply dot_plus_nonempty | now exists 0].
  - change (backtrack_spaces (S k) r)
      with (if dot_plus_to_end (drop (S k) r) then Some (drop (S k) r)
            else backtrack_spaces k r) in H.
    destruct (dot_plus_to_end (drop (S k) r)) eqn:E; [ | now apply IH].
    injection H as <-. split; [now apply dot_plus_nonempty | now exists (S k)].
Qed.

Lemma match_numbered_captures (line captured : string) :
  match_numbered line = Some captured ->
  captured <> EmptyString /\ leading_ordinal line = true.
Proof.
  unfold match_numbered, leading_ordinal.
  destruct (Nat.eqb_spec (span_length is_digit line) 0) as [ | Hd]; [discriminate | ].
  destruct (drop (span_length is_digit line) line) as [ | c r]; [discriminate | ].
  destruct (Ascii.eqb_spec c "."%char) as [-> | ]; [ | discriminate].
  intros Hb. apply backtrack_spaces_nonempty in Hb as [Hne _].
  split; [exact Hne | ].
  apply andb_true_intro. split; [apply Nat.ltb_lt; lia | ].
  simpl. destruct r; reflexivity.
Qed.

Lemma firstn_app_short {A : Type} (n : nat) (l1 l2 : list A) :
  n <= List.length l1 -> List.firstn n (l1 ++ l2) = List.firstn n l1.
Proof.
  intros Hle. rewrite List.firstn_app.
  replace (n - List.length l1) with 0 by lia. simpl. apply List.app_nil_r.
Qed.

(** The loop with its [break] computes the first three entries. *)
Lemma collect_spec (lines : list string) (acc : list string) :
  List.length acc < 3 ->
  collect lines acc = List.firstn 3 (acc ++ omap entry_of lines).
Proof.
  revert acc. induction lines as [ | line rest IH]; intros acc Hacc.
  - simpl. rewrite List.app_nil_r. symmetry. apply List.firstn_all2. lia.
  - cbn [collect].
    change (omap entry_of (line :: rest))
      with (match entry_of line with
            | Some y => y :: omap entry_of rest
            | None => omap entry_of rest
            end).
    unfold entry_of at 1.
    destruct (match_numbered line) as [captured | ] eqn:Hm; simpl option_map; cbv iota.
    + apply match_numbered_captures in Hm as [Hne _].
      destruct (String.eqb_spec captured EmptyString) as [ | _]; [contradiction | ].
      simpl negb. cbv iota.
      replace (acc ++ suggestion_of captured :: omap entry_of rest)
        with ((acc ++ [suggestion_of captured]) ++ omap entry_of rest)
        by (now rewrite <- List.app_assoc).
      destruct (Nat.leb_spec 3 (List.length (acc ++ [suggestion_of captured]))) as [Hfull | Hroom].
      * rewrite List.length_app in Hfull. simpl in Hfull.
        rewrite firstn_app_short by (rewrite List.length_app; simpl; lia).
        symmetry. apply List.firstn_all2. rewrite List.length_app. simpl. lia.
      * now apply IH.
    + now apply IH.
Qed.

Lemma parseAISuggestions_spec (text : string) :
  parseAISuggestions (Js.Text text) = List.firstn 3 (numbered_entries text).
Proof.
  unfold parseAISuggestions, numbered_entries. rewrite collect_spec by (simpl; lia).
  reflexivity.
Qed.

Lemma parseAISuggestions_length (response : Js.Str) :
  List.length (parseAISuggestions response) <= 3.
Proof.
  destruct response as [ | | text]; simpl; try lia.
  change (List.length (parseAISuggestions (Js.Text text)) <= 3).
  rewrite parseAISuggestions_spec, List.length_firstn. lia.
Qed.

(** Every entry comes from a non-blank line that opens with an
    ordinal marker; it is the captured text, trimmed and unquoted. *)
Lemma numbered_entries_origin (text s : string) :
  In s (numbered_entries text) ->
  exists line captured,
    In line (split_lines text) /\ nonblank line = true
    /\ leading_ordinal line = true
    /\ match_numbered line = Some captured
    /\ s = strip_quotes (trim captured).
Proof.
  unfold numbered_entries. intros Hs.
  apply list_elem_of_In in Hs. apply list_elem_of_omap in Hs as [line [Hline Hentry]].
  apply list_elem_of_In in Hline. apply List.filter_In in Hline as [Hin Hnb].
  unfold entry_of in Hentry.
  destruct (match_numbered line) as [captured | ] eqn:Hm; [ | discriminate].
  injection Hentry as <-.
  exists line, captured. pose proof (match_numbered_captures _ _ Hm) as [_ Hord].
  repeat split; auto.
Qed.

End ParserFacts.

Section GeneratorFacts.
Import Suggestions.

Implicit Types (c : list Entry) (k : string) (v : list string).

Lemma get_has k v c : get k c = Some v -> has k c = true.
Proof.
  unfold has. induction c as [ | [k' v'] r IH]; simpl; [discriminate | ].
  destruct (String.eqb k' k); simpl; auto.
Qed.

Lemma get_app_fresh k v c : ~ In k (keys c) -> get k (c ++ [(k, v)]) = Some v.
Proof.
  induction c as [ | [k' v'] r IH]; simpl; intros Hk.
  - now rewrite String.eqb_refl.
  - destruct (String.eqb_spec k' k) as [-> | _]; [tauto | ]. apply IH. tauto.
Qed.

(** Within the bound, what was just stored is what a lookup finds:
    the one eviction never removes the entry just written. *)
Lemma get_store k v c : List.length c <= cache_bound -> get k (store k v c) = Some v.
Proof.
  intros Hc. unfold store, cache_bound in *.
  destruct (Nat.ltb_spec 50 (List.length (set k v c))) as [Hover | _]; [ | apply get_set].
  destruct (has k c) eqn:Hhas.
  - apply has_keys in Hhas. rewrite (length_set_present k v c Hhas) in Hover. lia.
  - apply has_false_keys in Hhas. rewrite (set_fresh k v c Hhas) in *.
    destruct c as [ | [k0 v0] r]; [simpl in Hover; lia | ].
    change (first_key (((k0, v0) :: r) ++ [(k, v)])) with (Some k0). cbv beta iota.
    rewrite get_delete_ne.
    + now apply get_app_fresh.
    + intros ->. apply Hhas. simpl. now left.
Qed.

Lemma after_interleaving_bound (p : Provider) c :
  List.length c <= cache_bound -> List.length (after_interleaving p c) <= cache_bound.
Proof.
  intros Hc. unfold after_interleaving. now repeat apply apply_ops_bound.
Qed.

Lemma generations_snoc (l : list ProviderCall) (x : ProviderCall) (cache : list Entry) :
  generations (MkState cache (l ++ [x]))
  = generations (MkState cache l) + (if is_prompt x then 1 else 0).
Proof.
  unfold generations. simpl. rewrite List.filter_app, List.length_app. simpl.
  destruct (is_prompt x); reflexivity.
Qed.

Lemma reaches_prompt_inv (p : Provider) :
  reaches_prompt p = true ->
  capability p = true /\ availability p = Lifecycle.Reports "available" /\ create_ok p = true.
Proof.
  unfold reaches_prompt. intros H.
  apply andb_prop in H as [H Hcreate]. apply andb_prop in H as [Hcap Hav].
  destruct (availability p) as [value | ]; [ | discriminate].
  apply String.eqb_eq in Hav. subst. auto.
Qed.

(** On a miss with a provider that gets as far as the prompt, the
    call unfolds to its last step. *)
Lemma generate_on_miss (p : Provider) (content title : string) (st : State)
    (response : Js.Str) :
  has (simpleHash (content +:+ title)) (suggestionCache st) = false ->
  reaches_prompt p = true ->
  prompt_response p = Some response ->
  generateAISuggestions p content title st
  = let parsed := parseAISuggestions response in
    let others := after_interleaving p (suggestionCache st) in
    let log := calls st ++ [CallCreate; CallPrompt; CallDestroy] in
    if Nat.eqb (List.length parsed) 3
    then ((if destroy_throws p then getFallbackSuggestions else parsed),
          MkState (store (simpleHash (content +:+ title)) parsed others) log)
    else (getFallbackSuggestions, MkState others log).
Proof.
  intros Hmiss Hp Hresp. apply reaches_prompt_inv in Hp as (Hcap & Hav & Hcreate).
  unfold generateAISuggestions. rewrite Hmiss, Hcap, Hav, Hcreate, Hresp. simpl.
  unfold after_interleaving. rewrite <- !List.app_assoc. simpl.
  destruct (Nat.eqb (List.length (parseAISuggestions response)) 3); reflexivity.
Qed.

Lemma generate_on_miss_invokes (p : Provider) (content title : string) (st : State) :
  has (simpleHash (content +:+ title)) (suggestionCache st) = false ->
  reaches_prompt p = true ->
  generations (snd (generateAISuggestions p content title st)) = generations st + 1.
Proof.
  intros Hmiss Hp. destruct (prompt_response p) as [response | ] eqn:Hresp.
  - rewrite (generate_on_miss p content title st response Hmiss Hp Hresp). simpl.
    destruct (Nat.eqb _ 3); unfold generations; simpl;
      rewrite List.filter_app, List.length_app; reflexivity.
  - apply reaches_prompt_inv in Hp as (Hcap & Hav & Hcreate).
    unfold generateAISuggestions. rewrite Hmiss, Hcap, Hav, Hcreate, Hresp. simpl.
    unfold generations. simpl. rewrite !List.filter_app, !List.length_app. simpl. lia.
Qed.

Lemma generate_on_hit (p : Provider) (content title : string) (st : State) v :
  get (simpleHash (content +:+ title)) (suggestionCache st) = Some v ->
  generateAISuggestions p content title st = (v, st).
Proof.
  intros Hget. unfold generateAISuggestions.
  rewrite (get_has _ _ _ Hget), Hget. reflexivity.
Qed.

End GeneratorFacts.

(** ** The session coordinator *)

Section SessionLog.
Import Session.

Variable P : list Event -> Prop.
Hypothesis P_nil : P [].
Hypothesis P_app : forall l1 l2, P l1 -> P l2 -> P (l1 ++ l2).

Lemma grows_refl (st : State) : grows P st st.
Proof. exists []. split; [now rewrite List.app_nil_r | exact P_nil]. Qed.

Lemma grows_trans (st1 st2 st3 : State) : grows P st1 st2 -> grows P st2 st3 -> grows P st1 st3.
Proof.
  intros [n1 [H1 Hp1]] [n2 [H2 Hp2]]. exists (n1 ++ n2). split.
  - rewrite H2, H1. now rewrite List.app_assoc.
  - now apply P_app.
Qed.

Lemma grows_same_log (st st' : State) : log st' = log st -> grows P st st'.
Proof. intros H. exists []. split; [now rewrite List.app_nil_r | exact P_nil]. Qed.

Lemma grows_emit (e : Event) (st : State) : P [e] -> grows P st (emit e st).
Proof. intros He. exists [e]. split; [reflexivity | exact He]. Qed.

Lemma grows_fold {A : Type} (f : State -> A -> State) (l : list A) :
  (forall st a, In a l -> grows P st (f st a)) ->
  forall st, grows P st (List.fold_left f l st).
Proof.
  induction l as [ | a l IH]; intros Hf st; simpl; [apply grows_refl | ].
  eapply grows_trans; [apply Hf; now left | ].
  apply IH. intros st' a' Ha'. apply Hf. now right.
Qed.

End SessionLog.

(** A state invariant [T] on the session table and a log property [P]
    carried through the turns, the streaming loop and the whole [try]
    block, for turns that satisfy [ok]. *)
Section SessionSkeleton.
Import Session.

Variable T : State -> Prop.
Variable P : list Event -> Prop.
Variable ok : Turn -> bool.

Hypothesis P_nil : P [].
Hypothesis P_app : forall l1 l2, P l1 -> P l2 -> P (l1 ++ l2).
Hypothesis T_table : forall st st', activeSessions st' = activeSessions st -> T st -> T st'.
Hypothesis turn_ok : forall t st, ok t = true -> T st -> T (run_turn st t) /\ grows P st (run_turn st t).

Local Abbreviation carried := (Session.carried T P).

Lemma carried_refl (st : State) : T st -> carried st st.
Proof. intros HT. split; [exact HT | now apply grows_refl]. Qed.

Lemma carried_trans (st1 st2 st3 : State) : carried st1 st2 -> carried st2 st3 -> carried st1 st3.
Proof.
  intros [_ G1] [T3 G2]. split; [exact T3 | ]. eapply grows_trans; eauto.
Qed.

Lemma run_turns_carried (ts : list Turn) (st : State) :
  forallb ok ts = true -> T st -> carried st (run_turns ts st).
Proof.
  revert st. induction ts as [ | t ts IH]; intros st Hok HT; simpl.
  - now apply carried_refl.
  - simpl in Hok. apply andb_prop in Hok as [Ht Hts].
    destruct (turn_ok t st Ht HT) as [HT' G].
    eapply carried_trans; [split; eassumption | ]. now apply IH.
Qed.

Hypothesis P_streamed : forall sid c f d, P [Streamed sid c f d].

Lemma stream_loop_carried (sessionId : Js.Str) (todo : list Step) (full : string) (st : State) :
  forallb ok (List.concat (List.map before todo)) = true -> T st ->
  carried st (snd (stream_loop sessionId todo full st)).
Proof.
  revert full st. induction todo as [ | step rest IH]; intros full st Hok HT.
  - now apply carried_refl.
  - simpl in Hok. rewrite List.forallb_app in Hok. apply andb_prop in Hok as [Hstep Hrest].
    pose proof (run_turns_carried (before step) st Hstep HT) as Hturns.
    cbn [stream_loop].
    set (st1 := run_turns (before step) st) in *.
    destruct (Js.truthy sessionId && negb (has_session sessionId st1)); [exact Hturns | ].
    destruct (negb (connected st1)).
    + eapply carried_trans; [exact Hturns | ]. apply IH; [exact Hrest | apply Hturns].
    + eapply carried_trans; [exact Hturns | ].
      eapply carried_trans; [ | apply IH; [exact Hrest | ] ].
      * split; [ | apply grows_emit; auto]. eapply T_table; [ | apply Hturns]. reflexivity.
      * eapply T_table; [ | apply Hturns]. reflexivity.
Qed.

Lemma streamResponse_carried (p : Provider) (sessionId : Js.Str) (st : State) :
  forallb ok (List.concat (List.map before (steps p)) ++ before_end p ++ during_fallback p) = true ->
  T st -> carried st (snd (streamResponse p sessionId st)).
Proof.
  intros Hok HT. rewrite !List.forallb_app in Hok.
  apply andb_prop in Hok as [Hsteps Hok]. apply andb_prop in Hok as [Hend Hfb].
  unfold streamResponse.
  pose proof (stream_loop_carried sessionId (steps p) EmptyString st Hsteps HT) as Hloop.
  destruct (stream_loop sessionId (steps p) EmptyString st) as [[broke full] st1].
  simpl in Hloop. destruct broke; [exact Hloop | ].
  pose proof (run_turns_carried (before_end p) st1 Hend (proj1 Hloop)) as Hend'.
  destruct (ending p); simpl.
  - eapply carried_trans; eauto.
  - eapply carried_trans; [exact Hloop | ]. eapply carried_trans; [exact Hend' | ].
    apply run_turns_carried; [exact Hfb | apply Hend'].
Qed.

(** The [try] block, when it ends holding a session: the session is
    the created one and was registered on the way. *)
Lemma attempt_carried (p : Provider) (sessionId : Js.Str) (st : State) (h : Handle) :
  (forall hd e, download p = DownloadCompleted hd e -> P [Destroyed hd]) ->
  (forall st0, T st0 -> T (register sessionId h st0)) ->
  forallb ok (schedule p) = true -> T st ->
  snd (fst (attempt p sessionId st)) = Some h ->
  created p = inr h /\ carried st (snd (attempt p sessionId st)).
Proof.
  intros P_download Hreg Hok HT. unfold schedule in Hok. rewrite List.forallb_app in Hok.
  apply andb_prop in Hok as [Hpre Hrest].
  unfold attempt. destruct (capability p); simpl; [ | discriminate].
  pose proof (run_turns_carried (before_register p) st Hpre HT) as Hturns.
  set (st0 := run_turns (before_register p) st) in *.
  destruct (availability p) as [value | message]; [ | discriminate].
  destruct (String.eqb value "unavailable"); [discriminate | ].
  assert (Hdl : forall m st1,
            (if String.eqb value "downloadable" || String.eqb value "downloading"
             then handleModelDownload p value st0 else (None, st0)) = (m, st1) ->
            carried st0 st1).
  { intros m st1. destruct (String.eqb value "downloadable" || String.eqb value "downloading").
    - unfold handleModelDownload. destruct (String.eqb value "downloadable").
      + destruct (download p) as [hd [e | ] | msg] eqn:Hd; intros [= <- <-].
        * split; [ | apply grows_emit; eauto]. eapply T_table; [ | apply Hturns]. reflexivity.
        * split; [ | apply grows_emit; eauto]. eapply T_table; [ | apply Hturns]. reflexivity.
        * apply carried_refl, Hturns.
      + destruct (String.eqb value "downloading"); intros [= <- <-]; apply carried_refl, Hturns.
    - intros [= <- <-]. apply carried_refl, Hturns. }
  destruct (if String.eqb value "downloadable" || String.eqb value "downloading"
            then handleModelDownload p value st0 else (None, st0)) as [[m | ] st1] eqn:Hd;
    [discriminate | ].
  specialize (Hdl None st1 eq_refl).
  destruct (params_failure p); [discriminate | ].
  destruct (created p) as [failure | session]; [discriminate | ].
  pose proof (streamResponse_carried p sessionId (register sessionId session st1) Hrest) as Hs.
  destruct (streamResponse p sessionId (register sessionId session st1)) as [result st2].
  simpl. intros [= ->]. split; [reflexivity | ].
  eapply carried_trans; [exact Hturns | ]. eapply carried_trans; [exact Hdl | ].
  assert (Hlog : log (register sessionId h st1) = log st1).
  { unfold register. destruct sessionId as [ | | s]; try reflexivity.
    destruct (Js.truthy (Js.Text s)); reflexivity. }
  specialize (Hs (Hreg st1 (proj1 Hdl))). simpl in Hs.
  destruct Hs as [HT2 [new [Hnew HP]]]. split; [exact HT2 | ].
  exists new. rewrite Hnew, Hlog. auto.
Qed.

End SessionSkeleton.

Section ReleaseFacts.
Import Session.

Lemma Js_eqb_eq (a b : Js.Str) : Js.eqb a b = true <-> a = b.
Proof.
  destruct a as [ | | s], b as [ | | t]; simpl; split; try congruence; try reflexivity.
  - intros H. apply String.eqb_eq in H. now subst.
  - intros [= ->]. apply String.eqb_refl.
Qed.

Lemma Js_eqb_refl (a : Js.Str) : Js.eqb a a = true.
Proof. now apply Js_eqb_eq. Qed.

Lemma destroys_app (h : Handle) (l1 l2 : list Event) :
  destroys h (l1 ++ l2) = destroys h l1 + destroys h l2.
Proof. unfold destroys. now rewrite List.filter_app, List.length_app. Qed.

Lemma cancel_hits_app (h : Handle) (l1 l2 : list Event) :
  cancel_hits h (l1 ++ l2) = cancel_hits h l1 + cancel_hits h l2.
Proof. unfold cancel_hits. now rewrite List.filter_app, List.length_app. Qed.

Lemma balanced_app (h : Handle) (l1 l2 : list Event) :
  balanced h l1 -> balanced h l2 -> balanced h (l1 ++ l2).
Proof. unfold balanced. rewrite destroys_app, cancel_hits_app. lia. Qed.

Lemma log_delete_session (sessionId : Js.Str) (st : State) :
  log (delete_session sessionId st) = log st.
Proof. destruct sessionId; reflexivity. Qed.

Lemma log_register (sessionId : Js.Str) (h : Handle) (st : State) :
  log (register sessionId h st) = log st.
Proof.
  unfold register. destruct sessionId as [ | | s]; try reflexivity.
  destruct (Js.truthy (Js.Text s)); reflexivity.
Qed.

(** What one [cancelSession] call appends to the log. *)
Lemma log_cancelSession (sessionId : Js.Str) (throws : bool) (st : State) :
  log (snd (cancelSession sessionId throws st))
  = log st ++ match lookup_session sessionId st with
              | Some h => [Destroyed h; CancelReturned sessionId (Some h) (negb throws)]
              | None => [CancelReturned sessionId None false]
              end.
Proof.
  unfold cancelSession. destruct (lookup_session sessionId st) as [h | ]; [ | reflexivity].
  destruct throws; simpl; rewrite ?log_delete_session; simpl;
    now rewrite <- List.app_assoc.
Qed.

(** What the [finally] block appends to the log. *)
Lemma log_cleanup (session : option Handle) (sessionId : Js.Str) (st : State) :
  log (cleanup session sessionId st)
  = log st ++ match session with Some h => [Destroyed h] | None => [] end.
Proof.
  unfold cleanup.
  destruct session as [h | ]; simpl;
    match goal with |- context [if ?b then _ else _] => destruct b end;
    rewrite ?log_delete_session; simpl; now rewrite ?List.app_nil_r.
Qed.

Lemma turn_balanced (h : Handle) (t : Turn) (st : State) :
  mentions h t = false -> grows (balanced h) st (run_turn st t).
Proof.
  intros Hm. destruct t as [s thr | s h' | s [h' | ] | port | port]; simpl.
  - eexists. split; [apply log_cancelSession | ].
    destruct (lookup_session s st) as [h' | ]; unfold balanced, destroys, cancel_hits; simpl;
      [destruct (Nat.eqb h' h) | ]; reflexivity.
  - exists []. rewrite log_register, List.app_nil_r. split; reflexivity.
  - eexists. split; [apply log_cleanup | ]. simpl in Hm.
    unfold balanced, destroys, cancel_hits. simpl. now rewrite Hm.
  - eexists. split; [apply log_cleanup | ]. reflexivity.
  - exists []. simpl. rewrite List.app_nil_r. split; reflexivity.
  - exists []. simpl. rewrite List.app_nil_r. split; reflexivity.
Qed.

Lemma only_under_delete (sessionId other : Js.Str) (h : Handle) (st : State) :
  only_under sessionId h st -> only_under sessionId h (delete_session other st).
Proof.
  intros HT. destruct other as [ | | s]; simpl; auto.
  intros k Hk. simpl in Hk. apply lookup_delete_Some in Hk as [_ Hk]. now apply HT.
Qed.

Lemma only_under_register_other (sessionId other : Js.Str) (h h' : Handle) (st : State) :
  h' <> h -> only_under sessionId h st -> only_under sessionId h (register other h' st).
Proof.
  intros Hne HT. unfold register. destruct other as [ | | s]; auto.
  destruct (Js.truthy (Js.Text s)); auto.
  intros k Hk. simpl in Hk. destruct (decide (s = k)) as [-> | Hsk].
  - rewrite lookup_insert_eq in Hk. congruence.
  - rewrite lookup_insert_ne in Hk by exact Hsk. now apply HT.
Qed.

Lemma only_under_register_own (sessionId : Js.Str) (h : Handle) (st : State) :
  only_under sessionId h st -> only_under sessionId h (register sessionId h st).
Proof.
  intros HT. unfold register. destruct sessionId as [ | | s]; auto.
  destruct (Js.truthy (Js.Text s)); auto.
  intros k Hk. simpl in Hk. destruct (decide (s = k)) as [-> | Hsk]; [reflexivity | ].
  rewrite lookup_insert_ne in Hk by exact Hsk. now apply HT.
Qed.

Lemma only_under_cleanup (sessionId other : Js.Str) (o : option Handle) (h : Handle) (st : State) :
  only_under sessionId h st -> only_under sessionId h (cleanup o other st).
Proof.
  intros HT. unfold cleanup.
  match goal with |- context [if ?b then _ else _] => destruct b end.
  - apply only_under_delete. destruct o; exact HT.
  - destruct o; exact HT.
Qed.

(** A turn that neither carries [h] nor cancels the request's id finds
    no session [h] to cancel. *)
Lemma turn_misses (sessionId : Js.Str) (h : Handle) (t : Turn) (st : State) :
  negb (mentions h t) && negb (cancels sessionId t) = true ->
  only_under sessionId h st ->
  only_under sessionId h (run_turn st t)
  /\ grows (fun l => cancel_hits h l = 0) st (run_turn st t).
Proof.
  intros Hok HT. apply andb_prop in Hok as [Hm Hc].
  apply negb_true_iff in Hm. apply negb_true_iff in Hc.
  destruct t as [s thr | s h' | s o | port | port]; simpl in *.
  - split.
    + unfold cancelSession. destruct (lookup_session s st); [ | exact HT].
      destruct thr; simpl; [exact HT | ]. now apply (only_under_delete sessionId s h).
    + eexists. split; [apply log_cancelSession | ].
      destruct (lookup_session s st) as [h' | ] eqn:Hl; [ | reflexivity].
      unfold cancel_hits. simpl. destruct (Nat.eqb_spec h' h) as [-> | ]; [ | reflexivity].
      exfalso. destruct s as [ | | k]; simpl in Hl; try discriminate.
      apply HT in Hl. subst sessionId. simpl in Hc. now rewrite String.eqb_refl in Hc.
  - split.
    + apply only_under_register_other; [ | exact HT]. now apply Nat.eqb_neq.
    + exists []. rewrite log_register, List.app_nil_r. split; reflexivity.
  - split; [now apply only_under_cleanup | ].
    eexists. split; [apply log_cleanup | ]. destruct o; reflexivity.
  - split; [exact HT | ]. exists []. simpl. rewrite List.app_nil_r. split; reflexivity.
  - split; [exact HT | ]. exists []. simpl. rewrite List.app_nil_r. split; reflexivity.
Qed.

Lemma forallb_and {A : Type} (f g : A -> bool) (l : list A) :
  forallb f l = true -> forallb g l = true -> forallb (fun x => f x && g x) l = true.
Proof.
  intros Hf Hg. apply List.forallb_forall. intros x Hx.
  rewrite List.forallb_forall in Hf, Hg. now rewrite Hf, Hg.
Qed.

End ReleaseFacts.

(** C1, the claim as stated fails. A session streams three chunks and
    is then cancelled: [cancelSession] destroys the session and returns
    true, the loop stops at the fourth chunk, and the [finally] block
    of [handlePromptAPI] destroys the same session again. The handle is
    released twice, not once. *)
Lemma cancel_then_cleanup_destroys_twice :
  let r := Session.handlePromptAPI Scenarios.cancelled_after_three (Js.Text "s") Scenarios.idle in
  fst r = Session.Ok "abc"
  /\ Session.log (snd r)
     = [ Session.Streamed (Js.Text "s") "a" "a" true;
         Session.Streamed (Js.Text "s") "b" "ab" true;
         Session.Streamed (Js.Text "s") "c" "abc" true;
         Session.Destroyed 7;
         Session.CancelReturned (Js.Text "s") (Some 7) true;
         Session.Destroyed 7 ]
  /\ Session.destroys 7 (Session.log (snd r)) = 2
  /\ Session.destroys 7 (Session.log (snd r)) <> 1.
Proof. vm_compute. repeat split; congruence. Qed.

(** C1, amended. Once the provider session [h] has been created, the
    cleanup of [handlePromptAPI] invokes its destroy exactly once on
    every path (completion, error, or a stream stopped by a cancel),
    and every [cancelSession] call that finds [h] in the table invokes
    it once more: the number of invocations is one plus the number of
    such calls. So the handle is released exactly once when no
    [cancelSession] for the request's id runs during the request. *)
Theorem handle_destroyed_by_cleanup_and_by_each_cancel
    (p : Session.Provider) (sessionId : Js.Str) (st : Session.State) (h : Session.Handle) :
  snd (fst (Session.attempt p sessionId st)) = Some h ->
  Session.own_handle h p st ->
  exists new,
    Session.log (snd (Session.handlePromptAPI p sessionId st)) = Session.log st ++ new
    /\ 1 <= Session.destroys h new
    /\ Session.destroys h new = 1 + Session.cancel_hits h new
    /\ (forallb (fun t => negb (Session.cancels sessionId t)) (Session.schedule p) = true ->
        Session.destroys h new = 1).
Proof.
  intros Hsession (Hfree & Hturns & Hdl).
  (* every destroy of [h] before the cleanup belongs to a cancel *)
  destruct (attempt_carried (fun _ => True) (Session.balanced h)
              (fun t => negb (Session.mentions h t))
              eq_refl (balanced_app h) (fun _ _ _ _ => I)
              (fun t st0 Hok _ => conj I (turn_balanced h t st0 (proj1 (negb_true_iff _) Hok)))
              (fun _ _ _ _ => eq_refl)
              p sessionId st h) as [_ [_ [new [Hnew Hbal]]]]; auto.
  { intros hd e Hhd. unfold Session.balanced, Session.destroys, Session.cancel_hits. simpl.
    destruct (Nat.eqb_spec hd h) as [-> | ]; [now apply Hdl in Hhd | reflexivity]. }
  unfold Session.handlePromptAPI.
  destruct (Session.attempt p sessionId st) as [[result session] st1] eqn:Hattempt.
  simpl in Hsession, Hnew. subst session. simpl.
  exists (new ++ [Session.Destroyed h]).
  assert (Hone : Session.destroys h [Session.Destroyed h] = 1).
  { unfold Session.destroys. simpl. now rewrite Nat.eqb_refl. }
  rewrite log_cleanup, Hnew, <- List.app_assoc, destroys_app, cancel_hits_app, Hone.
  unfold Session.balanced in Hbal. rewrite Hbal.
  change (Session.cancel_hits h [Session.Destroyed h]) with 0.
  split; [reflexivity | ]. split; [lia | ]. split; [lia | ].
  intros Hquiet.
  (* without a cancel for the id, no cancel finds [h] *)
  destruct (attempt_carried (Session.only_under sessionId h) (fun l => Session.cancel_hits h l = 0)
              (fun t => negb (Session.mentions h t) && negb (Session.cancels sessionId t))
              eq_refl
              (fun l1 l2 H1 H2 => eq_trans (cancel_hits_app h l1 l2)
                                    (f_equal2 Nat.add H1 H2))
              (fun st1 st2 Heq HT k Hk => HT k (eq_ind _ (fun m => m !! k = Some h) Hk _ Heq))
              (turn_misses sessionId h)
              (fun _ _ _ _ => eq_refl)
              p sessionId st h) as [_ [_ [new' [Hnew' Hzero]]]]; auto.
  - intros st0. apply only_under_register_own.
  - now apply forallb_and.
  - intros k Hk. now apply Hfree in Hk.
  - rewrite Hattempt. reflexivity.
  - rewrite Hattempt in Hnew'. simpl in Hnew'. rewrite Hnew in Hnew'.
    apply List.app_inv_head in Hnew'. subst new'. lia.
Qed.

Section DuplicateFacts.
Import Session.

Lemma string_app_assoc (a b c : string) : (a +:+ b) +:+ c = a +:+ (b +:+ c).
Proof.
  induction a as [ | x a IH]; [reflexivity | ].
  change (String x ((a +:+ b) +:+ c) = String x (a +:+ (b +:+ c))). now rewrite IH.
Qed.

Lemma string_app_nil_r (a : string) : a +:+ EmptyString = a.
Proof.
  induction a as [ | x a IH]; [reflexivity | ].
  change (String x (a +:+ EmptyString) = String x a). now rewrite IH.
Qed.

(** With no turn in between, a registered session streams to the end:
    the loop is not left by [break] and returns all chunks joined. *)
Lemma stream_loop_undisturbed (sessionId : Js.Str) (todo : list Step) (full : string) (st : State) :
  Forall (fun s => before s = []) todo ->
  has_session sessionId st = true ->
  fst (stream_loop sessionId todo full st) = (false, full +:+ joined todo).
Proof.
  revert full st. induction todo as [ | s rest IH]; intros full st Hq Hhas.
  - simpl. now rewrite string_app_nil_r.
  - inversion Hq as [ | ? ? Hs Hrest]; subst. cbn [stream_loop joined].
    rewrite Hs. simpl run_turns. rewrite Hhas, andb_false_r.
    rewrite <- string_app_assoc.
    destruct (negb (connected st)); apply IH; auto.
Qed.

Lemma has_session_register (sid : string) (h : Handle) (st : State) :
  sid <> EmptyString -> has_session (Js.Text sid) (register (Js.Text sid) h st) = true.
Proof.
  intros Hne. unfold register, has_session. simpl.
  destruct (String.eqb_spec sid EmptyString) as [ | _]; [contradiction | ].
  simpl. now rewrite lookup_insert_eq.
Qed.

(** With a ready provider the [try] block goes straight to the
    registration and the stream. *)
Lemma attempt_ready (p : Provider) (sessionId : Js.Str) (st : State) (h : Handle) :
  ready p h ->
  attempt p sessionId st
  = let st0 := run_turns (before_register p) st in
    let '(result, st2) := streamResponse p sessionId (register sessionId h st0) in
    (result, Some h, st2).
Proof.
  intros (Hcap & Hav & Hparams & Hcreated). unfold attempt.
  rewrite Hcap, Hav, Hparams, Hcreated. reflexivity.
Qed.

End DuplicateFacts.

(** C4, the claim as stated fails. The id [s] is active with session 1
    when a second request arrives under the same id with session 2:
    registering replaces the entry, the request streams and returns its
    text without any error, and a cancel for [s] now reaches session 2
    only. *)
Lemma duplicate_id_replaces_entry :
  Session.activeSessions Scenarios.busy !! "s" = Some 1
  /\ Session.activeSessions (Session.register (Js.Text "s") 2 Scenarios.busy) !! "s" = Some 2
  /\ fst (Session.handlePromptAPI Scenarios.duplicate_request (Js.Text "s") Scenarios.busy)
     = Session.Ok "a"
  /\ Session.log (snd (Session.handlePromptAPI Scenarios.duplicate_request (Js.Text "s")
                         Scenarios.busy))
     = [ Session.Streamed (Js.Text "s") "a" "a" true;
         Session.Destroyed 2;
         Session.CancelReturned (Js.Text "s") (Some 2) true;
         Session.Destroyed 2 ].
Proof. vm_compute. repeat split; reflexivity. Qed.

(** C4, amended. When a request supplies a session id that is already
    present in the active-session table, the new session is registered
    under that id all the same and replaces the prior entry; the
    duplicate raises no error: with a ready provider and no other turn
    in between, the request returns the whole streamed text. *)
Theorem duplicate_id_is_registered_over
    (p : Session.Provider) (sid : string) (h prior : Session.Handle) (st : Session.State) :
  sid <> EmptyString ->
  Session.activeSessions st !! sid = Some prior ->
  Session.ready p h ->
  Session.undisturbed p ->
  Session.activeSessions (Session.register (Js.Text sid) h st)
    = <[sid := h]> (Session.activeSessions st)
  /\ Session.lookup_session (Js.Text sid) (Session.register (Js.Text sid) h st) = Some h
  /\ fst (Session.handlePromptAPI p (Js.Text sid) st) = Session.Ok (Session.joined (Session.steps p)).
Proof.
  intros Hne Hprior (Hcap & Hav & Hparams & Hcreated) (Hpre & Hsteps & Hend & Hending).
  assert (Hreg : Session.register (Js.Text sid) h st
                 = Session.with_sessions (<[sid := h]> (Session.activeSessions st)) st).
  { unfold Session.register. simpl.
    destruct (String.eqb_spec sid EmptyString) as [ | _]; [contradiction | reflexivity]. }
  split; [now rewrite Hreg | ].
  split; [rewrite Hreg; simpl; apply lookup_insert_eq | ].
  unfold Session.handlePromptAPI.
  rewrite (attempt_ready p (Js.Text sid) st h) by (repeat split; assumption).
  rewrite Hpre. cbn [Session.run_turns List.fold_left]. cbv zeta.
  unfold Session.streamResponse.
  pose proof (stream_loop_undisturbed (Js.Text sid) (Session.steps p) EmptyString
                (Session.register (Js.Text sid) h st) Hsteps
                (has_session_register sid h st Hne)) as Hloop.
  destruct (Session.stream_loop (Js.Text sid) (Session.steps p) EmptyString
              (Session.register (Js.Text sid) h st)) as [[broke full] st1].
  simpl in Hloop. injection Hloop as -> ->.
  rewrite Hend, Hending. reflexivity.
Qed.

Section StreamOrderFacts.
Import Session.

Variable sessionId : Js.Str.

Local Abbreviation responses := (fun st : State => delivered_responses sessionId (log st)).

Lemma delivered_responses_app (l1 l2 : list Event) :
  delivered_responses sessionId (l1 ++ l2)
  = delivered_responses sessionId l1 ++ delivered_responses sessionId l2.
Proof.
  induction l1 as [ | e l1 IH]; [reflexivity | ].
  destruct e as [h | sid c f [ | ] | sid found b]; simpl; auto.
  destruct (Js.eqb sid sessionId); simpl; now rewrite IH.
Qed.

Lemma responses_turn (t : Turn) (st : State) : responses (run_turn st t) = responses st.
Proof.
  destruct t as [s thr | s h' | s o | port | port]; simpl; try reflexivity.
  - rewrite log_cancelSession, delivered_responses_app.
    destruct (lookup_session s st); simpl; now rewrite List.app_nil_r.
  - now rewrite log_register.
  - rewrite log_cleanup, delivered_responses_app.
    destruct o; simpl; now rewrite List.app_nil_r.
Qed.

Lemma responses_turns (ts : list Turn) (st : State) : responses (run_turns ts st) = responses st.
Proof.
  revert st. induction ts as [ | t ts IH]; intros st; simpl; [reflexivity | ].
  unfold run_turns in IH. rewrite IH. apply responses_turn.
Qed.

Lemma joined_app (l1 l2 : list Step) : joined (l1 ++ l2) = joined l1 +:+ joined l2.
Proof.
  induction l1 as [ | s l1 IH]; [reflexivity | ].
  simpl. rewrite IH. symmetry. apply string_app_assoc.
Qed.

Lemma extends_refl (a : string) : extends a a.
Proof. exists EmptyString. symmetry. apply string_app_nil_r. Qed.

Lemma extends_trans (a b c : string) : extends a b -> extends b c -> extends a c.
Proof.
  intros [m1 ->] [m2 ->]. exists (m1 +:+ m2). apply string_app_assoc.
Qed.

Lemma extends_app (a more : string) : extends a (a +:+ more).
Proof. now exists more. Qed.

Lemma string_app_nonempty_r (a b : string) : b <> EmptyString -> a +:+ b <> EmptyString.
Proof.
  destruct a as [ | x a]; [now simpl | ]. intros _ H. discriminate H.
Qed.

Lemma extends_strictly (a b c : string) : extends a b -> strictly_extends b c -> strictly_extends a c.
Proof.
  intros [m1 ->] [m2 [Hne ->]]. exists (m1 +:+ m2). split.
  - now apply string_app_nonempty_r.
  - apply string_app_assoc.
Qed.

Lemma stream_loop_responses (done todo : list Step) (st : State) :
  exists rs,
    responses (snd (stream_loop sessionId todo (joined done) st)) = responses st ++ rs
    /\ ordered_from (done ++ todo) (joined done) rs
    /\ (Forall (fun s => chunk s <> EmptyString) todo -> strictly_ordered_from (joined done) rs).
Proof.
  revert done st. induction todo as [ | step rest IH]; intros done st.
  - exists []. simpl. rewrite List.app_nil_r.
    repeat split; constructor.
  - cbn [stream_loop].
    set (st1 := run_turns (before step) st).
    assert (Hst1 : responses st1 = responses st) by apply responses_turns.
    assert (Hjoin : joined done +:+ chunk step = joined (done ++ [step])).
    { rewrite joined_app. simpl. now rewrite string_app_nil_r. }
    assert (Hall : (done ++ [step]) ++ rest = done ++ step :: rest)
      by (now rewrite <- List.app_assoc).
    destruct (Js.truthy sessionId && negb (has_session sessionId st1)).
    + exists []. simpl. rewrite List.app_nil_r. split; [exact Hst1 | ].
      repeat split; constructor.
    + rewrite Hjoin.
      destruct (negb (connected st1)).
      * destruct (IH (done ++ [step]) st1) as (rs & Hrs & (Hs & Hf & Hn) & Hstrict).
        exists rs. rewrite Hrs, Hst1, Hall in *. split; [reflexivity | ].
        split; [repeat split; auto | ].
        -- eapply List.Forall_impl; [ | exact Hf]. intros r Hr. simpl in Hr.
           eapply extends_trans; [ | exact Hr]. rewrite <- Hjoin. apply extends_app.
        -- intros Hne. inversion Hne as [ | ? ? Hc Hrest]; subst.
           destruct (Hstrict Hrest) as [Hss Hsf]. split; [exact Hss | ].
           eapply List.Forall_impl; [ | exact Hsf]. intros r Hr. simpl in Hr.
           eapply extends_strictly; [ | exact Hr]. rewrite <- Hjoin. apply extends_app.
      * set (st2 := emit (Streamed sessionId (chunk step) (joined (done ++ [step]))
                            (delivered step)) st1).
        destruct (IH (done ++ [step]) st2) as (rs & Hrs & (Hs & Hf & Hn) & Hstrict).
        assert (Hst2 : responses st2
                       = responses st ++ (if delivered step then [joined (done ++ [step])] else [])).
        { subst st2. simpl. rewrite delivered_responses_app. rewrite <- Hst1.
          simpl. destruct (delivered step); [ | reflexivity].
          now rewrite Js_eqb_refl. }
        assert (Hext : extends (joined done) (joined (done ++ [step])))
          by (rewrite <- Hjoin; apply extends_app).
        exists ((if delivered step then [joined (done ++ [step])] else []) ++ rs).
        rewrite Hrs, Hst2, Hall in *. rewrite <- List.app_assoc. split; [reflexivity | ].
        split.
        -- destruct (delivered step); simpl.
           ++ repeat split.
              ** constructor; [exact Hs | exact Hf].
              ** constructor; [exact Hext | ].
                 eapply List.Forall_impl; [ | exact Hf]. intros r Hr. simpl in Hr.
                 eapply extends_trans; eauto.
              ** constructor; [ | exact Hn].
                 exists (List.length (done ++ [step])).
                 now rewrite <- Hall, List.firstn_app, List.firstn_all, Nat.sub_diag, List.app_nil_r.
           ++ repeat split; auto.
              eapply List.Forall_impl; [ | exact Hf]. intros r Hr. simpl in Hr.
              eapply extends_trans; eauto.
        -- intros Hne. inversion Hne as [ | ? ? Hc Hrest]; subst.
           destruct (Hstrict Hrest) as [Hss Hsf].
           assert (Hsext : Forall (strictly_extends (joined done)) rs).
           { eapply List.Forall_impl; [ | exact Hsf]. intros r Hr. simpl in Hr.
             eapply extends_strictly; eauto. }
           destruct (delivered step); simpl; split; auto.
           ++ constructor; [exact Hss | exact Hsf].
           ++ constructor; [ | exact Hsext].
              exists (chunk step). split; [exact Hc | now rewrite Hjoin].
Qed.

End StreamOrderFacts.

Section RequestOrderFacts.
Import Session.

Variable sessionId : Js.Str.

Local Abbreviation responses := (fun st : State => delivered_responses sessionId (log st)).

Local Abbreviation outcome := (fun (p : Provider) (st st' : State) =>
  exists rs, responses st' = responses st ++ rs
             /\ ordered_from (steps p) EmptyString rs
             /\ (Forall (fun s => chunk s <> EmptyString) (steps p) ->
                 strictly_ordered_from EmptyString rs)).

Lemma outcome_silent (p : Provider) (st st' : State) :
  responses st' = responses st -> outcome p st st'.
Proof.
  intros H. exists []. rewrite List.app_nil_r. split; [exact H | ].
  repeat split; constructor.
Qed.

Lemma streamResponse_responses (p : Provider) (st : State) :
  outcome p st (snd (streamResponse p sessionId st)).
Proof.
  unfold streamResponse.
  destruct (stream_loop_responses sessionId [] (steps p) st) as (rs & Hrs & Hord & Hstrict).
  simpl in Hrs, Hord, Hstrict.
  destruct (stream_loop sessionId (steps p) EmptyString st) as [[broke full] st1].
  simpl in Hrs. exists rs. split; [ | split; assumption].
  destruct broke; [exact Hrs | ].
  destruct (ending p); simpl; rewrite ?(responses_turns sessionId); exact Hrs.
Qed.

Lemma attempt_responses (p : Provider) (st : State) :
  outcome p st (snd (attempt p sessionId st)).
Proof.
  unfold attempt. destruct (capability p); simpl; [ | now apply outcome_silent].
  set (st0 := run_turns (before_register p) st).
  assert (H0 : responses st0 = responses st) by apply responses_turns.
  destruct (availability p) as [value | message]; [ | now apply outcome_silent].
  destruct (String.eqb value "unavailable"); [now apply outcome_silent | ].
  assert (Hdl : forall m st1,
            (if String.eqb value "downloadable" || String.eqb value "downloading"
             then handleModelDownload p value st0 else (None, st0)) = (m, st1) ->
            responses st1 = responses st).
  { intros m st1. destruct (String.eqb value "downloadable" || String.eqb value "downloading").
    - unfold handleModelDownload. destruct (String.eqb value "downloadable").
      + destruct (download p) as [hd [e | ] | msg]; intros [= <- <-]; [ | | exact H0];
          simpl; rewrite delivered_responses_app; simpl; now rewrite List.app_nil_r.
      + destruct (String.eqb value "downloading"); intros [= <- <-]; exact H0.
    - intros [= <- <-]. exact H0. }
  destruct (if String.eqb value "downloadable" || String.eqb value "downloading"
            then handleModelDownload p value st0 else (None, st0)) as [[m | ] st1] eqn:Hd;
    specialize (Hdl _ _ eq_refl); [now apply outcome_silent | ].
  destruct (params_failure p); [now apply outcome_silent | ].
  destruct (created p) as [failure | session]; [now apply outcome_silent | ].
  pose proof (streamResponse_responses p (register sessionId session st1)) as Hs.
  destruct (streamResponse p sessionId (register sessionId session st1)) as [result st2].
  simpl in *. rewrite log_register, Hdl in Hs. exact Hs.
Qed.

Lemma handlePromptAPI_responses (p : Provider) (st : State) :
  outcome p st (snd (handlePromptAPI p sessionId st)).
Proof.
  unfold handlePromptAPI. pose proof (attempt_responses p st) as Ha.
  destruct (attempt p sessionId st) as [[result session] st1]. simpl in *.
  rewrite log_cleanup, delivered_responses_app.
  destruct session; simpl; rewrite List.app_nil_r; exact Ha.
Qed.

End RequestOrderFacts.

(** C7, the claim as stated fails: when the provider yields an empty
    chunk, the message sent for it carries the same [fullResponse] as
    the one before, which is no strict extension. *)
Lemma empty_chunk_repeats_response :
  Session.delivered_responses (Js.Text "s")
    (Session.log (snd (Session.handlePromptAPI Scenarios.empty_chunk (Js.Text "s")
                         Scenarios.idle)))
  = ["a"; "a"]
  /\ ~ Session.strictly_extends "a" "a".
Proof.
  split; [vm_compute; reflexivity | ].
  intros [more [Hne H]]. apply Hne.
  change ("a" +:+ more) with (String "a" more) in H. now injection H as <-.
Qed.

(** C7, amended. The [fullResponse] values of the messages delivered
    for a request's session id during the request form a chain of
    prefix extensions: each one is every earlier one followed by more
    text, and each is the chunks of the first steps of the stream,
    joined in emission order. The extension is strict when no chunk of
    the stream is empty. *)
Theorem delivered_responses_extend_by_appending
    (p : Session.Provider) (sessionId : Js.Str) (st : Session.State) :
  exists rs,
    Session.delivered_responses sessionId
      (Session.log (snd (Session.handlePromptAPI p sessionId st)))
    = Session.delivered_responses sessionId (Session.log st) ++ rs
    /\ StronglySorted Session.extends rs
    /\ Forall (fun r => exists n, r = Session.joined (List.firstn n (Session.steps p))) rs
    /\ (Forall (fun s => Session.chunk s <> EmptyString) (Session.steps p) ->
        StronglySorted Session.strictly_extends rs).
Proof.
  destruct (handlePromptAPI_responses sessionId p st) as (rs & Hrs & (Hs & _ & Hn) & Hstrict).
  exists rs. repeat split; auto.
  intros Hne. now destruct (Hstrict Hne).
Qed.

Section CancellationFacts.
Import Session.

Variable sessionId : Js.Str.

Local Abbreviation silent := (Forall (fun e => is_stream_for sessionId e = false)).

Lemma cancelled_app (l1 l2 : list Event) :
  cancelled sessionId (l1 ++ l2) = cancelled sessionId l1 || cancelled sessionId l2.
Proof. apply List.existsb_app. Qed.

Lemma cancelled_In (l1 l2 : list Event) (found : option Handle) :
  cancelled sessionId (l1 ++ CancelReturned sessionId found true :: l2) = true.
Proof.
  rewrite cancelled_app. simpl. rewrite Js_eqb_refl. simpl. apply orb_true_r.
Qed.

Lemma quiet_nil : quiet_after_cancel sessionId [].
Proof. intros [ | e l1] found l2 H; discriminate H. Qed.

(** Events that are no stream messages keep a log quiet. *)
Lemma quiet_app_silent (l ev : list Event) :
  quiet_after_cancel sessionId l -> silent ev -> quiet_after_cancel sessionId (l ++ ev).
Proof.
  intros Hq Hev l1 found l2 Heq.
  apply List.app_eq_app in Heq as [l' [[Hl Hc] | [Hl Hc]]].
  - destruct l' as [ | e l'']; simpl in Hc.
    + rewrite <- Hc in Hev. now inversion Hev.
    + injection Hc as <- ->. apply Forall_app. split; [ | exact Hev].
      now apply (Hq l1 found l'').
  - rewrite Hc in Hev. apply Forall_app in Hev as [_ Hev]. now inversion Hev.
Qed.

(** A stream message keeps a log quiet when no cancel has succeeded. *)
Lemma quiet_snoc_uncancelled (l : list Event) (e : Event) :
  quiet_after_cancel sessionId l -> cancelled sessionId l = false ->
  quiet_after_cancel sessionId (l ++ [e]).
Proof.
  intros Hq Hc l1 found l2 Heq.
  apply List.app_eq_app in Heq as [l' [[Hl Hcons] | [Hl Hcons]]].
  - destruct l' as [ | e' l'']; simpl in Hcons.
    + injection Hcons as _ ->. constructor.
    + injection Hcons as <- _. rewrite Hl, cancelled_In in Hc. discriminate.
  - destruct l' as [ | e' l'']; simpl in Hcons.
    + injection Hcons as _ <-. constructor.
    + injection Hcons as _ Hnil. now destruct l''.
Qed.

(** Earlier events without a successful cancel keep a quiet log quiet. *)
Lemma quiet_after_uncancelled (pre post : list Event) :
  cancelled sessionId pre = false -> quiet_after_cancel sessionId post ->
  quiet_after_cancel sessionId (pre ++ post).
Proof.
  intros Hc Hq l1 found l2 Heq. symmetry in Heq.
  apply List.app_eq_app in Heq as [l' [[Hl Hcons] | [Hl Hcons]]].
  - now apply (Hq l' found l2).
  - destruct l' as [ | e' l'']; simpl in Hcons.
    + rewrite List.app_nil_r in Hl. subst l1. now apply (Hq [] found l2).
    + injection Hcons as <- _. rewrite Hl, cancelled_In in Hc. discriminate.
Qed.

Lemma has_session_delete_same (st : State) :
  has_session sessionId (delete_session sessionId st) = false.
Proof.
  unfold has_session. destruct sessionId as [ | | s]; try reflexivity.
  simpl. now rewrite lookup_delete_eq.
Qed.

Lemma has_session_delete_other (s : Js.Str) (st : State) :
  Js.eqb s sessionId = false ->
  has_session sessionId (delete_session s st) = has_session sessionId st.
Proof.
  intros Hne. unfold has_session.
  destruct s as [ | | k]; try reflexivity. destruct sessionId as [ | | k']; try reflexivity.
  simpl in *. rewrite lookup_delete_ne; [reflexivity | ].
  intros ->. now rewrite String.eqb_refl in Hne.
Qed.

Lemma has_session_delete_false (s : Js.Str) (st : State) :
  has_session sessionId st = false -> has_session sessionId (delete_session s st) = false.
Proof.
  intros H. destruct (Js.eqb s sessionId) eqn:Hs.
  - apply Js_eqb_eq in Hs. subst s. apply has_session_delete_same.
  - now rewrite has_session_delete_other.
Qed.

Lemma has_session_register_other (s : Js.Str) (h : Handle) (st : State) :
  Js.eqb s sessionId = false ->
  has_session sessionId (register s h st) = has_session sessionId st.
Proof.
  intros Hne. unfold register. destruct s as [ | | k]; try reflexivity.
  destruct (Js.truthy (Js.Text k)); [ | reflexivity].
  unfold has_session. destruct sessionId as [ | | k']; try reflexivity.
  simpl in *. rewrite lookup_insert_ne; [reflexivity | ].
  intros ->. now rewrite String.eqb_refl in Hne.
Qed.

Lemma has_session_cleanup_false (o : option Handle) (s : Js.Str) (st : State) :
  has_session sessionId st = false -> has_session sessionId (cleanup o s st) = false.
Proof.
  intros H. unfold cleanup.
  match goal with |- context [if ?b then _ else _] => destruct b end.
  - apply has_session_delete_false. destruct o; exact H.
  - destruct o; exact H.
Qed.

(** What a turn appends and what it does to the request's id, for a
    turn that does not register that id. *)
Lemma turn_effect (t : Turn) (st : State) :
  registers sessionId t = false ->
  exists ev,
    log (run_turn st t) = log st ++ ev
    /\ silent ev
    /\ (has_session sessionId st = false -> has_session sessionId (run_turn st t) = false)
    /\ (cancelled sessionId ev = true ->
        has_session sessionId st = true /\ has_session sessionId (run_turn st t) = false).
Proof.
  intros Hreg. destruct t as [s thr | s h' | s o | port | port]; simpl in *.
  - eexists. split; [apply log_cancelSession | ].
    unfold cancelSession, has_session at 1 3.
    destruct (lookup_session s st) as [h' | ] eqn:Hl.
    + split; [repeat constructor | ]. split.
      * destruct thr; simpl; auto.
        intros H. now apply (has_session_delete_false s (emit (Destroyed h') st)).
      * simpl. rewrite orb_false_r. destruct thr; simpl; [discriminate | ].
        intros Hs. apply Js_eqb_eq in Hs. subst s. rewrite Hl.
        split; [reflexivity | apply (has_session_delete_same (emit (Destroyed h') st))].
    + split; [repeat constructor | ]. split; [auto | discriminate].
  - exists []. rewrite log_register, List.app_nil_r. split; [reflexivity | ].
    split; [constructor | ]. split; [ | discriminate].
    now rewrite has_session_register_other.
  - eexists. split; [apply log_cleanup | ].
    split; [destruct o; repeat constructor | ].
    split; [apply has_session_cleanup_false | destruct o; discriminate].
  - exists []. simpl. rewrite List.app_nil_r. repeat split; auto; try constructor; discriminate.
  - exists []. simpl. rewrite List.app_nil_r. repeat split; auto; try constructor; discriminate.
Qed.

Lemma turn_before_registration (base : list Event) (t : Turn) (st : State) :
  registers sessionId t = false ->
  holds_since (before_registration sessionId) base st ->
  holds_since (before_registration sessionId) base (run_turn st t).
Proof.
  intros Hreg [new [Hlog [Hhas Hc]]].
  destruct (turn_effect t st Hreg) as (ev & Hev & _ & Hkeep & Hcancel).
  exists (new ++ ev). split; [now rewrite Hev, Hlog, List.app_assoc | ].
  split; [now apply Hkeep | ].
  rewrite cancelled_app, Hc. simpl.
  destruct (cancelled sessionId ev); [ | reflexivity].
  destruct (Hcancel eq_refl) as [Hwas _]. congruence.
Qed.

Lemma turn_after_registration (base : list Event) (t : Turn) (st : State) :
  registers sessionId t = false ->
  holds_since (after_registration sessionId) base st ->
  holds_since (after_registration sessionId) base (run_turn st t).
Proof.
  intros Hreg [new [Hlog (Hq & Hc & Hfalsy)]].
  destruct (turn_effect t st Hreg) as (ev & Hev & Hsilent & Hkeep & Hcancel).
  exists (new ++ ev). split; [now rewrite Hev, Hlog, List.app_assoc | ].
  split; [now apply quiet_app_silent | ]. split.
  - rewrite cancelled_app. intros H. apply orb_prop in H as [H | H].
    + apply Hkeep. now apply Hc.
    + now apply Hcancel.
  - intros Hf. destruct (Hfalsy Hf) as [Hhas Hcn]. split; [now apply Hkeep | ].
    rewrite cancelled_app, Hcn. simpl.
    destruct (cancelled sessionId ev); [ | reflexivity].
    destruct (Hcancel eq_refl) as [Hwas _]. congruence.
Qed.

Lemma turns_preserve (I : list Event -> State -> Prop) (base : list Event) :
  (forall t st, registers sessionId t = false ->
     holds_since I base st -> holds_since I base (run_turn st t)) ->
  forall ts st,
    forallb (fun t => negb (registers sessionId t)) ts = true ->
    holds_since I base st -> holds_since I base (run_turns ts st).
Proof.
  intros Hturn ts. induction ts as [ | t ts IH]; intros st Hok Hst; simpl; [exact Hst | ].
  simpl in Hok. apply andb_prop in Hok as [Ht Hts]. apply negb_true_iff in Ht.
  apply IH; [exact Hts | ]. now apply Hturn.
Qed.

End CancellationFacts.

Section CancelledStreamFacts.
Import Session.

Variable sessionId : Js.Str.

Local Abbreviation unregistered :=
  (forallb (fun t => negb (registers sessionId t))).

Lemma stream_loop_after_registration (base : list Event) (todo : list Step) (full : string)
    (st : State) :
  unregistered (List.concat (List.map before todo)) = true ->
  holds_since (after_registration sessionId) base st ->
  holds_since (after_registration sessionId) base (snd (stream_loop sessionId todo full st)).
Proof.
  revert full st. induction todo as [ | step rest IH]; intros full st Hok Hst; [exact Hst | ].
  simpl in Hok. rewrite List.forallb_app in Hok. apply andb_prop in Hok as [Hstep Hrest].
  cbn [stream_loop].
  pose proof (turns_preserve sessionId _ base (turn_after_registration sessionId base)
                (before step) st Hstep Hst) as Hst1.
  set (st1 := run_turns (before step) st) in *.
  destruct (Js.truthy sessionId && negb (has_session sessionId st1)) eqn:Hcheck; [exact Hst1 | ].
  destruct (negb (connected st1)); [now apply IH | ].
  apply IH; [exact Hrest | ].
  destruct Hst1 as [new [Hlog (Hq & Hc & Hfalsy)]].
  assert (Hnot : cancelled sessionId new = false).
  { destruct (cancelled sessionId new) eqn:Hcn; [ | reflexivity].
    rewrite (Hc eq_refl) in Hcheck. simpl in Hcheck. rewrite andb_true_r in Hcheck.
    now destruct (Hfalsy Hcheck). }
  exists (new ++ [Streamed sessionId (chunk step) (full +:+ chunk step) (delivered step)]).
  split; [simpl; now rewrite Hlog, List.app_assoc | ].
  split; [now apply quiet_snoc_uncancelled | ].
  rewrite cancelled_app, Hnot. simpl. split; [discriminate | ].
  intros Hf. split; [now apply Hfalsy | reflexivity].
Qed.

Lemma streamResponse_after_registration (base : list Event) (p : Provider) (st : State) :
  unregistered (List.concat (List.map before (steps p)) ++ before_end p ++ during_fallback p)
    = true ->
  holds_since (after_registration sessionId) base st ->
  holds_since (after_registration sessionId) base (snd (streamResponse p sessionId st)).
Proof.
  intros Hok Hst. rewrite !List.forallb_app in Hok.
  apply andb_prop in Hok as [Hsteps Hok]. apply andb_prop in Hok as [Hend Hfb].
  unfold streamResponse.
  pose proof (stream_loop_after_registration base (steps p) EmptyString st Hsteps Hst) as Hloop.
  destruct (stream_loop sessionId (steps p) EmptyString st) as [[broke full] st1].
  simpl in Hloop. destruct broke; [exact Hloop | ].
  pose proof (turns_preserve sessionId _ base (turn_after_registration sessionId base)
                (before_end p) st1 Hend Hloop) as Hend'.
  destruct (ending p); simpl; [exact Hend' | ].
  now apply (turns_preserve sessionId _ base (turn_after_registration sessionId base)).
Qed.

(** The ways the [try] block can end: without a session, in one of
    three states, or with the created session after the stream. *)
Lemma attempt_cases (p : Provider) (st : State) :
  let st0 := run_turns (before_register p) st in
  (exists r pre,
      attempt p sessionId st = (r, None, pre)
      /\ (pre = st \/ pre = st0 \/ exists hd, pre = emit (Destroyed hd) st0))
  \/ (exists h pre,
        (pre = st0 \/ exists hd, pre = emit (Destroyed hd) st0)
        /\ attempt p sessionId st
           = (let '(res, st2) := streamResponse p sessionId (register sessionId h pre) in
              (res, Some h, st2))).
Proof.
  intros st0. unfold attempt. fold st0.
  destruct (capability p); simpl; [ | left; eauto].
  destruct (availability p) as [value | message]; [ | left; eauto 6].
  destruct (String.eqb value "unavailable"); [left; eauto 6 | ].
  assert (Hdl : forall m st1,
            (if String.eqb value "downloadable" || String.eqb value "downloading"
             then handleModelDownload p value st0 else (None, st0)) = (m, st1) ->
            st1 = st0 \/ exists hd, st1 = emit (Destroyed hd) st0).
  { intros m st1. destruct (String.eqb value "downloadable" || String.eqb value "downloading").
    - unfold handleModelDownload. destruct (String.eqb value "downloadable").
      + destruct (download p) as [hd [e | ] | msg]; intros [= <- <-]; eauto.
      + destruct (String.eqb value "downloading"); intros [= <- <-]; eauto.
    - intros [= <- <-]. eauto. }
  destruct (if String.eqb value "downloadable" || String.eqb value "downloading"
            then handleModelDownload p value st0 else (None, st0)) as [[m | ] st1] eqn:Hd;
    specialize (Hdl _ _ eq_refl).
  - left. exists (Err m), st1. split; [reflexivity | tauto].
  - destruct (params_failure p) as [message | ].
    + left. exists (Err message), st1. split; [reflexivity | tauto].
    + destruct (created p) as [failure | session].
      * left. exists (Err failure), st1. split; [reflexivity | tauto].
      * right. exists session, st1. split; [exact Hdl | reflexivity].
Qed.

Lemma register_falsy (h : Handle) (st : State) :
  Js.truthy sessionId = false -> register sessionId h st = st.
Proof.
  intros Hf. unfold register. destruct sessionId as [ | | s]; try reflexivity.
  now rewrite Hf.
Qed.

End CancelledStreamFacts.

(** C2, the claim as stated fails. The id [s] is cancelled while its
    stream is running, [cancelSession] returns true, and before the
    next chunk of that stream arrives another request registers the
    same id: the loop finds the id in the table again and sends the
    chunk of the cancelled stream under it. *)
Lemma reregistered_id_streams_after_cancel :
  Session.log (snd (Session.handlePromptAPI Scenarios.reused_after_cancel (Js.Text "s")
                      Scenarios.idle))
  = [ Session.Streamed (Js.Text "s") "a" "a" true;
      Session.Destroyed 7;
      Session.CancelReturned (Js.Text "s") (Some 7) true;
      Session.Streamed (Js.Text "s") "b" "ab" true;
      Session.Destroyed 7 ]
  /\ ~ Session.quiet_after_cancel (Js.Text "s")
         (Session.log (snd (Session.handlePromptAPI Scenarios.reused_after_cancel (Js.Text "s")
                              Scenarios.idle))).
Proof.
  assert (Hlog : Session.log (snd (Session.handlePromptAPI Scenarios.reused_after_cancel
                                     (Js.Text "s") Scenarios.idle))
                 = [ Session.Streamed (Js.Text "s") "a" "a" true;
                     Session.Destroyed 7;
                     Session.CancelReturned (Js.Text "s") (Some 7) true;
                     Session.Streamed (Js.Text "s") "b" "ab" true;
                     Session.Destroyed 7 ]) by (vm_compute; reflexivity).
  split; [exact Hlog | ].
  rewrite Hlog. intros Hq.
  specialize (Hq [ Session.Streamed (Js.Text "s") "a" "a" true; Session.Destroyed 7 ]
                (Some 7)
                [ Session.Streamed (Js.Text "s") "b" "ab" true; Session.Destroyed 7 ] eq_refl).
  inversion Hq as [ | e l Hstream _]. discriminate Hstream.
Qed.

(** C2, amended. Take a request whose session id is its own: the id is
    not active when the request starts and no other request registers
    it while the request runs. Then after a [cancelSession] for that id
    has returned true, no further [streamingResponse] for the id is
    sent. The loop tests at each chunk boundary, before delivering,
    whether the id is absent from the active-session table; a chunk
    that arrives while it is absent is dropped without being added or
    sent, and the loop ends. *)
Theorem no_stream_after_cancel_of_own_id
    (p : Session.Provider) (sessionId : Js.Str) (st : Session.State) :
  Session.own_id sessionId p st ->
  (exists new,
      Session.log (snd (Session.handlePromptAPI p sessionId st)) = Session.log st ++ new
      /\ Session.quiet_after_cancel sessionId new)
  /\ (forall step rest full st0,
        Js.truthy sessionId = true ->
        Session.has_session sessionId (Session.run_turns (Session.before step) st0) = false ->
        Session.stream_loop sessionId (step :: rest) full st0
        = (true, full, Session.run_turns (Session.before step) st0)).
Proof.
  intros [Hfree Hsched]. split.
  2: { intros step rest full st0 Ht Hgone. cbn [Session.stream_loop]. now rewrite Ht, Hgone. }
  unfold Session.schedule in Hsched. rewrite List.forallb_app in Hsched.
  apply andb_prop in Hsched as [Hpre Hrest].
  assert (Hstart : Session.holds_since (Session.before_registration sessionId)
                     (Session.log st) st).
  { exists []. rewrite List.app_nil_r. repeat split.
    unfold Session.has_session. now rewrite Hfree. }
  pose proof (turns_preserve sessionId _ _ (turn_before_registration sessionId (Session.log st))
                (Session.before_register p) st Hpre Hstart) as Hst0.
  assert (Hdestroyed : forall hd st',
            Session.holds_since (Session.before_registration sessionId) (Session.log st) st' ->
            Session.holds_since (Session.before_registration sessionId) (Session.log st)
              (Session.emit (Session.Destroyed hd) st')).
  { intros hd st' [new [Hlog [Hhas Hc]]]. exists (new ++ [Session.Destroyed hd]).
    split; [simpl; now rewrite Hlog, List.app_assoc | ].
    split; [exact Hhas | ]. rewrite cancelled_app, Hc. reflexivity. }
  unfold Session.handlePromptAPI.
  destruct (attempt_cases sessionId p st)
    as [(r & pre & Hattempt & Hpre_state) | (h & pre & Hpre_state & Hattempt)];
    rewrite Hattempt.
  - assert (Hp : Session.holds_since (Session.before_registration sessionId)
                   (Session.log st) pre).
    { destruct Hpre_state as [-> | [-> | [hd ->]]]; auto. }
    destruct Hp as [new [Hlog [_ Hc]]]. exists new.
    cbv beta iota zeta. cbn [snd].
    rewrite log_cleanup, List.app_nil_r. split; [exact Hlog | ].
    rewrite <- (List.app_nil_r new). apply quiet_after_uncancelled; [exact Hc | apply quiet_nil].
  - assert (Hp : Session.holds_since (Session.before_registration sessionId)
                   (Session.log st) pre).
    { destruct Hpre_state as [-> | [hd ->]]; auto. }
    destruct Hp as [new [Hlog [Hhas Hc]]].
    assert (Hreg : Session.holds_since (Session.after_registration sessionId)
                     (Session.log pre) (Session.register sessionId h pre)).
    { exists []. rewrite log_register, List.app_nil_r. split; [reflexivity | ].
      split; [apply quiet_nil | ]. split; [discriminate | ].
      intros Hf. rewrite (register_falsy sessionId h pre Hf). auto. }
    pose proof (streamResponse_after_registration sessionId _ p _ Hrest Hreg) as Hs.
    destruct (Session.streamResponse p sessionId (Session.register sessionId h pre))
      as [res st2].
    cbn [snd] in Hs. destruct Hs as [post [Hpost (Hq & _)]].
    cbv beta iota zeta. cbn [snd].
    exists (new ++ post ++ [Session.Destroyed h]).
    rewrite log_cleanup, Hpost, Hlog, <- !List.app_assoc. split; [reflexivity | ].
    apply quiet_after_uncancelled; [exact Hc | ].
    apply quiet_app_silent; [exact Hq | repeat constructor].
Qed.

(** * The theorems at concrete inputs *)

Lemma ensureContentScript_on_settings_page :
  Supervisor.ensureContentScript Scenarios.silent_agent 1 (Js.Text "chrome://settings")
    (Supervisor.MkState ∅ [])
  = (false, Supervisor.MkState ∅ []).
Proof. reflexivity. Qed.

Lemma falsy_locator_takes_fallback_witness :
  Js.truthy (PageRequest.tab_url Scenarios.blank_tab) = false
  /\ PageRequest.tabs Scenarios.blank_page
     = PageRequest.QueryTabs (Some [Scenarios.blank_tab])
  /\ PageRequest.handlePageContentRequest Scenarios.blank_page Scenarios.fresh_start
     = (PageRequest.getFallbackPageInfo Scenarios.blank_page, Scenarios.fresh_start).
Proof.
  split; [reflexivity | ]. split; [reflexivity | ].
  apply (falsy_locator_takes_fallback Scenarios.blank_page Scenarios.blank_tab []
           Scenarios.fresh_start); reflexivity.
Defined.

Lemma extractPageContent_on_long_page :
  let page := Content.MkPage (fun _ => None)
                (string_of_list_ascii (List.repeat "x"%char 2500)) in
  String.length (Content.cleaned_content page) = 2500
  /\ String.length (Content.extractPageContent page) = 2003.
Proof. vm_compute. split; reflexivity. Qed.

Lemma suggestionCache_bounded_fifo_witness :
  List.NoDup (Suggestions.stored_keys
                (Scenarios.inserts 50
                   ++ [Suggestions.OpStore (Scenarios.fingerprint 50)
                         Suggestions.getFallbackSuggestions]))
  /\ Suggestions.apply_ops
       (Scenarios.inserts 50
          ++ [Suggestions.OpStore (Scenarios.fingerprint 50) Suggestions.getFallbackSuggestions]) []
     = List.tl (Suggestions.apply_ops (Scenarios.inserts 50) [])
         ++ [(Scenarios.fingerprint 50, Suggestions.getFallbackSuggestions)].
Proof.
  assert (Hnd : List.NoDup (Suggestions.stored_keys
                  (Scenarios.inserts 50
                     ++ [Suggestions.OpStore (Scenarios.fingerprint 50)
                           Suggestions.getFallbackSuggestions]))).
  { apply NoDup_ListNoDup. apply (bool_decide_unpack _). vm_compute. exact I. }
  split; [exact Hnd | ].
  pose proof (suggestionCache_bounded_fifo (Scenarios.inserts 50) (Scenarios.fingerprint 50)
                Suggestions.getFallbackSuggestions Hnd) as (_ & _ & _ & _ & Hstep).
  exact Hstep.
Defined.

Lemma fifty_first_insertion_evicts_the_first :
  Suggestions.keys (Suggestions.apply_ops (Scenarios.inserts 51) [])
  = List.map Scenarios.fingerprint (List.seq 1 50).
Proof. vm_compute. reflexivity. Qed.

Lemma parseAISuggestions_on_five_lines :
  Suggestions.parseAISuggestions (Js.Text Scenarios.five_lines)
  = [ "What is the main claim?"; "Who wrote this?"; "How was it measured?" ].
Proof. vm_compute. reflexivity. Qed.

Lemma generateAISuggestions_on_two_lines :
  Suggestions.generateAISuggestions (Scenarios.answering Scenarios.two_lines) "abc" ""
    Scenarios.empty_cache
  = (Suggestions.getFallbackSuggestions,
     Suggestions.MkState []
       [Suggestions.CallCreate; Suggestions.CallPrompt; Suggestions.CallDestroy]).
Proof. vm_compute. reflexivity. Qed.

Lemma handle_destroyed_by_cleanup_and_by_each_cancel_witness :
  snd (fst (Session.attempt Scenarios.cancelled_after_three (Js.Text "s") Scenarios.idle))
  = Some 7
  /\ Session.own_handle 7 Scenarios.cancelled_after_three Scenarios.idle
  /\ exists new,
       Session.log (snd (Session.handlePromptAPI Scenarios.cancelled_after_three (Js.Text "s")
                           Scenarios.idle))
       = Session.log Scenarios.idle ++ new
       /\ Session.destroys 7 new = 1 + Session.cancel_hits 7 new.
Proof.
  assert (Hcreated : snd (fst (Session.attempt Scenarios.cancelled_after_three (Js.Text "s")
                                 Scenarios.idle)) = Some 7) by (vm_compute; reflexivity).
  assert (Hown : Session.own_handle 7 Scenarios.cancelled_after_three Scenarios.idle).
  { split; [ | split].
    - intros k. simpl. rewrite lookup_empty. discriminate.
    - reflexivity.
    - discriminate. }
  split; [exact Hcreated | ]. split; [exact Hown | ].
  destruct (handle_destroyed_by_cleanup_and_by_each_cancel Scenarios.cancelled_after_three
              (Js.Text "s") Scenarios.idle 7 Hcreated Hown) as (new & Hlog & _ & Hcount & _).
  exists new. split; [exact Hlog | exact Hcount].
Defined.

Lemma duplicate_id_is_registered_over_witness :
  "s" <> EmptyString
  /\ Session.activeSessions Scenarios.busy !! "s" = Some 1
  /\ Session.ready Scenarios.two_chunks 2
  /\ Session.undisturbed Scenarios.two_chunks
  /\ fst (Session.handlePromptAPI Scenarios.two_chunks (Js.Text "s") Scenarios.busy)
     = Session.Ok (Session.joined (Session.steps Scenarios.two_chunks)).
Proof.
  assert (Hne : "s" <> EmptyString) by discriminate.
  assert (Hprior : Session.activeSessions Scenarios.busy !! "s" = Some 1)
    by (vm_compute; reflexivity).
  assert (Hready : Session.ready Scenarios.two_chunks 2) by (repeat split).
  assert (Hquiet : Session.undisturbed Scenarios.two_chunks)
    by (repeat split; repeat constructor).
  repeat (split; [assumption | ]).
  apply (duplicate_id_is_registered_over Scenarios.two_chunks "s" 2 1 Scenarios.busy
           Hne Hprior Hready Hquiet).
Defined.

Lemma no_stream_after_cancel_of_own_id_witness :
  Session.own_id (Js.Text "s") Scenarios.cancelled_after_three Scenarios.idle
  /\ exists new,
       Session.log (snd (Session.handlePromptAPI Scenarios.cancelled_after_three (Js.Text "s")
                           Scenarios.idle))
       = Session.log Scenarios.idle ++ new
       /\ Session.quiet_after_cancel (Js.Text "s") new.
Proof.
  assert (Hown : Session.own_id (Js.Text "s") Scenarios.cancelled_after_three Scenarios.idle)
    by (split; reflexivity).
  split; [exact Hown | ].
  apply (no_stream_after_cancel_of_own_id Scenarios.cancelled_after_three (Js.Text "s")
           Scenarios.idle Hown).
Defined.

(** The three terminal paths without a cancel: the handle is destroyed
    once, by the cleanup. *)
Lemma completed_request_destroys_once :
  Session.handlePromptAPI Scenarios.two_chunks (Js.Text "s") Scenarios.idle
  = (Session.Ok "ab",
     Session.MkState ∅ {[ 1 ]}
       [ Session.Streamed (Js.Text "s") "a" "a" true;
         Session.Streamed (Js.Text "s") "b" "ab" true;
         Session.Destroyed 2 ]).
Proof. vm_compute. reflexivity. Qed.

Lemma failed_request_destroys_once :
  Session.handlePromptAPI Scenarios.failing_stream (Js.Text "s") Scenarios.idle
  = (Session.Err "The session has been destroyed",
     Session.MkState ∅ {[ 1 ]}
       [ Session.Streamed (Js.Text "s") "a" "a" true; Session.Destroyed 7 ]).
Proof. vm_compute. reflexivity. Qed.

Lemma unknown_availability_value :
  Lifecycle.checkAPIAvailability (Lifecycle.Present (Lifecycle.Reports "after-download"))
  = Lifecycle.MkAvailability false (Some "unknown") None
      "Unknown availability status: after-download".
Proof. reflexivity. Qed.

(** * Further properties of the code *)

(** ** [simpleHash] *)

Section HashFacts.
Import Suggestions Vocabulary.

Local Open Scope Z_scope.

Lemma to_int32_range (z : Z) : int32 (to_int32 z).
Proof.
  unfold int32, to_int32.
  pose proof (Z.mod_pos_bound (z + 2147483648) 4294967296 eq_refl). lia.
Qed.

Lemma to_int32_fixed (z : Z) : int32 z -> to_int32 z = z.
Proof.
  unfold int32, to_int32. intros H. rewrite Z.mod_small; lia.
Qed.

(** Wrapping an operand first does not change a wrapped sum. *)
Lemma to_int32_add_l (a b : Z) : to_int32 (to_int32 a + b) = to_int32 (a + b).
Proof.
  unfold to_int32. f_equal.
  replace ((a + 2147483648) mod 4294967296 - 2147483648 + b + 2147483648)
    with ((a + 2147483648) mod 4294967296 + b) by lia.
  rewrite Z.add_mod_idemp_l by lia. f_equal. lia.
Qed.

Lemma to_int32_mul_add (k a b : Z) : to_int32 (k * to_int32 a + b) = to_int32 (k * a + b).
Proof.
  unfold to_int32. f_equal.
  replace (k * ((a + 2147483648) mod 4294967296 - 2147483648) + b + 2147483648)
    with (k * ((a + 2147483648) mod 4294967296) + (b + 2147483648 - k * 2147483648)) by lia.
  replace (k * a + b + 2147483648)
    with (k * (a + 2147483648) + (b + 2147483648 - k * 2147483648)) by lia.
  rewrite <- (Z.add_mod_idemp_l (k * ((a + 2147483648) mod 4294967296))) by lia.
  rewrite Z.mul_mod_idemp_r by lia.
  rewrite Z.add_mod_idemp_l by lia. reflexivity.
Qed.

(** One round of the loop multiplies by 31 and adds the code unit,
    modulo 2^32. *)
Lemma hash_step_poly (hash : Z) (c : ascii) :
  hash_step hash c = to_int32 (31 * hash + code c).
Proof.
  unfold hash_step, code.
  replace (to_int32 (hash * 32) - hash + Z.of_nat (nat_of_ascii c))
    with (to_int32 (hash * 32) + (Z.of_nat (nat_of_ascii c) - hash)) by lia.
  rewrite to_int32_add_l. f_equal. lia.
Qed.

Lemma hash_loop_poly (acc : Z) (str : string) :
  hash_loop (to_int32 acc) str = to_int32 (poly31 acc str).
Proof.
  revert acc. induction str as [ | c r IH]; intros acc; [reflexivity | ].
  cbn [hash_loop poly31]. rewrite hash_step_poly, to_int32_mul_add. apply IH.
Qed.

Lemma poly31_app (acc : Z) (s t : string) : poly31 acc (s +:+ t) = poly31 (poly31 acc s) t.
Proof.
  revert acc. induction s as [ | c r IH]; intros acc; [reflexivity | ].
  change (poly31 (31 * acc + code c) (r +:+ t) = poly31 (poly31 (31 * acc + code c) r) t).
  apply IH.
Qed.

Lemma poly31_Aa_BB (acc : Z) (t : string) : poly31 acc ("BB" +:+ t) = poly31 acc ("Aa" +:+ t).
Proof.
  rewrite !poly31_app. f_equal. cbn [poly31].
  change (code "B") with 66. change (code "A") with 65. change (code "a") with 97. lia.
Qed.

End HashFacts.

(** X1. [simpleHash] is the base-31 polynomial of the code units
    reduced to a signed 32-bit integer and printed in decimal. *)
Theorem simpleHash_is_base31_polynomial (str : string) :
  Suggestions.simpleHash str
  = Suggestions.Z_toString (Suggestions.to_int32 (Vocabulary.poly31 0 str))
  /\ Vocabulary.int32 (Suggestions.hash_loop 0 str).
Proof.
  unfold Suggestions.simpleHash.
  change 0%Z with (Suggestions.to_int32 0) at 1 3.
  rewrite hash_loop_poly. split; [reflexivity | apply to_int32_range].
Qed.

(** X2. The cache key does not tell apart two contents that differ
    only by [Aa] against [BB] at some place: they hash alike, so once
    the suggestions of one are cached, a request for the other is
    answered with them and nothing is generated. *)
Theorem colliding_contents_share_suggestions
    (p : Suggestions.Provider) (before rest title : string) (cached : list string)
    (st : Suggestions.State) :
  Suggestions.get (Suggestions.simpleHash ((before +:+ "Aa" +:+ rest) +:+ title))
    (Suggestions.suggestionCache st) = Some cached ->
  Suggestions.simpleHash ((before +:+ "BB" +:+ rest) +:+ title)
  = Suggestions.simpleHash ((before +:+ "Aa" +:+ rest) +:+ title)
  /\ Suggestions.generateAISuggestions p (before +:+ "BB" +:+ rest) title st = (cached, st).
Proof.
  intros Hget.
  assert (Hkey : Suggestions.simpleHash ((before +:+ "BB" +:+ rest) +:+ title)
                 = Suggestions.simpleHash ((before +:+ "Aa" +:+ rest) +:+ title)).
  { unfold Suggestions.simpleHash. f_equal.
    change 0%Z with (Suggestions.to_int32 0). rewrite !hash_loop_poly. f_equal.
    rewrite !string_app_assoc, !(poly31_app _ before). apply poly31_Aa_BB. }
  split; [exact Hkey | ].
  unfold Suggestions.generateAISuggestions. rewrite Hkey.
  now rewrite (get_has _ _ _ Hget), Hget.
Qed.

(** ** The suggestion cache, further *)

Section CacheShapeFacts.
Import Suggestions Vocabulary.

Implicit Types (c : list Entry) (k : string) (v : list string).

Lemma triples_set k v c : List.length v = 3 -> triples c -> triples (set k v c).
Proof.
  intros Hv. unfold triples. induction c as [ | [k' v'] r IH]; simpl; intros Hc.
  - repeat constructor. exact Hv.
  - inversion Hc as [ | ? ? Hhead Hrest]; subst.
    destruct (String.eqb k' k); constructor; auto.
Qed.

Lemma triples_delete k c : triples c -> triples (delete k c).
Proof.
  unfold triples, delete. intros Hc. apply List.Forall_forall. intros e He.
  apply List.filter_In in He as [He _]. revert e He. now apply List.Forall_forall.
Qed.

Lemma triples_store k v c : List.length v = 3 -> triples c -> triples (store k v c).
Proof.
  intros Hv Hc. unfold store.
  destruct (Nat.ltb cache_bound (List.length (set k v c))); [ | now apply triples_set].
  destruct (first_key (set k v c)); [apply triples_delete | ]; now apply triples_set.
Qed.

Lemma triples_cleanup c : triples c -> triples (cleanup c).
Proof.
  unfold cleanup. intros Hc. destruct (Nat.ltb 30 (List.length c)); [ | exact Hc].
  generalize (List.firstn 10 (keys c)). intros ks. revert c Hc.
  induction ks as [ | k ks IH]; intros c Hc; simpl; [exact Hc | ].
  apply IH. now apply triples_delete.
Qed.

Lemma triples_apply_ops (ops : list CacheOp) c :
  Forall stores_triple ops -> triples c -> triples (apply_ops ops c).
Proof.
  revert c. induction ops as [ | op ops IH]; intros c Hops Hc; simpl; [exact Hc | ].
  inversion Hops as [ | ? ? Hop Hrest]; subst. apply IH; [exact Hrest | ].
  destruct op as [k v | ]; simpl in *; [now apply triples_store | now apply triples_cleanup].
Qed.

Lemma triples_get k v c : triples c -> get k c = Some v -> List.length v = 3.
Proof.
  unfold triples. induction c as [ | [k' v'] r IH]; simpl; intros Hc; [discriminate | ].
  inversion Hc as [ | ? ? Hhead Hrest]; subst.
  destruct (String.eqb k' k); [now intros [= <-] | now apply IH].
Qed.

End CacheShapeFacts.

Lemma generate_three
    (p : Suggestions.Provider) (content title : string) (st : Suggestions.State) :
  Vocabulary.triples (Suggestions.suggestionCache st) ->
  List.length (Suggestions.suggestionCache st) <= 50 ->
  Vocabulary.polite p ->
  let r := Suggestions.generateAISuggestions p content title st in
  List.length (fst r) = 3
  /\ Vocabulary.triples (Suggestions.suggestionCache (snd r))
  /\ List.length (Suggestions.suggestionCache (snd r)) <= 50.
Proof.
  intros Hc Hbound (Hav & Hcr & Hpr) r. subst r.
  unfold Suggestions.generateAISuggestions.
  set (key := Suggestions.simpleHash (content +:+ title)).
  destruct (if Suggestions.has key (Suggestions.suggestionCache st)
            then Suggestions.get key (Suggestions.suggestionCache st) else None)
    as [cached | ] eqn:Hlookup.
  - assert (Hget : Suggestions.get key (Suggestions.suggestionCache st) = Some cached).
    { destruct (Suggestions.has key (Suggestions.suggestionCache st));
        [exact Hlookup | discriminate]. }
    simpl. split; [now apply (triples_get key cached _ Hc) | auto].
  - clear Hlookup.
    assert (H1 := triples_apply_ops _ _ Hav Hc).
    assert (B1 := apply_ops_bound (Suggestions.during_availability p) _ Hbound).
    assert (H2 := triples_apply_ops _ _ Hcr H1).
    assert (B2 := apply_ops_bound (Suggestions.during_create p) _ B1).
    assert (H3 := triples_apply_ops _ _ Hpr H2).
    assert (B3 := apply_ops_bound (Suggestions.during_prompt p) _ B2).
    unfold Suggestions.cache_bound in *.
    destruct (Suggestions.capability p); simpl; [ | auto].
    destruct (Suggestions.availability p) as [value | m]; simpl; [ | auto].
    destruct (String.eqb value "available"); simpl; [ | auto].
    destruct (Suggestions.create_ok p); simpl; [ | auto].
    destruct (Suggestions.prompt_response p) as [response | ]; simpl; [ | auto].
    destruct (Nat.eqb_spec (List.length (Suggestions.parseAISuggestions response)) 3)
      as [Hthree | _]; simpl; [ | auto].
    split; [destruct (Suggestions.destroy_throws p); [reflexivity | exact Hthree] | ].
    split; [now apply triples_store | now apply (store_bound key _ _ B3)].
Qed.

(** X3. Whatever the provider does, [generateAISuggestions] returns
    exactly three suggestions and leaves in the cache only triples and
    at most 50 entries, provided the cache was so before and the other
    turns store triples. *)
Theorem generateAISuggestions_returns_three
    (p : Suggestions.Provider) (content title : string) (st : Suggestions.State) :
  Vocabulary.triples (Suggestions.suggestionCache st) ->
  List.length (Suggestions.suggestionCache st) <= 50 ->
  Vocabulary.polite p ->
  let r := Suggestions.generateAISuggestions p content title st in
  List.length (fst r) = 3
  /\ Vocabulary.triples (Suggestions.suggestionCache (snd r))
  /\ List.length (Suggestions.suggestionCache (snd r)) <= 50.
Proof. apply generate_three. Qed.

Lemma generateAISuggestions_returns_three_witness :
  Vocabulary.triples (Suggestions.suggestionCache Scenarios.empty_cache)
  /\ List.length (Suggestions.suggestionCache Scenarios.empty_cache) <= 50
  /\ Vocabulary.polite (Scenarios.answering Scenarios.two_lines)
  /\ List.length (fst (Suggestions.generateAISuggestions
                         (Scenarios.answering Scenarios.two_lines) "abc" ""
                         Scenarios.empty_cache)) = 3.
Proof.
  assert (Ht : Vocabulary.triples (Suggestions.suggestionCache Scenarios.empty_cache))
    by constructor.
  assert (Hb : List.length (Suggestions.suggestionCache Scenarios.empty_cache) <= 50)
    by (simpl; lia).
  assert (Hp : Vocabulary.polite (Scenarios.answering Scenarios.two_lines))
    by (repeat split; constructor).
  split; [exact Ht | ]. split; [exact Hb | ]. split; [exact Hp | ].
  apply (generateAISuggestions_returns_three (Scenarios.answering Scenarios.two_lines)
           "abc" "" Scenarios.empty_cache Ht Hb Hp).
Defined.

(** X4. When the cache holds more than 30 entries, the periodic
    cleanup removes exactly its ten oldest entries and keeps the others
    in order, so that a cache of more than 40 entries stays above 30;
    a cache of at most 30 entries is left alone. *)
Theorem cleanup_drops_ten_oldest (c : list Suggestions.Entry) :
  List.NoDup (Suggestions.keys c) ->
  Suggestions.cleanup c = (if Nat.ltb 30 (List.length c) then List.skipn 10 c else c)
  /\ List.length (Suggestions.cleanup c)
     = (if Nat.ltb 30 (List.length c) then List.length c - 10 else List.length c)
  /\ (40 < List.length c -> 30 < List.length (Suggestions.cleanup c)).
Proof.
  intros Hnd.
  assert (Heq : Suggestions.cleanup c
                = (if Nat.ltb 30 (List.length c) then List.skipn 10 c else c)).
  { unfold Suggestions.cleanup. destruct (Nat.ltb 30 (List.length c)); [ | reflexivity].
    now apply fold_delete_first. }
  split; [exact Heq | ]. rewrite Heq.
  destruct (Nat.ltb_spec 30 (List.length c)) as [Hbig | Hsmall].
  - rewrite List.length_skipn. split; [reflexivity | lia].
  - split; [reflexivity | lia].
Qed.

Lemma cleanup_drops_ten_oldest_witness :
  List.NoDup (Suggestions.keys (Suggestions.apply_ops (Scenarios.inserts 45) []))
  /\ List.length (Suggestions.cleanup (Suggestions.apply_ops (Scenarios.inserts 45) [])) = 35.
Proof.
  assert (Hnd : List.NoDup (Suggestions.keys (Suggestions.apply_ops (Scenarios.inserts 45) []))).
  { apply NoDup_ListNoDup. apply (bool_decide_unpack _). vm_compute. exact I. }
  split; [exact Hnd | ].
  destruct (cleanup_drops_ten_oldest _ Hnd) as (_ & Hlen & _).
  rewrite Hlen. vm_compute. reflexivity.
Defined.

(** ** The parser, further *)

Section LineEndingFacts.
Import JsString Suggestions Vocabulary.

Lemma drop_nil (n : nat) : drop n EmptyString = EmptyString.
Proof. destruct n; reflexivity. Qed.

(** A suffix of a text that ends with a carriage return is empty or
    ends with it too. *)
Lemma drop_before_return (n : nat) (body : string) :
  drop n (body +:+ String carriage_return EmptyString) = EmptyString
  \/ exists rest, drop n (body +:+ String carriage_return EmptyString)
                  = rest +:+ String carriage_return EmptyString.
Proof.
  revert body. induction n as [ | n IH]; intros body.
  - right. now exists body.
  - destruct body as [ | c r].
    + left. apply drop_nil.
    + change (drop (S n) (String c r +:+ String carriage_return EmptyString))
        with (drop n (r +:+ String carriage_return EmptyString)). apply IH.
Qed.

Lemma dot_plus_refuses_return (body : string) :
  dot_plus_to_end (body +:+ String carriage_return EmptyString) = false.
Proof.
  unfold dot_plus_to_end. apply andb_false_iff. right.
  induction body as [ | c r IH]; [reflexivity | ].
  change (all (fun c0 => negb (is_line_terminator c0))
            (String c (r +:+ String carriage_return EmptyString)) = false).
  cbn [all]. rewrite IH. apply andb_false_r.
Qed.

Lemma backtrack_spaces_refuses_return (k : nat) (body : string) :
  backtrack_spaces k (body +:+ String carriage_return EmptyString) = None.
Proof.
  induction k as [ | k IH]; cbn [backtrack_spaces].
  - destruct (drop_before_return 0 body) as [-> | [rest ->]];
      [reflexivity | now rewrite dot_plus_refuses_return].
  - destruct (drop_before_return (S k) body) as [-> | [rest ->]];
      [exact IH | now rewrite dot_plus_refuses_return].
Qed.

End LineEndingFacts.

(** X5. A line that ends with a carriage return never matches the
    numbered pattern, whatever comes before: [.] does not match a
    carriage return and [$] only matches at the very end. A response
    with Windows line endings therefore loses every numbered line
    except its last: the loop of [parseAISuggestions] passes over such
    lines without collecting anything. *)
Theorem carriage_return_line_never_matches (body : string) :
  Suggestions.match_numbered (body +:+ String Vocabulary.carriage_return EmptyString) = None
  /\ Suggestions.entry_of (body +:+ String Vocabulary.carriage_return EmptyString) = None
  /\ (forall bodies rest found,
        Suggestions.collect
          (List.map (fun b => b +:+ String Vocabulary.carriage_return EmptyString) bodies
             ++ rest) found
        = Suggestions.collect rest found).
Proof.
  assert (Hall : forall b, Suggestions.match_numbered
                             (b +:+ String Vocabulary.carriage_return EmptyString) = None).
  { clear body. intros body.
    unfold Suggestions.match_numbered.
    destruct (Nat.eqb _ 0); [reflexivity | ].
    destruct (drop_before_return
                (JsString.span_length JsString.is_digit
                   (body +:+ String Vocabulary.carriage_return EmptyString)) body)
      as [-> | [rest ->]]; [reflexivity | ].
    destruct rest as [ | c r].
    - reflexivity.
    - change (String c r +:+ String Vocabulary.carriage_return EmptyString)
        with (String c (r +:+ String Vocabulary.carriage_return EmptyString)).
      cbv beta iota.
      destruct (Ascii.eqb c "."%char); [ | reflexivity].
      apply backtrack_spaces_refuses_return. }
  split; [apply Hall | ].
  split; [unfold Suggestions.entry_of; now rewrite Hall | ].
  intros bodies rest found. induction bodies as [ | b bodies IH]; [reflexivity | ].
  cbn [List.map app Suggestions.collect]. now rewrite Hall.
Qed.

Lemma windows_line_endings_lose_suggestions :
  Suggestions.parseAISuggestions
    (Js.Text ("1. a" +:+ String Vocabulary.carriage_return
                (String JsString.newline
                   ("2. b" +:+ String Vocabulary.carriage_return
                      (String JsString.newline "3. c")))))
  = ["c"].
Proof. vm_compute. reflexivity. Qed.

(** ** [cleanText] *)

Section ReverseFacts.

Lemma rev_app_spec (s t : string) : String.rev_app s t = String.rev s +:+ t.
Proof.
  unfold String.rev. revert t. induction s as [ | c r IH]; intros t; [reflexivity | ].
  cbn [String.rev_app]. rewrite (IH (String c t)), (IH (String c EmptyString)).
  now rewrite string_app_assoc.
Qed.

Lemma rev_cons (c : ascii) (r : string) :
  String.rev (String c r) = String.rev r +:+ String c EmptyString.
Proof. unfold String.rev at 1. cbn [String.rev_app]. apply rev_app_spec. Qed.

Lemma rev_append (s t : string) : String.rev (s +:+ t) = String.rev t +:+ String.rev s.
Proof.
  induction s as [ | c r IH].
  - change (EmptyString +:+ t) with t. now rewrite string_app_nil_r.
  - change (String c r +:+ t) with (String c (r +:+ t)).
    rewrite !rev_cons, IH. apply string_app_assoc.
Qed.

Lemma rev_involutive (s : string) : String.rev (String.rev s) = s.
Proof.
  induction s as [ | c r IH]; [reflexivity | ].
  rewrite rev_cons, rev_append, IH. reflexivity.
Qed.

End ReverseFacts.

Section CleanTextFacts.
Import JsString Content Vocabulary.

Lemma trimStart_suffix (s : string) : exists a, s = a +:+ trimStart s.
Proof.
  induction s as [ | c r [a IH]]; [now exists EmptyString | ].
  cbn [trimStart]. destruct (is_space c).
  - exists (String c a). change (String c r = String c (a +:+ trimStart r)). now rewrite <- IH.
  - now exists EmptyString.
Qed.

Lemma starts_clean_trimStart (s : string) : starts_clean (trimStart s) = true.
Proof.
  induction s as [ | c r IH]; [reflexivity | ].
  cbn [trimStart]. destruct (is_space c) eqn:Hc; [exact IH | ].
  simpl. now rewrite Hc.
Qed.

Lemma trimEnd_prefix (s : string) : exists b, s = trimEnd s +:+ b.
Proof.
  unfold trimEnd. destruct (trimStart_suffix (String.rev s)) as [a Ha].
  exists (String.rev a).
  rewrite <- rev_append, <- Ha. symmetry. apply rev_involutive.
Qed.

Lemma single_spaced_tail (c : ascii) (r : string) :
  single_spaced (String c r) = true -> single_spaced r = true.
Proof. cbn [single_spaced]. intros H. now apply andb_prop in H as [_ H]. Qed.

Lemma single_spaced_suffix (a t : string) :
  single_spaced (a +:+ t) = true -> single_spaced t = true.
Proof.
  induction a as [ | c r IH]; [auto | ].
  change (String c r +:+ t) with (String c (r +:+ t)). intros H.
  apply IH. now apply single_spaced_tail in H.
Qed.

Lemma single_spaced_prefix (t b : string) :
  single_spaced (t +:+ b) = true -> single_spaced t = true.
Proof.
  induction t as [ | c r IH]; [reflexivity | ].
  change (String c r +:+ b) with (String c (r +:+ b)). cbn [single_spaced]. intros H.
  apply andb_prop in H as [H Hrest]. apply andb_prop in H as [Hc Hadj].
  rewrite Hc, (IH Hrest), andb_true_r. simpl.
  destruct r as [ | d r']; [reflexivity | exact Hadj].
Qed.

Lemma starts_clean_prefix (t b : string) :
  starts_clean (t +:+ b) = true -> starts_clean t = true.
Proof. destruct t; [reflexivity | auto]. Qed.

Lemma starts_clean_collapse (s : string) : starts_clean (collapse_spaces true s) = true.
Proof.
  induction s as [ | c r IH]; [reflexivity | ].
  cbn [collapse_spaces]. destruct (is_space c) eqn:Hc; [exact IH | ].
  simpl. now rewrite Hc.
Qed.

Lemma single_spaced_collapse (in_run : bool) (s : string) :
  single_spaced (collapse_spaces in_run s) = true.
Proof.
  revert in_run. induction s as [ | c r IH]; intros in_run; [reflexivity | ].
  cbn [collapse_spaces]. destruct (is_space c) eqn:Hc.
  - destruct in_run; [apply IH | ].
    cbn [single_spaced]. rewrite IH, andb_true_r.
    pose proof (starts_clean_collapse r) as Hs.
    destruct (collapse_spaces true r) as [ | d r']; [reflexivity | ].
    simpl in Hs. apply negb_true_iff in Hs. rewrite Hs. reflexivity.
  - cbn [single_spaced]. rewrite IH, Hc. simpl.
    destruct (collapse_spaces false r); reflexivity.
Qed.

Lemma single_spaced_no_newline (t : string) :
  single_spaced t = true -> all (fun c => negb (Ascii.eqb c newline)) t = true.
Proof.
  induction t as [ | c r IH]; [reflexivity | ].
  intros H. cbn [all]. rewrite (IH (single_spaced_tail _ _ H)), andb_true_r.
  cbn [single_spaced] in H. apply andb_prop in H as [H _]. apply andb_prop in H as [H _].
  destruct (Ascii.eqb_spec c newline) as [-> | ]; [ | reflexivity].
  discriminate H.
Qed.

Lemma drop_blank_lines_no_newline (t : string) :
  all (fun c => negb (Ascii.eqb c newline)) t = true -> drop_blank_lines 0 t = t.
Proof.
  induction t as [ | c r IH]; [reflexivity | ].
  cbn [all drop_blank_lines]. intros H. apply andb_prop in H as [Hc Hr].
  apply negb_true_iff in Hc. rewrite Hc, (IH Hr). reflexivity.
Qed.

Lemma collapse_fixed (in_run : bool) (t : string) :
  single_spaced t = true -> (in_run = true -> starts_clean t = true) ->
  collapse_spaces in_run t = t.
Proof.
  revert in_run. induction t as [ | c r IH]; intros in_run Hs Hstart; [reflexivity | ].
  pose proof (single_spaced_tail _ _ Hs) as Hr.
  cbn [single_spaced] in Hs. apply andb_prop in Hs as [Hs _]. apply andb_prop in Hs as [Hc Hadj].
  cbn [collapse_spaces]. destruct (is_space c) eqn:Hsp.
  - destruct in_run; [specialize (Hstart eq_refl); simpl in Hstart; now rewrite Hsp in Hstart | ].
    simpl in Hc. apply Ascii.eqb_eq in Hc. subst c. f_equal. apply IH; [exact Hr | ].
    intros _. destruct r as [ | d r']; [reflexivity | ].
    simpl in Hadj |- *. exact Hadj.
  - f_equal. apply IH; [exact Hr | discriminate].
Qed.

Lemma trimStart_fixed (t : string) : starts_clean t = true -> trimStart t = t.
Proof.
  destruct t as [ | c r]; [reflexivity | ]. simpl. intros H.
  apply negb_true_iff in H. now rewrite H.
Qed.

Lemma trim_fixed (t : string) : trimmed t = true -> trim t = t.
Proof.
  unfold trimmed, trim, trimEnd. intros H. apply andb_prop in H as [Hs He].
  rewrite (trimStart_fixed t Hs), (trimStart_fixed _ He). apply rev_involutive.
Qed.

Lemma trim_single_spaced (s : string) : single_spaced s = true -> single_spaced (trim s) = true.
Proof.
  intros H. unfold trim.
  destruct (trimStart_suffix s) as [a Ha]. rewrite Ha in H.
  apply single_spaced_suffix in H.
  destruct (trimEnd_prefix (trimStart s)) as [b Hb]. rewrite Hb in H.
  now apply single_spaced_prefix in H.
Qed.

Lemma trim_trimmed (s : string) : trimmed (trim s) = true.
Proof.
  unfold trimmed, trim. apply andb_true_intro. split.
  - destruct (trimEnd_prefix (trimStart s)) as [b Hb].
    pose proof (starts_clean_trimStart s) as Hs. rewrite Hb in Hs.
    now apply starts_clean_prefix in Hs.
  - unfold trimEnd. rewrite rev_involutive. apply starts_clean_trimStart.
Qed.

Lemma cleanText_unfold (text : string) : cleanText text = trim (collapse_spaces false text).
Proof.
  unfold cleanText. f_equal. apply drop_blank_lines_no_newline, single_spaced_no_newline.
  apply single_spaced_collapse.
Qed.

Lemma cleanText_fixed (t : string) :
  single_spaced t = true -> trimmed t = true -> cleanText t = t.
Proof.
  intros Hs Ht. rewrite cleanText_unfold.
  rewrite (collapse_fixed false t Hs) by discriminate. now apply trim_fixed.
Qed.

End CleanTextFacts.

(** X6. The text [cleanText] returns is in normal form: its only
    white characters are single plain spaces (no tab, line feed or
    no-break space, no two spaces next to each other), and it neither
    starts nor ends with one. Cleaning it again changes nothing. *)
Theorem cleanText_normal_form (text : string) :
  Vocabulary.single_spaced (Content.cleanText text) = true
  /\ Vocabulary.trimmed (Content.cleanText text) = true
  /\ Content.cleanText (Content.cleanText text) = Content.cleanText text.
Proof.
  assert (Hs : Vocabulary.single_spaced (Content.cleanText text) = true).
  { rewrite cleanText_unfold. apply trim_single_spaced, single_spaced_collapse. }
  assert (Ht : Vocabulary.trimmed (Content.cleanText text) = true).
  { rewrite cleanText_unfold. apply trim_trimmed. }
  repeat split; [exact Hs | exact Ht | now apply cleanText_fixed].
Qed.

(** X7. [cleanText] returns every text that is already in normal form
    (single plain spaces only, none at either end) as it is. *)
Theorem cleanText_keeps_normal_forms (t : string) :
  Vocabulary.single_spaced t = true -> Vocabulary.trimmed t = true ->
  Content.cleanText t = t.
Proof. apply cleanText_fixed. Qed.

Lemma cleanText_keeps_normal_forms_witness :
  Vocabulary.single_spaced "Read the docs" = true
  /\ Vocabulary.trimmed "Read the docs" = true
  /\ Content.cleanText "Read the docs" = "Read the docs".
Proof.
  split; [reflexivity | split; [reflexivity | ]].
  apply (cleanText_keeps_normal_forms "Read the docs"); reflexivity.
Defined.

(** X8. The second replacement of [cleanText], the one that removes
    empty lines, never changes anything: after the first replacement
    no line feed is left. [cleanText] is the first replacement
    followed by [trim]. *)
Theorem blank_line_removal_is_dead (text : string) :
  Content.drop_blank_lines 0 (Content.collapse_spaces false text)
  = Content.collapse_spaces false text
  /\ Content.cleanText text = JsString.trim (Content.collapse_spaces false text).
Proof.
  split; [ | apply cleanText_unfold].
  apply drop_blank_lines_no_newline, single_spaced_no_newline, single_spaced_collapse.
Qed.

(** ** The parser against the wording of the claim *)

Section WordingFacts.
Import JsString Suggestions Wording.

(** *** The character classes *)

Lemma is_digit_digit (c : ascii) : is_digit c = true <-> digit c.
Proof.
  unfold is_digit, digit. rewrite andb_true_iff, !Nat.leb_le. reflexivity.
Qed.

Lemma is_space_white (c : ascii) : is_space c = true <-> white c.
Proof.
  unfold is_space, white. rewrite !orb_true_iff, andb_true_iff, !Nat.leb_le, !Nat.eqb_eq.
  simpl. lia.
Qed.

Lemma is_line_terminator_break (c : ascii) : is_line_terminator c = true <-> line_break c.
Proof.
  unfold is_line_terminator, line_break. rewrite orb_true_iff, !Nat.eqb_eq. reflexivity.
Qed.

Lemma code_eq (c d : ascii) : c = d <-> nat_of_ascii c = nat_of_ascii d.
Proof.
  split; [now intros -> | ]. intros H.
  rewrite <- (ascii_nat_embedding c), <- (ascii_nat_embedding d). now rewrite H.
Qed.

Lemma is_quote_quote (c : ascii) : is_quote c = true <-> quote c.
Proof.
  unfold is_quote, quote. rewrite orb_true_iff, !Ascii.eqb_eq, !code_eq. reflexivity.
Qed.

Lemma newline_feed (c : ascii) : Ascii.eqb c newline = true <-> line_feed c.
Proof. unfold line_feed. rewrite Ascii.eqb_eq, code_eq. reflexivity. Qed.

Lemma all_every (p : ascii -> bool) (P : ascii -> Prop) (s : string) :
  (forall c, p c = true <-> P c) -> all p s = true <-> every P s.
Proof.
  intros H. induction s as [ | c r IH]; simpl; [tauto | ].
  rewrite andb_true_iff, H, IH. reflexivity.
Qed.

Lemma not_true_iff (b : bool) (P : Prop) : (b = true <-> P) -> (negb b = true <-> ~ P).
Proof. intros H. rewrite negb_true_iff, <- H. destruct b; split; congruence. Qed.

Lemma every_app (P : ascii -> Prop) (a b : string) :
  every P (a +:+ b) <-> every P a /\ every P b.
Proof.
  induction a as [ | c a IH]; [simpl; tauto | ].
  change (String c a +:+ b) with (String c (a +:+ b)). simpl. rewrite IH. tauto.
Qed.


(** *** Prefixes and suffixes *)

Lemma all_take_span (p : ascii -> bool) (j : nat) (s : string) :
  j <= span_length p s -> all p (take j s) = true.
Proof.
  revert s. induction j as [ | j IH]; intros s Hj; [now destruct s | ].
  destruct s as [ | c r]; [reflexivity | ]. simpl in Hj |- *.
  destruct (p c); [ | lia]. simpl. apply IH. lia.
Qed.

Lemma drop_span_head (p : ascii -> bool) (s : string) (c : ascii) (r : string) :
  drop (span_length p s) s = String c r -> p c = false.
Proof.
  induction s as [ | d s IH]; [discriminate | ]. simpl.
  destruct (p d) eqn:Hd; [exact IH | ]. simpl. now intros [= <- _].
Qed.

Lemma drop_next (j : nat) (s : string) (c : ascii) (r : string) :
  drop j s = String c r -> drop (S j) s = r.
Proof.
  revert s. induction j as [ | j IH]; intros s H.
  - destruct s; [discriminate H | ]. simpl in H. now injection H as _ ->.
  - destruct s as [ | d s]; [discriminate H | ]. simpl in H.
    change (drop (S (S j)) (String d s)) with (drop (S j) s). now apply IH.
Qed.

Lemma span_length_le (p : ascii -> bool) (s : string) : span_length p s <= String.length s.
Proof. induction s as [ | c r IH]; simpl; [lia | ]. destruct (p c); lia. Qed.

Lemma span_app (p : ascii -> bool) (a b : string) :
  all p a = true ->
  (forall c r, b = String c r -> p c = false) ->
  span_length p (a +:+ b) = String.length a.
Proof.
  intros Ha Hb. induction a as [ | c a IH].
  - change (EmptyString +:+ b) with b. destruct b as [ | c r]; [reflexivity | ].
    simpl. now rewrite (Hb c r eq_refl).
  - change (String c a +:+ b) with (String c (a +:+ b)). simpl in Ha |- *.
    apply andb_prop in Ha as [Hc Ha]. rewrite Hc. f_equal. now apply IH.
Qed.

Lemma span_all (p : ascii -> bool) (a : string) :
  all p a = true -> span_length p a = String.length a.
Proof.
  intros Ha. rewrite <- (string_app_nil_r a) at 1. apply span_app; [exact Ha | discriminate].
Qed.

Lemma drop_app_length (a b : string) : drop (String.length a) (a +:+ b) = b.
Proof.
  induction a as [ | c a IH]; [now destruct b | ].
  change (String c a +:+ b) with (String c (a +:+ b)). exact IH.
Qed.

Lemma take_app_length (a b : string) : take (String.length a) (a +:+ b) = a.
Proof.
  induction a as [ | c a IH]; [now destruct b | ].
  change (String c a +:+ b) with (String c (a +:+ b)). simpl. now rewrite IH.
Qed.

(** *** The numbered pattern *)

Lemma dot_plus_spec (s : string) :
  dot_plus_to_end s = true <-> s <> EmptyString /\ every (fun c => ~ line_break c) s.
Proof.
  unfold dot_plus_to_end. rewrite andb_true_iff, negb_true_iff.
  rewrite (all_every _ (fun c => ~ line_break c));
    [ | intros c; apply not_true_iff, is_line_terminator_break].
  destruct (String.eqb_spec s EmptyString); split; intros [H1 H2]; split; congruence.
Qed.

Lemma backtrack_spaces_spec (k : nat) (r captured : string) :
  backtrack_spaces k r = Some captured ->
  exists j, j <= k /\ captured = drop j r /\ dot_plus_to_end captured = true
            /\ forall i, j < i -> i <= k -> dot_plus_to_end (drop i r) = false.
Proof.
  induction k as [ | k IH]; intros H.
  - change (backtrack_spaces 0 r)
      with (if dot_plus_to_end (drop 0 r) then Some (drop 0 r) else None) in H.
    destruct (dot_plus_to_end (drop 0 r)) eqn:E; [ | discriminate].
    injection H as <-. exists 0. repeat split; auto. intros i Hi Hk. lia.
  - change (backtrack_spaces (S k) r)
      with (if dot_plus_to_end (drop (S k) r) then Some (drop (S k) r)
            else backtrack_spaces k r) in H.
    destruct (dot_plus_to_end (drop (S k) r)) eqn:E.
    + injection H as <-. exists (S k). repeat split; auto. intros i Hi Hk. lia.
    + destruct (IH H) as (j & Hj & Hc & Hd & Hrest). exists j. repeat split; auto.
      intros i Hi Hk. destruct (Nat.eq_dec i (S k)) as [-> | Hne]; [exact E | ].
      apply Hrest; lia.
Qed.

Lemma match_numbered_marked (line text : string) :
  match_numbered line = Some text -> marked line text.
Proof.
  unfold match_numbered.
  destruct (Nat.eqb_spec (span_length is_digit line) 0) as [ | Hd]; [discriminate | ].
  destruct (drop (span_length is_digit line) line) as [ | c r] eqn:Hdrop; [discriminate | ].
  destruct (Ascii.eqb_spec c "."%char) as [-> | ]; [ | discriminate].
  intros Hb. apply backtrack_spaces_spec in Hb as (j & Hj & Hcap & Hdot & Hlater).
  exists (take (span_length is_digit line) line), (take j r).
  pose proof (take_drop (span_length is_digit line) line) as Hline. rewrite Hdrop in Hline.
  pose proof (take_drop j r) as Hr. rewrite <- Hcap in Hr.
  apply dot_plus_spec in Hdot as [Hne Hbreaks].
  split.
  { rewrite Hr. change ("." +:+ r) with (String "."%char r). now symmetry. }
  split.
  { intros Hempty. apply Hd.
    assert (Hlen : String.length (take (span_length is_digit line) line) = 0)
      by now rewrite Hempty.
    rewrite length_take in Hlen. pose proof (span_length_le is_digit line). lia. }
  split; [apply (all_every is_digit); [apply is_digit_digit | now apply all_take_span] | ].
  split; [apply (all_every is_space); [apply is_space_white | now apply all_take_span] | ].
  split; [exact Hne | ]. split; [exact Hbreaks | ].
  intros (d & rest & Htext & Hwhite). rewrite Htext in Hcap, Hbreaks |- *. clear Htext.
  assert (Hlt : j < span_length is_space r).
  { destruct (Nat.eq_dec j (span_length is_space r)) as [-> | ]; [ | lia].
    symmetry in Hcap. apply drop_span_head in Hcap. apply is_space_white in Hwhite. congruence. }
  symmetry in Hcap. pose proof (drop_next _ _ _ _ Hcap) as Htail.
  assert (Hfalse := Hlater (S j) (Nat.lt_succ_diag_r j) Hlt). rewrite Htail in Hfalse.
  destruct rest as [ | e rest]; [reflexivity | ].
  exfalso. simpl in Hbreaks. destruct Hbreaks as [_ Hrest].
  assert (Htrue : dot_plus_to_end (String e rest) = true)
    by (apply dot_plus_spec; split; [discriminate | exact Hrest]).
  congruence.
Qed.

Lemma marked_match_numbered (line text : string) :
  marked line text -> match_numbered line = Some text.
Proof.
  intros (digits & gap & -> & Hne & Hdigits & Hgap & Htext & Hbreaks & Hone).
  apply (all_every is_digit) in Hdigits; [ | apply is_digit_digit].
  apply (all_every is_space) in Hgap; [ | apply is_space_white].
  assert (Hdot : dot_plus_to_end text = true) by (apply dot_plus_spec; now split).
  unfold match_numbered.
  rewrite (span_app is_digit digits ("." +:+ gap +:+ text) Hdigits)
    by (intros c r [= <- _]; reflexivity).
  rewrite drop_app_length.
  destruct digits as [ | d ds]; [contradiction | ]. cbn [String.length Nat.eqb].
  change ("." +:+ gap +:+ text) with (String "."%char (gap +:+ text)). cbv beta iota.
  replace (Ascii.eqb "." ".") with true by reflexivity.
  destruct text as [ | c rest]; [contradiction | ].
  destruct (is_space c) eqn:Hc.
  - assert (Hlen : String.length (String c rest) = 1)
      by (apply Hone; exists c, rest; split; [reflexivity | now apply is_space_white]).
    destruct rest; [ | simpl in Hlen; lia].
    assert (Hall : all is_space (gap +:+ String c EmptyString) = true).
    { apply (all_every is_space white); [apply is_space_white | ].
      apply every_app. split.
      - apply (all_every is_space white); [apply is_space_white | exact Hgap].
      - simpl. split; [now apply is_space_white | exact I]. }
    rewrite (span_all _ _ Hall), length_app_string. cbn [String.length].
    rewrite Nat.add_1_r.
    change (backtrack_spaces (S (String.length gap)) (gap +:+ String c EmptyString))
      with (if dot_plus_to_end (drop (S (String.length gap)) (gap +:+ String c EmptyString))
            then Some (drop (S (String.length gap)) (gap +:+ String c EmptyString))
            else backtrack_spaces (String.length gap) (gap +:+ String c EmptyString)).
    assert (Hdrop : drop (String.length gap) (gap +:+ String c EmptyString)
                    = String c EmptyString) by apply drop_app_length.
    rewrite (drop_next _ _ _ _ Hdrop).
    replace (dot_plus_to_end EmptyString) with false by reflexivity.
    destruct (String.length gap) as [ | k] eqn:Hk.
    + change (backtrack_spaces 0 ?r)
        with (if dot_plus_to_end (drop 0 r) then Some (drop 0 r) else None).
      rewrite Hdrop, Hdot. reflexivity.
    + change (backtrack_spaces (S k) ?r)
        with (if dot_plus_to_end (drop (S k) r) then Some (drop (S k) r)
              else backtrack_spaces k r).
      rewrite Hdrop, Hdot. reflexivity.
  - rewrite (span_app is_space gap (String c rest) Hgap)
      by (intros c' r' [= <- _]; exact Hc).
    destruct (String.length gap) as [ | k] eqn:Hk.
    + change (backtrack_spaces 0 ?r)
        with (if dot_plus_to_end (drop 0 r) then Some (drop 0 r) else None).
      rewrite <- Hk, drop_app_length, Hdot. reflexivity.
    + change (backtrack_spaces (S k) ?r)
        with (if dot_plus_to_end (drop (S k) r) then Some (drop (S k) r)
              else backtrack_spaces k r).
      rewrite <- Hk, drop_app_length, Hdot. reflexivity.
Qed.


(** *** Trimming *)

Lemma all_rev (p : ascii -> bool) (s : string) : all p (String.rev s) = all p s.
Proof.
  induction s as [ | c r IH]; [reflexivity | ].
  rewrite rev_cons. simpl.
  assert (Happ : forall a b, all p (a +:+ b) = all p a && all p b).
  { intros a b. induction a as [ | d a IHa]; [reflexivity | ].
    change (String d a +:+ b) with (String d (a +:+ b)). simpl. rewrite IHa.
    now rewrite andb_assoc. }
  rewrite Happ, IH. simpl. rewrite andb_true_r. apply andb_comm.
Qed.

Lemma trimStart_spaces (s : string) :
  exists a, s = a +:+ trimStart s /\ all is_space a = true.
Proof.
  induction s as [ | c r (a & IH & Ha)]; [now exists EmptyString | ].
  cbn [trimStart]. destruct (is_space c) eqn:Hc.
  - exists (String c a). change (String c a +:+ trimStart r) with (String c (a +:+ trimStart r)).
    rewrite <- IH. simpl. now rewrite Hc, Ha.
  - now exists EmptyString.
Qed.

Lemma trimEnd_spaces (s : string) :
  exists b, s = trimEnd s +:+ b /\ all is_space b = true.
Proof.
  unfold trimEnd. destruct (trimStart_spaces (String.rev s)) as (a & Ha & Hspaces).
  exists (String.rev a). split; [ | now rewrite all_rev].
  rewrite <- rev_append, <- Ha. symmetry. apply rev_involutive.
Qed.

Lemma starts_clean_opens (s : string) :
  Vocabulary.starts_clean s = true <-> ~ opens_with white s.
Proof.
  destruct s as [ | c r]; simpl.
  - split; [intros _ (c & r & H & _); discriminate H | reflexivity].
  - rewrite negb_true_iff. split.
    + intros Hc (d & r' & [= <- <-] & Hw). apply is_space_white in Hw. congruence.
    + intros H. destruct (is_space c) eqn:Hc; [ | reflexivity].
      exfalso. apply H. exists c, r. split; [reflexivity | now apply is_space_white].
Qed.

Lemma closes_rev (P : ascii -> Prop) (s : string) :
  closes_with P s <-> opens_with P (String.rev s).
Proof.
  split.
  - intros (r & c & -> & Hc). exists c, (String.rev r). split; [ | exact Hc].
    now rewrite rev_append.
  - intros (c & r & Hrev & Hc). exists (String.rev r), c. split; [ | exact Hc].
    rewrite <- (rev_involutive s), Hrev. apply rev_cons.
Qed.

Lemma trim_trimmed_of (s : string) : trimmed_of s (trim s).
Proof.
  unfold trim.
  destruct (trimStart_spaces s) as (a & Ha & Hspaces_a).
  destruct (trimEnd_spaces (trimStart s)) as (b & Hb & Hspaces_b).
  exists a, b. split; [now rewrite <- Hb | ].
  split; [now apply (all_every is_space white); [apply is_space_white | ] | ].
  split; [now apply (all_every is_space white); [apply is_space_white | ] | ].
  pose proof (trim_trimmed s) as Ht. unfold Vocabulary.trimmed, trim in Ht.
  apply andb_prop in Ht as [Hstart Hend].
  split; [now apply starts_clean_opens | ].
  rewrite closes_rev. now apply starts_clean_opens.
Qed.

Lemma trimStart_app_spaces (a s : string) :
  all is_space a = true -> trimStart (a +:+ s) = trimStart s.
Proof.
  induction a as [ | c a IH]; intros Ha; [reflexivity | ].
  change (String c a +:+ s) with (String c (a +:+ s)). simpl in Ha |- *.
  apply andb_prop in Ha as [Hc Ha]. rewrite Hc. now apply IH.
Qed.

Lemma trimStart_all_spaces (b : string) : all is_space b = true -> trimStart b = EmptyString.
Proof.
  intros Hb. rewrite <- (string_app_nil_r b). now rewrite trimStart_app_spaces.
Qed.

Lemma trimStart_clean_app (core b : string) :
  core <> EmptyString -> Vocabulary.starts_clean core = true ->
  trimStart (core +:+ b) = core +:+ b.
Proof.
  destruct core as [ | c r]; [contradiction | ]. intros _ Hc. simpl in Hc.
  apply negb_true_iff in Hc.
  change (String c r +:+ b) with (String c (r +:+ b)). simpl. now rewrite Hc.
Qed.

Lemma trimmed_of_trim (s core : string) : trimmed_of s core -> trim s = core.
Proof.
  intros (a & b & -> & Ha & Hb & Hopen & Hclose).
  apply (all_every is_space white) in Ha; [ | apply is_space_white].
  apply (all_every is_space white) in Hb; [ | apply is_space_white].
  apply starts_clean_opens in Hopen. rewrite closes_rev in Hclose.
  apply starts_clean_opens in Hclose.
  unfold trim. rewrite trimStart_app_spaces by exact Ha.
  destruct (String.eqb_spec core EmptyString) as [-> | Hne].
  - change (EmptyString +:+ b) with b. now rewrite trimStart_all_spaces.
  - rewrite trimStart_clean_app by assumption.
    unfold trimEnd. rewrite rev_append, trimStart_app_spaces by now rewrite all_rev.
    assert (Hrev : String.rev core <> EmptyString).
    { intros H. apply Hne. rewrite <- (rev_involutive core), H. reflexivity. }
    rewrite <- (string_app_nil_r (String.rev core)).
    rewrite trimStart_clean_app by assumption.
    rewrite string_app_nil_r. apply rev_involutive.
Qed.

(** *** Quotes *)

Lemma strip_front_spec (s : string) :
  exists front,
    s = front +:+ strip_front_quote s
    /\ ((front = EmptyString /\ ~ opens_with quote s)
        \/ exists q, front = String q EmptyString /\ quote q).
Proof.
  destruct s as [ | c r]; simpl.
  - exists EmptyString. split; [reflexivity | ]. left. split; [reflexivity | ].
    intros (c & r & H & _). discriminate H.
  - destruct (is_quote c) eqn:Hc.
    + exists (String c EmptyString). split; [reflexivity | ]. right. exists c.
      split; [reflexivity | now apply is_quote_quote].
    + exists EmptyString. split; [reflexivity | ]. left. split; [reflexivity | ].
      intros (d & r' & [= <- <-] & Hq). apply is_quote_quote in Hq. congruence.
Qed.

Lemma strip_quotes_unquoted (s : string) : unquoted s (strip_quotes s).
Proof.
  unfold strip_quotes.
  destruct (strip_front_spec s) as (front & Hs & Hfront).
  set (rest := strip_front_quote s) in *.
  destruct (strip_front_spec (String.rev rest)) as (back & Hr & Hback).
  set (inner := strip_front_quote (String.rev rest)) in *.
  assert (Hrest : rest = String.rev inner +:+ String.rev back).
  { rewrite <- rev_append, <- Hr. symmetry. apply rev_involutive. }
  exists front, (String.rev back). split; [now rewrite <- Hrest | ].
  split; [exact Hfront | ].
  destruct Hback as [[-> Hno] | (q & -> & Hq)].
  - left. split; [reflexivity | ]. intros Hc. apply Hno.
    change (EmptyString +:+ inner) with inner in Hr. rewrite Hr.
    apply closes_rev in Hc. now rewrite rev_involutive in Hc.
  - right. exists q. split; [reflexivity | exact Hq].
Qed.

Lemma strip_front_clean (s : string) : ~ opens_with quote s -> strip_front_quote s = s.
Proof.
  destruct s as [ | c r]; [reflexivity | ]. intros H. simpl.
  destruct (is_quote c) eqn:Hc; [ | reflexivity].
  exfalso. apply H. exists c, r. split; [reflexivity | now apply is_quote_quote].
Qed.

Lemma strip_front_quoted (q : ascii) (s : string) :
  quote q -> strip_front_quote (String q s) = s.
Proof. intros Hq. apply is_quote_quote in Hq. simpl. now rewrite Hq. Qed.

Lemma unquoted_strip_quotes (s r : string) : unquoted s r -> strip_quotes s = r.
Proof.
  intros (front & back & -> & Hfront & Hback). unfold strip_quotes.
  assert (Hrest : strip_front_quote (front +:+ r +:+ back) = r +:+ back).
  { destruct Hfront as [[-> Hno] | (q & -> & Hq)].
    - now apply strip_front_clean.
    - now apply strip_front_quoted. }
  rewrite Hrest, rev_append.
  destruct Hback as [[-> Hno] | (q & -> & Hq)].
  - change (String.rev EmptyString) with EmptyString.
    change (EmptyString +:+ String.rev r) with (String.rev r).
    rewrite strip_front_clean; [apply rev_involutive | ].
    intros Hopen. apply Hno. now apply closes_rev.
  - change (String.rev (String q EmptyString) +:+ String.rev r) with (String q (String.rev r)).
    rewrite strip_front_quoted by exact Hq. apply rev_involutive.
Qed.


(** *** Entries *)

Lemma entries_of_lines (lines : list string) : entries lines (omap entry_of lines).
Proof.
  induction lines as [ | line rest IH]; [constructor | ].
  change (omap entry_of (line :: rest))
    with (match entry_of line with
          | Some y => y :: omap entry_of rest
          | None => omap entry_of rest
          end).
  unfold entry_of at 1. destruct (match_numbered line) as [text | ] eqn:Hm; cbn [option_map].
  - apply (entries_keep line text (trim text)); [ | | | exact IH].
    + now apply match_numbered_marked.
    + apply trim_trimmed_of.
    + apply strip_quotes_unquoted.
  - apply entries_skip; [ | exact IH].
    intros text Hmarked. apply marked_match_numbered in Hmarked. congruence.
Qed.

Lemma entries_unique (lines found : list string) :
  entries lines found -> found = omap entry_of lines.
Proof.
  induction 1 as [ | line rest found Hno _ IH | line text core entry rest found Hm Ht Hq _ IH].
  - reflexivity.
  - change (omap entry_of (line :: rest))
      with (match entry_of line with
            | Some y => y :: omap entry_of rest
            | None => omap entry_of rest
            end).
    unfold entry_of at 1. destruct (match_numbered line) as [text | ] eqn:Hm; [ | exact IH].
    exfalso. apply (Hno text). now apply match_numbered_marked.
  - change (omap entry_of (line :: rest))
      with (match entry_of line with
            | Some y => y :: omap entry_of rest
            | None => omap entry_of rest
            end).
    unfold entry_of at 1. rewrite (marked_match_numbered _ _ Hm). cbn [option_map].
    unfold suggestion_of. rewrite (trimmed_of_trim _ _ Ht), (unquoted_strip_quotes _ _ Hq).
    now rewrite IH.
Qed.

(** A blank line opens with no marker, so the filter of the parser
    removes nothing that the loop would keep. *)
Lemma blank_line_unmarked (line : string) : nonblank line = false -> entry_of line = None.
Proof.
  unfold nonblank. rewrite negb_false_iff. intros Hblank. apply String.eqb_eq in Hblank.
  unfold entry_of. destruct (match_numbered line) as [text | ] eqn:Hm; [ | reflexivity].
  exfalso. apply match_numbered_marked in Hm
    as (digits & gap & -> & Hne & Hdigits & _).
  destruct (trim_trimmed_of (digits +:+ "." +:+ gap +:+ text)) as (a & b & Hs & Ha & Hb & _).
  rewrite Hblank in Hs. change (EmptyString +:+ b) with b in Hs.
  assert (Hwhite : every white (digits +:+ "." +:+ gap +:+ text))
    by (rewrite Hs; apply every_app; now split).
  destruct digits as [ | d ds]; [contradiction | ].
  change (String d ds +:+ ?x) with (String d (ds +:+ x)) in Hwhite.
  destruct Hwhite as [Hd _]. destruct Hdigits as [Hdigit _].
  unfold white, digit in *. simpl in Hd. lia.
Qed.

Lemma omap_nonblank (lines : list string) :
  omap entry_of (List.filter nonblank lines) = omap entry_of lines.
Proof.
  induction lines as [ | line rest IH]; [reflexivity | ].
  cbn [List.filter]. destruct (nonblank line) eqn:Hb.
  - change (omap entry_of (line :: ?l))
      with (match entry_of line with
            | Some y => y :: omap entry_of l
            | None => omap entry_of l
            end). now rewrite IH.
  - change (omap entry_of (line :: rest))
      with (match entry_of line with
            | Some y => y :: omap entry_of rest
            | None => omap entry_of rest
            end). now rewrite (blank_line_unmarked line Hb).
Qed.

(** *** Lines *)

Lemma split_lines_nonempty (text : string) : split_lines text <> [].
Proof.
  induction text as [ | c r IH]; [discriminate | ]. simpl.
  destruct (Ascii.eqb c newline); [discriminate | ].
  destruct (split_lines r); discriminate.
Qed.

Lemma concat_cons (sep line : string) (rest : list string) :
  rest <> [] -> String.concat sep (line :: rest) = line +:+ sep +:+ String.concat sep rest.
Proof. destruct rest; [contradiction | reflexivity]. Qed.

Lemma split_lines_of (text : string) : lines_of text (split_lines text).
Proof.
  split; [apply split_lines_nonempty | ].
  induction text as [ | c r [IHjoin IHfree]].
  - split; [reflexivity | repeat constructor].
  - simpl. destruct (Ascii.eqb c newline) eqn:Hc.
    + apply Ascii.eqb_eq in Hc. subst c. split.
      * rewrite concat_cons by apply split_lines_nonempty.
        change (EmptyString +:+ ?x) with x. now rewrite <- IHjoin.
      * constructor; [exact I | exact IHfree].
    + pose proof (split_lines_nonempty r) as Hne.
      destruct (split_lines r) as [ | l ls]; [contradiction | ].
      apply List.Forall_cons_iff in IHfree as [Hl Hls]. split.
      * destruct ls as [ | l' ls'].
        -- simpl in IHjoin |- *. now rewrite <- IHjoin.
        -- rewrite concat_cons by discriminate. rewrite concat_cons in IHjoin by discriminate.
           change (String c l +:+ ?x) with (String c (l +:+ x)). now rewrite <- IHjoin.
      * constructor; [ | exact Hls]. simpl. split; [ | exact Hl].
        intros Hfeed. apply newline_feed in Hfeed. congruence.
Qed.

Lemma split_lines_line (l : string) :
  every (fun c => ~ line_feed c) l -> split_lines l = [l].
Proof.
  induction l as [ | c r IH]; [reflexivity | ]. simpl. intros [Hc Hr].
  destruct (Ascii.eqb c newline) eqn:E; [now apply newline_feed in E | ].
  now rewrite (IH Hr).
Qed.

Lemma split_lines_app (l rest : string) :
  every (fun c => ~ line_feed c) l ->
  split_lines (l +:+ String newline rest) = l :: split_lines rest.
Proof.
  induction l as [ | c r IH]; intros Hl.
  - change (EmptyString +:+ ?x) with x. reflexivity.
  - change (String c r +:+ ?x) with (String c (r +:+ x)). simpl in Hl |- *.
    destruct Hl as [Hc Hr].
    destruct (Ascii.eqb c newline) eqn:E; [now apply newline_feed in E | ].
    now rewrite (IH Hr).
Qed.

Lemma lines_of_unique (text : string) (lines : list string) :
  lines_of text lines -> lines = split_lines text.
Proof.
  intros (Hne & -> & Hfree). destruct lines as [ | l ls]; [contradiction | ]. clear Hne.
  revert l Hfree. induction ls as [ | l' ls' IH]; intros l Hfree.
  - apply List.Forall_cons_iff in Hfree as [Hl _].
    simpl. symmetry. now apply split_lines_line.
  - apply List.Forall_cons_iff in Hfree as [Hl Hrest].
    rewrite concat_cons by discriminate.
    change (String "010"%char EmptyString +:+ ?x) with (String newline x).
    rewrite split_lines_app by exact Hl. now rewrite <- IH.
Qed.

(** The parser computes the parse of the wording, and nothing else is
    a parse of the same text. *)
Lemma parseAISuggestions_wording (text : string) (result : list string) :
  parse text result <-> result = parseAISuggestions (Js.Text text).
Proof.
  rewrite parseAISuggestions_spec. unfold numbered_entries. rewrite omap_nonblank. split.
  - intros (lines & found & Hlines & Hentries & ->).
    now rewrite (entries_unique _ _ Hentries), (lines_of_unique _ _ Hlines).
  - intros ->. exists (split_lines text), (omap entry_of (split_lines text)).
    split; [apply split_lines_of | ]. split; [apply entries_of_lines | reflexivity].
Qed.

End WordingFacts.

(** C6. The parser returns the first three of the entries obtained from
    the non-blank lines that open with an ordinal marker (digits and a
    full stop), each being the captured text trimmed and with its
    surrounding quotes stripped, so at most three. This is the parse
    as the claim words it, and the only one: the lines kept are
    exactly those that open with an ordinal marker followed by some
    text, the text kept is exactly what follows the marker without the
    white space around it, and exactly one quote character, if there
    is one, is taken off each of its ends. A response that is not a
    string parses to nothing. On a cache miss with a provider that
    answers the prompt, generation is invoked once; if the parse has
    exactly three entries, they are returned and stored under the
    fingerprint, and a later call with the same fingerprint returns
    them without generating; otherwise the fallback triple is returned
    and the call stores nothing, so that, unless another turn has
    stored the fingerprint meanwhile, a later call generates again. *)
Theorem suggestions_cached_only_when_three
    (p : Suggestions.Provider) (content title : string) (response : Js.Str)
    (st : Suggestions.State) :
  List.length (Suggestions.suggestionCache st) <= 50 ->
  Suggestions.has (Suggestions.simpleHash (content +:+ title)) (Suggestions.suggestionCache st)
    = false ->
  Suggestions.reaches_prompt p = true ->
  Suggestions.prompt_response p = Some response ->
  let key := Suggestions.simpleHash (content +:+ title) in
  let parsed := Suggestions.parseAISuggestions response in
  let r := Suggestions.generateAISuggestions p content title st in
  let others := Suggestions.after_interleaving p (Suggestions.suggestionCache st) in
  (forall text, response = Js.Text text ->
     parsed = List.firstn 3 (Suggestions.numbered_entries text)
     /\ (forall s, In s (Suggestions.numbered_entries text) ->
          exists line captured,
            In line (JsString.split_lines text)
            /\ Suggestions.leading_ordinal line = true
            /\ Suggestions.match_numbered line = Some captured
            /\ s = Suggestions.strip_quotes (JsString.trim captured))
     /\ (forall result, Wording.parse text result <-> result = parsed))
  /\ ((forall text, response <> Js.Text text) -> parsed = [])
  /\ (forall line text,
        Suggestions.match_numbered line = Some text <-> Wording.marked line text)
  /\ (forall s core, JsString.trim s = core <-> Wording.trimmed_of s core)
  /\ (forall s r, Suggestions.strip_quotes s = r <-> Wording.unquoted s r)
  /\ List.length parsed <= 3
  /\ Suggestions.generations (snd r) = Suggestions.generations st + 1
  /\ if Nat.eqb (List.length parsed) 3
     then fst r = (if Suggestions.destroy_throws p
                   then Suggestions.getFallbackSuggestions else parsed)
          /\ Suggestions.suggestionCache (snd r) = Suggestions.store key parsed others
          /\ Suggestions.get key (Suggestions.suggestionCache (snd r)) = Some parsed
          /\ (forall p2, Suggestions.generateAISuggestions p2 content title (snd r)
                         = (parsed, snd r))
     else fst r = Suggestions.getFallbackSuggestions
          /\ Suggestions.suggestionCache (snd r) = others
          /\ (Suggestions.has key others = false ->
              forall p2, Suggestions.reaches_prompt p2 = true ->
                Suggestions.generations
                  (snd (Suggestions.generateAISuggestions p2 content title (snd r)))
                = Suggestions.generations (snd r) + 1).
Proof.
  intros Hbound Hmiss Hp Hresp key parsed r others.
  split; [ | split; [ | split; [ | split; [ | split; [ | split; [ | split]]]]]].
  - intros text ->. split; [apply parseAISuggestions_spec | ]. split.
    + intros s Hs. destruct (numbered_entries_origin text s Hs)
        as (line & captured & Hin & _ & Hord & Hm & Hsdef).
      exists line, captured. auto.
    + intros result. apply parseAISuggestions_wording.
  - intros Hother. subst parsed. destruct response as [ | | text]; try reflexivity.
    now destruct (Hother text).
  - intros line text. split; [apply match_numbered_marked | apply marked_match_numbered].
  - intros s core. split; [intros <-; apply trim_trimmed_of | apply trimmed_of_trim].
  - intros s q. split; [intros <-; apply strip_quotes_unquoted | apply unquoted_strip_quotes].
  - apply parseAISuggestions_length.
  - now apply generate_on_miss_invokes.
  - subst r. rewrite (generate_on_miss p content title st response Hmiss Hp Hresp).
    fold key parsed others. cbv zeta.
    destruct (Nat.eqb (List.length parsed) 3); simpl.
    + assert (Hget : Suggestions.get key (Suggestions.store key parsed others) = Some parsed).
      { apply get_store. now apply after_interleaving_bound. }
      repeat split; auto.
      intros p2. now apply generate_on_hit.
    + repeat split; auto.
      intros Hstill p2 Hp2. now apply generate_on_miss_invokes.
Qed.

Lemma suggestions_cached_only_when_three_witness :
  List.length (Suggestions.suggestionCache Scenarios.empty_cache) <= 50
  /\ Suggestions.has (Suggestions.simpleHash ("abc" +:+ ""))
       (Suggestions.suggestionCache Scenarios.empty_cache) = false
  /\ Suggestions.reaches_prompt (Scenarios.answering Scenarios.five_lines) = true
  /\ Suggestions.prompt_response (Scenarios.answering Scenarios.five_lines)
     = Some (Js.Text Scenarios.five_lines)
  /\ Suggestions.generations
       (snd (Suggestions.generateAISuggestions (Scenarios.answering Scenarios.five_lines)
               "abc" "" Scenarios.empty_cache))
     = Suggestions.generations Scenarios.empty_cache + 1
  /\ Wording.parse Scenarios.five_lines
       [ "What is the main claim?"; "Who wrote this?"; "How was it measured?" ]
  /\ Wording.unquoted "'Who wrote this?'" "Who wrote this?"
  /\ Wording.marked "2. 'Who wrote this?'" "'Who wrote this?'".
Proof.
  assert (Hbound : List.length (Suggestions.suggestionCache Scenarios.empty_cache) <= 50)
    by (simpl; lia).
  split; [exact Hbound | ]. do 3 (split; [reflexivity | ]).
  pose proof (suggestions_cached_only_when_three (Scenarios.answering Scenarios.five_lines)
                "abc" "" (Js.Text Scenarios.five_lines) Scenarios.empty_cache
                Hbound eq_refl eq_refl eq_refl)
    as (Hparse & _ & Hmarked & _ & Hquotes & _ & Hgen & _).
  split; [exact Hgen | ].
  destruct (Hparse Scenarios.five_lines eq_refl) as (_ & _ & Hwording).
  split; [apply Hwording; vm_compute; reflexivity | ].
  split; [apply Hquotes; vm_compute; reflexivity | apply Hmarked; vm_compute; reflexivity].
Defined.

(** ** The selector loop of [extractPageContent] *)

Section SelectorFacts.
Import Content Vocabulary.

Variable p : Page.

Lemma select_content_skips (before rest : list string) (content : string) :
  Forall (short_or_absent p) before ->
  exists content', select_content p (before ++ rest) content = select_content p rest content'.
Proof.
  revert content. induction before as [ | s before IH]; intros content H.
  - now exists content.
  - inversion H as [ | ? ? Hs Hb]; subst. cbn [app select_content].
    destruct (query_text p s) as [text | ] eqn:Hq; [ | now apply IH].
    specialize (Hs text Hq).
    destruct (Nat.ltb_spec 100 (String.length text)) as [Hlt | _]; [lia | now apply IH].
Qed.

Lemma select_content_short (selectors : list string) (content : string) :
  (forall s text, In s selectors -> query_text p s = Some text -> String.length text < 100) ->
  select_content p selectors content = content
  \/ String.length (select_content p selectors content) < 100.
Proof.
  revert content. induction selectors as [ | s rest IH]; intros content H; [now left | ].
  cbn [select_content].
  assert (Hrest : forall s' text, In s' rest -> query_text p s' = Some text ->
                                   String.length text < 100)
    by (intros s' text Hin; apply H; now right).
  destruct (query_text p s) as [text | ] eqn:Hq; [ | now apply IH].
  pose proof (H s text (or_introl eq_refl) Hq) as Hlen.
  destruct (Nat.ltb_spec 100 (String.length text)) as [Hlt | _]; [lia | ].
  destruct (IH text Hrest) as [-> | Hl]; right; assumption.
Qed.

End SelectorFacts.

(** X9. The selectors are tried in the order of the list and the first
    one whose element yields more than 100 characters wins: the
    selectors after it are not consulted, and the body fallback is not
    taken. *)
Theorem first_substantial_selector_wins
    (p : Content.Page) (before after : list string) (selector text : string) :
  Content.contentSelectors = before ++ selector :: after ->
  Forall (Vocabulary.short_or_absent p) before ->
  Content.query_text p selector = Some text ->
  100 < String.length text ->
  Content.cleaned_content p = Content.cleanText text.
Proof.
  intros Hsplit Hbefore Hq Hlen. unfold Content.cleaned_content. rewrite Hsplit.
  destruct (select_content_skips p before (selector :: after) EmptyString Hbefore) as [c ->].
  cbn [Content.select_content]. rewrite Hq.
  destruct (Nat.ltb_spec 100 (String.length text)) as [_ | Hle]; [ | lia].
  destruct text as [ | a r]; [simpl in Hlen; lia | ].
  replace (String.eqb (String a r) EmptyString) with false by reflexivity.
  destruct (Nat.ltb_spec (String.length (String a r)) 100) as [Hlt | _]; [lia | reflexivity].
Qed.

Lemma first_substantial_selector_wins_witness :
  let text := String.concat " " (repeat "word" 30) in
  let p := Content.MkPage
             (fun s => if String.eqb s "main" then Some "menu"
                       else if String.eqb s "article" then Some text
                       else if String.eqb s ".content" then Some (text +:+ text)
                       else None)
             "everything" in
  Content.cleaned_content p = Content.cleanText text.
Proof.
  intros text p.
  apply (first_substantial_selector_wins p ["main"]
           [Content.role_main; ".content"; ".main-content"; ".post-content";
            ".entry-content"; ".article-content"; "body"] "article" text).
  - reflexivity.
  - constructor; [ | constructor]. intros t Ht. vm_compute in Ht.
    injection Ht as <-. vm_compute. lia.
  - reflexivity.
  - vm_compute. lia.
Defined.

(** X10. When no selector yields 100 characters or more, the text of
    [document.body] is used, whatever the selectors found. *)
Theorem short_selectors_fall_back_to_body (p : Content.Page) :
  (forall s text, In s Content.contentSelectors -> Content.query_text p s = Some text ->
                  String.length text < 100) ->
  Content.cleaned_content p = Content.cleanText (Content.body_text p).
Proof.
  intros H. unfold Content.cleaned_content.
  destruct (select_content_short p Content.contentSelectors EmptyString H) as [-> | Hlt].
  - reflexivity.
  - destruct (Nat.ltb_spec (String.length
                (Content.select_content p Content.contentSelectors EmptyString)) 100)
      as [_ | Hge]; [ | lia].
    now rewrite orb_true_r.
Qed.

Lemma short_selectors_fall_back_to_body_witness :
  let p := Content.MkPage (fun s => if String.eqb s "main" then Some "menu" else None)
             "the whole body" in
  Content.cleaned_content p = Content.cleanText "the whole body".
Proof.
  intros p. apply (short_selectors_fall_back_to_body p).
  intros s text _ Hq. unfold p in Hq. cbn [Content.query_text] in Hq.
  destruct (String.eqb s "main"); [ | discriminate].
  injection Hq as <-. vm_compute. lia.
Defined.

(** X11. The two length tests do not meet: a text of exactly 100
    characters from the last selector that matches is neither
    substantial for the loop nor short for the fallback, so it is kept
    and the body is not read. *)
Theorem hundred_characters_are_kept (p : Content.Page) (before after : list string)
    (selector text : string) :
  Content.contentSelectors = before ++ selector :: after ->
  Forall (Vocabulary.short_or_absent p) before ->
  Content.query_text p selector = Some text ->
  String.length text = 100 ->
  Forall (fun s => Content.query_text p s = None) after ->
  Content.cleaned_content p = Content.cleanText text.
Proof.
  intros Hsplit Hbefore Hq Hlen Hafter. unfold Content.cleaned_content. rewrite Hsplit.
  destruct (select_content_skips p before (selector :: after) EmptyString Hbefore) as [c ->].
  cbn [Content.select_content]. rewrite Hq, Hlen. cbn [Nat.ltb Nat.leb].
  assert (Hsel : forall c', Content.select_content p after c' = c').
  { clear - Hafter. induction after as [ | s rest IH]; intros c'; [reflexivity | ].
    inversion Hafter as [ | ? ? Hs Hr]; subst. cbn [Content.select_content].
    rewrite Hs. now apply IH. }
  replace (Nat.ltb 100 100) with false by reflexivity.
  rewrite Hsel, Hlen.
  destruct text as [ | a r]; [simpl in Hlen; lia | reflexivity].
Qed.

Lemma hundred_characters_are_kept_witness :
  let text := String.concat "" (repeat "0123456789" 10) in
  let p := Content.MkPage (fun s => if String.eqb s "body" then Some text else None)
             "the live body" in
  Content.cleaned_content p = Content.cleanText text.
Proof.
  intros text p.
  apply (hundred_characters_are_kept p
           ["main"; "article"; Content.role_main; ".content"; ".main-content";
            ".post-content"; ".entry-content"; ".article-content"] [] "body" text).
  - reflexivity.
  - repeat (constructor; [intros t Ht; vm_compute in Ht; discriminate Ht | ]). constructor.
  - reflexivity.
  - reflexivity.
  - constructor.
Defined.

(** ** [validateParameters] *)

Section ClampFacts.
Import Params Vocabulary.

Lemma Qle_bool_false (a b : Q) : Qle_bool a b = false -> (b < a)%Q.
Proof.
  intros H. apply Qnot_le_lt. intros Hle. apply Qle_bool_iff in Hle. congruence.
Qed.

(** The boolean comparisons of finite numbers as propositions. *)
Ltac order :=
  repeat (cbn in *;
          match goal with
          | H : Qle_bool _ _ = true |- _ => apply Qle_bool_iff in H
          | H : Qle_bool _ _ = false |- _ => apply Qle_bool_false in H
          | |- context [Qle_bool ?x ?y] => destruct (Qle_bool x y) eqn:?
          | H : context [Qle_bool ?x ?y] |- _ => destruct (Qle_bool x y) eqn:?
          end);
  cbn in *; try tauto; try discriminate; try reflexivity; try congruence;
  try (exfalso; lra); try lra.

Ltac numbers :=
  unfold clamp, Math_max, Math_min, between, at_most, lt, is_nan in *;
  repeat match goal with
         | n : Number |- _ => destruct n
         end;
  cbn in *; order.

Lemma clamp_nan (minV maxV : Number) : clamp NaN minV maxV = NaN.
Proof. numbers. Qed.

Lemma clamp_in_range (value minV maxV : Number) :
  at_most minV value -> at_most value maxV -> clamp value minV maxV = value.
Proof. intros Hlo Hhi. numbers. Qed.

Lemma clamp_within (value minV maxV : Number) :
  at_most minV maxV -> value <> NaN -> between minV (clamp value minV maxV) maxV.
Proof. intros Hb Hv. split; numbers. Qed.

Lemma clamp_inverted (value minV maxV : Number) :
  at_most maxV minV -> ~ at_most minV maxV -> value <> NaN ->
  clamp value minV maxV = minV.
Proof. intros H1 H2 Hv. numbers. Qed.

Lemma Math_max_nan (b : Number) : Math_max NaN b = NaN.
Proof. reflexivity. Qed.

Lemma requested_clamped (scaled minV maxV : Number) :
  scaled <> NaN -> at_most minV maxV -> at_most maxV (Fin 2) ->
  at_most (clamp (Math_max scaled (Fin 2)) minV maxV) maxV
  /\ at_most maxV (clamp (Math_max scaled (Fin 2)) minV maxV).
Proof. intros Hs Hb Hmax. split; numbers. Qed.

End ClampFacts.

(** X12. [validateParameters] keeps exactly the properties that were
    requested. When the lower bound is at most the upper bound (the
    defaults are 0 and 2 for the temperature, 1 and 8 for topK), a
    requested number comes out between the bounds, and unchanged when
    it already lies between them. A requested [NaN] is not caught: it
    fails both range tests and is passed on as [NaN]. *)
Theorem validateParameters_within_bounds
    (apiParams : Params.ApiParams) (requested : Params.Requested) :
  Vocabulary.at_most (Params.minTemp apiParams) (Params.maxTemp apiParams) ->
  Vocabulary.at_most (Params.minTopK apiParams) (Params.maxTopK apiParams) ->
  let validated := Params.validateParameters apiParams requested in
  (Params.temperature validated = None <-> Params.temperature requested = None)
  /\ (Params.topK validated = None <-> Params.topK requested = None)
  /\ (forall t, Params.temperature validated = Some t ->
        Vocabulary.between (Params.minTemp apiParams) t (Params.maxTemp apiParams)
        \/ (t = Params.NaN /\ Params.temperature requested = Some Params.NaN))
  /\ (forall k, Params.topK validated = Some k ->
        Vocabulary.between (Params.minTopK apiParams) k (Params.maxTopK apiParams)
        \/ (k = Params.NaN /\ Params.topK requested = Some Params.NaN))
  /\ (forall t, Params.temperature requested = Some t ->
        Vocabulary.between (Params.minTemp apiParams) t (Params.maxTemp apiParams) ->
        Params.temperature validated = Some t)
  /\ (forall k, Params.topK requested = Some k ->
        Vocabulary.between (Params.minTopK apiParams) k (Params.maxTopK apiParams) ->
        Params.topK validated = Some k)
  /\ (Params.temperature requested = Some Params.NaN ->
      Params.temperature validated = Some Params.NaN)
  /\ (Params.topK requested = Some Params.NaN -> Params.topK validated = Some Params.NaN).
Proof.
  intros Ht Hk validated. unfold validated, Params.validateParameters.
  cbn [Params.temperature Params.topK].
  assert (Hcases : forall v lo hi, Vocabulary.at_most lo hi ->
             Vocabulary.between lo (Params.clamp v lo hi) hi
             \/ (Params.clamp v lo hi = Params.NaN /\ v = Params.NaN)).
  { intros v lo hi Hb. destruct (Params.is_nan v) eqn:Hv.
    - right. destruct v; try discriminate Hv. split; [apply clamp_nan | reflexivity].
    - left. apply clamp_within; [exact Hb | ]. intros ->. discriminate Hv. }
  split; [destruct (Params.temperature requested); simpl; split; congruence | ].
  split; [destruct (Params.topK requested); simpl; split; congruence | ].
  split.
  { intros t. destruct (Params.temperature requested) as [v | ]; simpl; [ | discriminate].
    intros [= <-]. destruct (Hcases v _ _ Ht) as [H | [H ->]]; [now left | right].
    split; [exact H | reflexivity]. }
  split.
  { intros k. destruct (Params.topK requested) as [v | ]; simpl; [ | discriminate].
    intros [= <-]. destruct (Hcases v _ _ Hk) as [H | [H ->]]; [now left | right].
    split; [exact H | reflexivity]. }
  split; [intros t -> [Hlo Hhi]; simpl; f_equal; now apply clamp_in_range | ].
  split; [intros k -> [Hlo Hhi]; simpl; f_equal; now apply clamp_in_range | ].
  split; intros ->; simpl; f_equal; apply clamp_nan.
Qed.

Lemma validateParameters_within_bounds_witness :
  let apiParams :=
    Params.MkApiParams None (Some (Params.MkRange None (Some (Params.Fin 4)))) in
  let validated := Params.validateParameters apiParams
                     (Params.MkRequested (Some Params.NaN) (Some (Params.Fin 6))) in
  Params.temperature validated = Some Params.NaN
  /\ Params.topK validated = Some (Params.Fin 4)
  /\ Vocabulary.between (Params.minTopK apiParams) (Params.Fin 4) (Params.maxTopK apiParams).
Proof.
  intros apiParams validated.
  pose proof (validateParameters_within_bounds apiParams
                (Params.MkRequested (Some Params.NaN) (Some (Params.Fin 6)))) as H.
  assert (H1 : Vocabulary.at_most (Params.minTemp apiParams) (Params.maxTemp apiParams))
    by (vm_compute; discriminate).
  assert (H2 : Vocabulary.at_most (Params.minTopK apiParams) (Params.maxTopK apiParams))
    by (vm_compute; discriminate).
  destruct (H H1 H2) as (_ & _ & _ & Hrange & _ & _ & Hnan & _).
  split; [now apply Hnan | split; [reflexivity | ]].
  destruct (Hrange (Params.Fin 4) eq_refl) as [Hb | [Hb _]]; [exact Hb | discriminate Hb].
Defined.

(** X13. When the model reports a lower bound above the upper bound,
    every requested temperature other than [NaN] is replaced by the
    lower bound: the outer [Math.max] wins. [NaN] stays [NaN]. *)
Theorem inverted_bounds_give_the_lower_bound
    (apiParams : Params.ApiParams) (requested : Params.Requested) (t : Params.Number) :
  Vocabulary.at_most (Params.maxTemp apiParams) (Params.minTemp apiParams) ->
  ~ Vocabulary.at_most (Params.minTemp apiParams) (Params.maxTemp apiParams) ->
  Params.temperature requested = Some t ->
  Params.temperature (Params.validateParameters apiParams requested)
  = Some (if Params.is_nan t then Params.NaN else Params.minTemp apiParams).
Proof.
  intros Hinv Hstrict Hreq. unfold Params.validateParameters. cbn [Params.temperature].
  rewrite Hreq. simpl. f_equal. destruct (Params.is_nan t) eqn:Ht.
  - destruct t; try discriminate Ht. apply clamp_nan.
  - apply clamp_inverted; [exact Hinv | exact Hstrict | ]. intros ->. discriminate Ht.
Qed.

Lemma inverted_bounds_give_the_lower_bound_witness :
  Params.temperature
    (Params.validateParameters
       (Params.MkApiParams
          (Some (Params.MkRange (Some (Params.Fin 3)) (Some (Params.Fin 1)))) None)
       (Params.MkRequested (Some (Params.Fin 2)) None))
  = Some (Params.Fin 3).
Proof.
  apply (inverted_bounds_give_the_lower_bound
           (Params.MkApiParams
              (Some (Params.MkRange (Some (Params.Fin 3)) (Some (Params.Fin 1)))) None)
           (Params.MkRequested (Some (Params.Fin 2)) None) (Params.Fin 2)).
  - vm_compute. discriminate.
  - vm_compute. intros H. now apply H.
  - reflexivity.
Defined.

(** X14. The temperature [handlePromptAPI] asks for is
    [Math.max(defaultTemperature * 1.2, 2.0)]. When the product is
    [NaN], as it is when the model reports no [defaultTemperature],
    the validation lets [NaN] through and the session is created with
    the temperature [NaN]. Otherwise the requested value is at least
    2, so whenever the upper bound is at most 2 (as with the default
    bounds) the session is created with the upper bound, whatever the
    default temperature is. topK is 3 whenever 3 lies between its
    bounds. *)
Theorem requested_temperature_is_the_upper_bound_or_nan
    (apiParams : Params.ApiParams) (scaled : Params.Number) :
  Vocabulary.at_most (Params.minTemp apiParams) (Params.maxTemp apiParams) ->
  Vocabulary.at_most (Params.maxTemp apiParams) (Params.Fin 2) ->
  exists t,
    Params.temperature (Params.validateParameters apiParams (Params.requestedParams scaled))
    = Some t
    /\ (scaled = Params.NaN -> t = Params.NaN)
    /\ (scaled <> Params.NaN ->
        Vocabulary.at_most t (Params.maxTemp apiParams)
        /\ Vocabulary.at_most (Params.maxTemp apiParams) t)
    /\ (Vocabulary.between (Params.minTopK apiParams) (Params.Fin 3) (Params.maxTopK apiParams) ->
        Params.topK (Params.validateParameters apiParams (Params.requestedParams scaled))
        = Some (Params.Fin 3)).
Proof.
  intros Hb Hmax. unfold Params.validateParameters, Params.requestedParams.
  cbn [Params.temperature Params.topK option_map].
  eexists. split; [reflexivity | ]. split; [ | split].
  - intros ->. rewrite Math_max_nan. apply clamp_nan.
  - intros Hs. now apply requested_clamped.
  - intros [Hlo Hhi]. f_equal. now apply clamp_in_range.
Qed.

Lemma requested_temperature_is_the_upper_bound_or_nan_witness :
  exists t,
    Params.temperature
      (Params.validateParameters (Params.MkApiParams None None)
         (Params.requestedParams (Params.Fin (12 # 10))))
    = Some t
    /\ Vocabulary.at_most t (Params.Fin 2) /\ Vocabulary.at_most (Params.Fin 2) t.
Proof.
  destruct (requested_temperature_is_the_upper_bound_or_nan
              (Params.MkApiParams None None) (Params.Fin (12 # 10)))
    as (t & Ht & _ & Heq & _).
  - vm_compute. discriminate.
  - vm_compute. discriminate.
  - exists t. split; [exact Ht | ]. apply Heq. discriminate.
Defined.

Lemma missing_default_temperature_requests_nan :
  Params.validateParameters (Params.MkApiParams None None) (Params.requestedParams Params.NaN)
  = Params.MkRequested (Some Params.NaN) (Some (Params.Fin 3)).
Proof. reflexivity. Qed.

Lemma colliding_contents_share_suggestions_witness :
  let st := Suggestions.MkState
              [(Suggestions.simpleHash "AaT", ["x"; "y"; "z"])] [] in
  Suggestions.simpleHash "BBT" = Suggestions.simpleHash "AaT"
  /\ Suggestions.generateAISuggestions Scenarios.no_model "BB" "T" st = (["x"; "y"; "z"], st).
Proof.
  intros st.
  exact (colliding_contents_share_suggestions Scenarios.no_model "" "" "T" ["x"; "y"; "z"] st
           eq_refl).
Defined.

(** ** What is extracted from a page *)

Section ExtractedFacts.
Import JsString Content Vocabulary.

Lemma single_spaced_dots (t : string) :
  single_spaced t = true -> single_spaced (t +:+ "...") = true.
Proof.
  induction t as [ | c r IH]; [reflexivity | ].
  change (String c r +:+ "...") with (String c (r +:+ "...")). intros H.
  pose proof (single_spaced_tail _ _ H) as Hr.
  cbn [single_spaced] in H |- *. apply andb_prop in H as [H _]. apply andb_prop in H as [Hc Hadj].
  rewrite Hc, (IH Hr), andb_true_r. simpl.
  destruct r as [ | d r']; [destruct (is_space c); reflexivity | exact Hadj].
Qed.

Lemma single_spaced_take (n : nat) (t : string) :
  single_spaced t = true -> single_spaced (take n t) = true.
Proof.
  intros H. rewrite <- (take_drop n t) in H. now apply single_spaced_prefix in H.
Qed.

Lemma starts_clean_take (n : nat) (t : string) :
  starts_clean t = true -> starts_clean (take n t) = true.
Proof.
  intros H. rewrite <- (take_drop n t) in H. now apply starts_clean_prefix in H.
Qed.

Lemma starts_clean_dots (t : string) :
  starts_clean t = true -> starts_clean (t +:+ "...") = true.
Proof. destruct t; [reflexivity | auto]. Qed.

Lemma cleanText_shape (text : string) :
  single_spaced (cleanText text) = true /\ starts_clean (cleanText text) = true.
Proof.
  rewrite cleanText_unfold. split.
  - apply trim_single_spaced, single_spaced_collapse.
  - pose proof (trim_trimmed (collapse_spaces false text)) as H.
    unfold trimmed in H. now apply andb_prop in H as [H _].
Qed.

End ExtractedFacts.

(** X15. What [extractPageContent] hands to the service worker has at
    most 2003 characters, does not start with a white character, and
    its only white characters are single plain spaces: the cut at 2000
    characters and the added [...] keep what [cleanText] established
    (but the text may now end with a space before the dots). *)
Theorem extracted_content_is_clean (p : Content.Page) :
  String.length (Content.extractPageContent p) <= 2003
  /\ Vocabulary.single_spaced (Content.extractPageContent p) = true
  /\ Vocabulary.starts_clean (Content.extractPageContent p) = true.
Proof.
  rewrite extractPageContent_unfold. unfold Content.cleaned_content.
  set (chosen := if String.eqb _ _ || _ then _ else _).
  destruct (cleanText_shape chosen) as [Hs Hc]. unfold Content.content_limit.
  destruct (Nat.ltb_spec 2000 (String.length (Content.cleanText chosen))) as [Hlong | Hshort].
  - split; [ | split].
    + rewrite length_app_string, length_take. change (String.length "...") with 3. lia.
    + now apply single_spaced_dots, single_spaced_take.
    + now apply starts_clean_dots, starts_clean_take.
  - split; [lia | now split].
Qed.

(** ** The status table of the supervisor *)

Section StatusFacts.
Import Supervisor Vocabulary.

Variable w : World.

Lemma ping_table (tabId timeout : nat) (st : State) :
  same_elsewhere tabId (snd (pingContentScript w tabId timeout st)) st
  /\ (fst (pingContentScript w tabId timeout st) = true ->
      recorded_ready tabId (snd (pingContentScript w tabId timeout st)))
  /\ (is_Some (contentScriptStatus st !! tabId) ->
      is_Some (contentScriptStatus (snd (pingContentScript w tabId timeout st)) !! tabId)).
Proof.
  unfold pingContentScript, same_elsewhere, recorded_ready.
  destruct (ping_outcome w (probes (trace st))) as [ | | [r | ] now | ]; simpl;
    try (split; [reflexivity | split; [discriminate | auto]]).
  destruct (reply_alive r) eqn:Halive; simpl;
    [ | split; [reflexivity | split; [discriminate | auto]]].
  split; [intros t Ht; now rewrite lookup_insert_ne | ].
  split.
  - intros Hready. eexists. rewrite lookup_insert_eq. split; [reflexivity | ]. simpl. auto.
  - intros _. rewrite lookup_insert_eq. eauto.
Qed.

Lemma ensure_table (tabId : nat) (url : Js.Str) (st : State) :
  same_elsewhere tabId (snd (ensureContentScript w tabId url st)) st
  /\ (fst (ensureContentScript w tabId url st) = true ->
      recorded_ready tabId (snd (ensureContentScript w tabId url st)))
  /\ (is_Some (contentScriptStatus st !! tabId) ->
      is_Some (contentScriptStatus (snd (ensureContentScript w tabId url st)) !! tabId)).
Proof.
  unfold ensureContentScript.
  destruct (isRestrictedUrl url); [split; [intros t _; reflexivity | split; [discriminate | auto]] | ].
  pose proof (ping_table tabId default_timeout st) as (F1 & R1 & K1).
  destruct (pingContentScript w tabId default_timeout st) as [isReady st1] eqn:E1.
  cbn [fst snd] in F1, R1, K1.
  destruct isReady; [split; [exact F1 | split; [intros _; now apply R1 | exact K1]] | ].
  destruct (inject_ok w (injections (trace st1))).
  - set (st3 := log (Settle 500) (log (Inject tabId) st1)).
    pose proof (ping_table tabId default_timeout st3) as (F2 & R2 & K2).
    split; [ | split].
    + intros t Ht. rewrite (F2 t Ht). exact (F1 t Ht).
    + exact R2.
    + intros H. apply K2. exact (K1 H).
  - cbn [fst snd]. split; [exact F1 | split; [discriminate | exact K1]].
Qed.

End StatusFacts.

(** X16. [ensureContentScript] touches the status table at the entry of
    its own tab only; when it answers true the table records that tab
    as alive and ready; and it never removes an entry. *)
Theorem ensureContentScript_records_its_tab
    (w : Supervisor.World) (tabId : nat) (url : Js.Str) (st : Supervisor.State) :
  Vocabulary.same_elsewhere tabId (snd (Supervisor.ensureContentScript w tabId url st)) st
  /\ (fst (Supervisor.ensureContentScript w tabId url st) = true ->
      Vocabulary.recorded_ready tabId (snd (Supervisor.ensureContentScript w tabId url st)))
  /\ (is_Some (Supervisor.contentScriptStatus st !! tabId) ->
      is_Some (Supervisor.contentScriptStatus
                 (snd (Supervisor.ensureContentScript w tabId url st)) !! tabId)).
Proof. apply ensure_table. Qed.

(** ** The page-content handler *)

Section PageFacts.
Import Supervisor.




End PageFacts.



(** X18. The flag [aiGenerated] of a content answer says nothing about
    the model: without the Prompt API and without a cached entry, the
    answer carries the three fixed fallback suggestions and still
    [aiGenerated: true], and nothing is cached. *)
Theorem aiGenerated_without_a_model
    (w : PageRequest.World) (st st' : PageRequest.State)
    (content title url : string) (suggest : list string) (flag : bool) :
  PageRequest.handlePageContentRequest w st
  = (PageRequest.RespContent content title url suggest flag, st') ->
  Suggestions.capability (PageRequest.provider w) = false ->
  Suggestions.has (Suggestions.simpleHash (content +:+ title))
    (Suggestions.suggestionCache (PageRequest.suggestions st)) = false ->
  flag = true
  /\ suggest = Suggestions.getFallbackSuggestions
  /\ PageRequest.suggestions st' = PageRequest.suggestions st.
Proof.
  unfold PageRequest.handlePageContentRequest. intros H Hcap Hmiss.
  assert (Hfb : forall x, PageRequest.getFallbackPageInfo w
                          <> PageRequest.RespContent content title url suggest x).
  { intros x. unfold PageRequest.getFallbackPageInfo.
    destruct (PageRequest.tab_lookup w); discriminate. }
  assert (Hwr : forall reason x, PageRequest.with_reason reason (PageRequest.getFallbackPageInfo w)
                          <> PageRequest.RespContent content title url suggest x).
  { intros reason x. unfold PageRequest.getFallbackPageInfo.
    destruct (PageRequest.tab_lookup w); discriminate. }
  destruct (PageRequest.tabs w) as [message | [[ | tab others] | ]]; try discriminate H.
  destruct (Supervisor.isRestrictedUrl (PageRequest.tab_url tab)).
  { injection H as H _. now apply Hfb in H. }
  destruct (Supervisor.ensureContentScript _ _ _ _) as [isReady sup].
  destruct isReady; cbn [negb] in H.
  2:{ injection H as H _. now apply Hfb in H. }
  destruct (PageRequest.extraction w) as [ | | c t u | error].
  - injection H as H _. now apply Hfb in H.
  - injection H as H _. now apply Hwr in H.
  - cbn [PageRequest.suggestions PageRequest.supervisor] in H.
    destruct (Suggestions.generateAISuggestions (PageRequest.provider w) c t
                (PageRequest.suggestions st)) as [suggested sug] eqn:Hgen.
    injection H as -> -> -> -> <- <-.
    unfold Suggestions.generateAISuggestions in Hgen.
    rewrite Hmiss, Hcap in Hgen. cbn [negb] in Hgen. injection Hgen as <- <-.
    repeat split.
  - injection H as H _. now apply Hwr in H.
Qed.

(** ** The service worker and the content script together *)

Section HostingFacts.
Import Supervisor.

Lemma hosting_tabs script_at extracting tab clock injecting provider :
  PageRequest.tabs (Agent.hosting script_at extracting tab clock injecting provider)
  = PageRequest.QueryTabs (Some [tab]).
Proof. reflexivity. Qed.

Lemma ping_ready (w : World) (tabId timeout : nat) (st : State) (r : PingReply) (now : nat) :
  ping_outcome w (probes (trace st)) = PingAnswer (Some r) now ->
  reply_alive r = true ->
  pingContentScript w tabId timeout st
  = (reply_ready r,
     MkState (<[tabId := MkAgentStatus true (reply_ready r) (reply_url r) (reply_title r) now]>
                (contentScriptStatus st))
       (trace st ++ [Probe tabId timeout])).
Proof.
  intros Ho Ha. unfold pingContentScript. rewrite Ho, Ha. reflexivity.
Qed.

Lemma extraction_initialised (script : Agent.Script) (page : Content.Page) :
  Agent.document script = inr page ->
  Agent.extraction (Agent.initializeContentScript script)
  = PageRequest.ExtractSuccess (Content.extractPageContent page)
      (Agent.documentTitle script) (Agent.href script).
Proof.
  intros H. unfold Agent.extraction, Agent.onMessage, Agent.initializeContentScript.
  cbn [Agent.isContentScriptReady Agent.document negb Agent.href Agent.documentTitle].
  now rewrite H.
Qed.

End HostingFacts.

(** X19. A page whose content script has been initialised is served by
    one probe and no injection: the answer is the content that
    [extractPageContent] computes in the page, with the title and the
    location of the document, and the status table records the tab as
    alive and ready with that location. *)
Theorem initialised_script_serves_content
    (script_at : nat -> option Agent.Script) (script : Agent.Script) (page : Content.Page)
    (tab : PageRequest.Tab) (clock : nat -> nat) (injecting : nat -> bool)
    (provider : Suggestions.Provider) (st : PageRequest.State) :
  Supervisor.isRestrictedUrl (PageRequest.tab_url tab) = false ->
  script_at (Supervisor.probes (Supervisor.trace (PageRequest.supervisor st)))
  = Some (Agent.initializeContentScript script) ->
  Agent.document script = inr page ->
  let w := Agent.hosting script_at (Some (Agent.initializeContentScript script))
             tab clock injecting provider in
  let r := PageRequest.handlePageContentRequest w st in
  fst r = PageRequest.RespContent (Content.extractPageContent page)
            (Agent.documentTitle script) (Agent.href script)
            (fst (Suggestions.generateAISuggestions provider
                    (Content.extractPageContent page) (Agent.documentTitle script)
                    (PageRequest.suggestions st)))
            true
  /\ Supervisor.trace (PageRequest.supervisor (snd r))
     = Supervisor.trace (PageRequest.supervisor st)
       ++ [Supervisor.Probe (PageRequest.tab_id tab) 3000]
  /\ Supervisor.contentScriptStatus (PageRequest.supervisor (snd r)) !! PageRequest.tab_id tab
     = Some (Supervisor.MkAgentStatus true true (Agent.href script) (Agent.documentTitle script)
               (clock (Supervisor.probes (Supervisor.trace (PageRequest.supervisor st))))).
Proof.
  intros Hurl Hat Hdoc w r. subst r w.
  unfold PageRequest.handlePageContentRequest. rewrite hosting_tabs, Hurl.
  unfold Supervisor.ensureContentScript. rewrite Hurl.
  rewrite (ping_ready _ _ _ _
             (Supervisor.MkPingReply true true (Agent.href script) (Agent.documentTitle script))
             (clock (Supervisor.probes (Supervisor.trace (PageRequest.supervisor st)))));
    [ | cbn [Agent.hosting PageRequest.agent Supervisor.ping_outcome]; rewrite Hat; reflexivity
      | reflexivity].
  cbn [Supervisor.reply_ready negb].
  cbn [Agent.hosting PageRequest.extraction PageRequest.provider
       PageRequest.supervisor PageRequest.suggestions].
  rewrite (extraction_initialised script page Hdoc).
  destruct (Suggestions.generateAISuggestions _ _ _ _) as [suggested sug].
  cbn [fst snd PageRequest.supervisor Supervisor.trace Supervisor.contentScriptStatus
       Supervisor.reply_url Supervisor.reply_title Supervisor.default_timeout].
  split; [reflexivity | split; [reflexivity | apply lookup_insert_eq]].
Qed.

Lemma aiGenerated_without_a_model_witness :
  let w := Scenarios.served
             (fun _ => Some (Agent.initializeContentScript Scenarios.example_script))
             (Some (Agent.initializeContentScript Scenarios.example_script)) in
  fst (PageRequest.handlePageContentRequest w Scenarios.fresh_start)
  = PageRequest.RespContent "Hello world" "Example" "https://example.org/"
      ["Summarize this page"; "What are the main points?"; "Explain this in simple terms"] true
  /\ PageRequest.suggestions (snd (PageRequest.handlePageContentRequest w Scenarios.fresh_start))
     = PageRequest.suggestions Scenarios.fresh_start.
Proof.
  intros w. split; [reflexivity | ].
  apply (aiGenerated_without_a_model w Scenarios.fresh_start
           (snd (PageRequest.handlePageContentRequest w Scenarios.fresh_start))
           "Hello world" "Example" "https://example.org/"
           Suggestions.getFallbackSuggestions true).
  - vm_compute. reflexivity.
  - reflexivity.
  - reflexivity.
Defined.

Lemma initialised_script_serves_content_witness :
  let w := Scenarios.served
             (fun _ => Some (Agent.initializeContentScript Scenarios.example_script))
             (Some (Agent.initializeContentScript Scenarios.example_script)) in
  fst (PageRequest.handlePageContentRequest w Scenarios.fresh_start)
  = PageRequest.RespContent "Hello world" "Example" "https://example.org/"
      Suggestions.getFallbackSuggestions true.
Proof.
  intros w.
  destruct (initialised_script_serves_content
              (fun _ => Some (Agent.initializeContentScript Scenarios.example_script))
              Scenarios.example_script (Content.MkPage (fun _ => None) "Hello   world ")
              Scenarios.example_tab (fun k => 100 + k) (fun _ => false) Scenarios.no_model
              Scenarios.fresh_start eq_refl eq_refl eq_refl) as [H _].
  exact H.
Defined.

Section RetryFacts.
Import Supervisor.

Lemma ping_not_ready (w : World) (tabId timeout : nat) (st : State) (r : PingReply) (now : nat) :
  ping_outcome w (probes (trace st)) = PingAnswer (Some r) now ->
  reply_alive r = true -> reply_ready r = false ->
  pingContentScript w tabId timeout st
  = (false,
     MkState (<[tabId := MkAgentStatus true false (reply_url r) (reply_title r) now]>
                (contentScriptStatus st))
       (trace st ++ [Probe tabId timeout])).
Proof.
  intros Ho Ha Hr. rewrite (ping_ready w tabId timeout st r now Ho Ha). now rewrite Hr.
Qed.

Lemma failed_reason_nonempty (script : Agent.Script) (error url title : string) :
  Agent.onMessage Agent.ExtractContent script = Some (Agent.Failed error url title) ->
  String.eqb error EmptyString = false.
Proof.
  unfold Agent.onMessage. destruct (Agent.isContentScriptReady script); cbn [negb].
  - destruct (Agent.document script); intros [= <- _ _]; reflexivity.
  - intros [= <- _ _]. reflexivity.
Qed.

End RetryFacts.

(** X20. A content script that answers the probe but has not been
    initialised counts as absent: the service worker injects the
    script again. When that injection fails the request is answered
    with the fallback payload of the tab, after one probe and one
    injection, and the status table keeps the tab as alive but not
    ready. *)
Theorem uninitialised_script_is_injected_again
    (script_at : nat -> option Agent.Script) (extracting : option Agent.Script)
    (script : Agent.Script) (tab : PageRequest.Tab) (clock : nat -> nat)
    (injecting : nat -> bool) (provider : Suggestions.Provider) (st : PageRequest.State) :
  Supervisor.isRestrictedUrl (PageRequest.tab_url tab) = false ->
  script_at (Supervisor.probes (Supervisor.trace (PageRequest.supervisor st))) = Some script ->
  Agent.isContentScriptReady script = false ->
  injecting (Supervisor.injections (Supervisor.trace (PageRequest.supervisor st))) = false ->
  let w := Agent.hosting script_at extracting tab clock injecting provider in
  let r := PageRequest.handlePageContentRequest w st in
  fst r = PageRequest.RespFallback (PageRequest.tab_url tab) (PageRequest.tab_title tab)
            Suggestions.getFallbackSuggestions "Content script unavailable on this page type"
  /\ Supervisor.trace (PageRequest.supervisor (snd r))
     = Supervisor.trace (PageRequest.supervisor st)
       ++ [Supervisor.Probe (PageRequest.tab_id tab) 3000;
           Supervisor.Inject (PageRequest.tab_id tab)]
  /\ Supervisor.contentScriptStatus (PageRequest.supervisor (snd r)) !! PageRequest.tab_id tab
     = Some (Supervisor.MkAgentStatus true false (Agent.href script)
               (Agent.documentTitle script)
               (clock (Supervisor.probes (Supervisor.trace (PageRequest.supervisor st)))))
  /\ PageRequest.suggestions (snd r) = PageRequest.suggestions st.
Proof.
  intros Hurl Hat Hready Hinject w r. subst r w.
  unfold PageRequest.handlePageContentRequest. rewrite hosting_tabs, Hurl.
  unfold Supervisor.ensureContentScript. rewrite Hurl.
  rewrite (ping_not_ready _ _ _ _
             (Supervisor.MkPingReply true false (Agent.href script) (Agent.documentTitle script))
             (clock (Supervisor.probes (Supervisor.trace (PageRequest.supervisor st)))));
    [ | cbn [Agent.hosting PageRequest.agent Supervisor.ping_outcome]; rewrite Hat;
        unfold Agent.ping_outcome, Agent.onMessage; rewrite Hready; reflexivity
      | reflexivity | reflexivity].
  cbn [Supervisor.trace Agent.hosting PageRequest.agent Supervisor.inject_ok].
  rewrite injections_snoc. cbn [Supervisor.is_inject]. rewrite Nat.add_0_r, Hinject.
  cbn [negb fst snd PageRequest.supervisor PageRequest.suggestions Supervisor.log
       Supervisor.trace Supervisor.contentScriptStatus Supervisor.reply_url
       Supervisor.reply_title Supervisor.default_timeout].
  split; [reflexivity | ].
  split; [now rewrite <- List.app_assoc | ].
  split; [apply lookup_insert_eq | reflexivity].
Qed.

Lemma uninitialised_script_is_injected_again_witness :
  let w := Scenarios.served (fun _ => Some Scenarios.example_script) None in
  fst (PageRequest.handlePageContentRequest w Scenarios.fresh_start)
  = PageRequest.RespFallback (Js.Text "https://example.org/") (Js.Text "Example")
      Suggestions.getFallbackSuggestions "Content script unavailable on this page type".
Proof.
  intros w.
  destruct (uninitialised_script_is_injected_again
              (fun _ => Some Scenarios.example_script) None Scenarios.example_script
              Scenarios.example_tab (fun k => 100 + k) (fun _ => false) Scenarios.no_model
              Scenarios.fresh_start eq_refl eq_refl eq_refl eq_refl) as [H _].
  exact H.
Defined.

(** X21. When the probe finds the script ready but the extraction then
    fails in the page, the answer is the fallback payload of the tab
    with the reason the script gave: [Content script not ready] when
    the flag was not set at that moment, and the message of the
    exception behind [Failed to extract page content: ] when walking
    the document threw. The generic reason is never needed, and no
    suggestion is generated. *)
Theorem failed_extraction_reports_its_reason
    (script_at : nat -> option Agent.Script) (probed extracting : Agent.Script)
    (tab : PageRequest.Tab) (clock : nat -> nat) (injecting : nat -> bool)
    (provider : Suggestions.Provider) (st : PageRequest.State) (error url title : string) :
  Supervisor.isRestrictedUrl (PageRequest.tab_url tab) = false ->
  script_at (Supervisor.probes (Supervisor.trace (PageRequest.supervisor st)))
  = Some (Agent.initializeContentScript probed) ->
  Agent.onMessage Agent.ExtractContent extracting = Some (Agent.Failed error url title) ->
  let w := Agent.hosting script_at (Some extracting) tab clock injecting provider in
  let r := PageRequest.handlePageContentRequest w st in
  fst r = PageRequest.RespFallback (PageRequest.tab_url tab) (PageRequest.tab_title tab)
            Suggestions.getFallbackSuggestions error
  /\ PageRequest.suggestions (snd r) = PageRequest.suggestions st
  /\ (error = "Content script not ready"
      \/ exists message, Agent.document extracting = inl message
                         /\ error = "Failed to extract page content: " +:+ message).
Proof.
  intros Hurl Hat Hfail w r. subst r w.
  unfold PageRequest.handlePageContentRequest. rewrite hosting_tabs, Hurl.
  unfold Supervisor.ensureContentScript. rewrite Hurl.
  rewrite (ping_ready _ _ _ _
             (Supervisor.MkPingReply true true (Agent.href probed) (Agent.documentTitle probed))
             (clock (Supervisor.probes (Supervisor.trace (PageRequest.supervisor st)))));
    [ | cbn [Agent.hosting PageRequest.agent Supervisor.ping_outcome]; rewrite Hat; reflexivity
      | reflexivity].
  cbn [Supervisor.reply_ready negb].
  cbn [Agent.hosting PageRequest.extraction]. unfold Agent.extraction. rewrite Hfail.
  rewrite (failed_reason_nonempty _ _ _ _ Hfail).
  cbn [fst snd PageRequest.suggestions].
  split; [reflexivity | split; [reflexivity | ]].
  unfold Agent.onMessage in Hfail.
  destruct (Agent.isContentScriptReady extracting); cbn [negb] in Hfail.
  - destruct (Agent.document extracting) as [message | page]; [ | discriminate Hfail].
    injection Hfail as <- _ _. right. now exists message.
  - injection Hfail as <- _ _. now left.
Qed.

Lemma failed_extraction_reports_its_reason_witness :
  let w := Scenarios.served
             (fun _ => Some (Agent.initializeContentScript Scenarios.example_script))
             (Some Scenarios.example_script) in
  fst (PageRequest.handlePageContentRequest w Scenarios.fresh_start)
  = PageRequest.RespFallback (Js.Text "https://example.org/") (Js.Text "Example")
      Suggestions.getFallbackSuggestions "Content script not ready".
Proof.
  intros w.
  destruct (failed_extraction_reports_its_reason
              (fun _ => Some (Agent.initializeContentScript Scenarios.example_script))
              Scenarios.example_script Scenarios.example_script
              Scenarios.example_tab (fun k => 100 + k) (fun _ => false) Scenarios.no_model
              Scenarios.fresh_start "Content script not ready" "https://example.org/" "Example"
              eq_refl eq_refl eq_refl) as [H _].
  exact H.
Defined.

(** ** The listeners of the service worker *)

Section TableFacts.
Import Supervisor.

Lemma ping_same_table (w : World) (tabId timeout : nat) (table table' : gmap nat AgentStatus)
    (t : list Action) :
  fst (pingContentScript w tabId timeout (MkState table t))
  = fst (pingContentScript w tabId timeout (MkState table' t))
  /\ trace (snd (pingContentScript w tabId timeout (MkState table t)))
     = trace (snd (pingContentScript w tabId timeout (MkState table' t))).
Proof.
  unfold pingContentScript. cbn [trace].
  destruct (ping_outcome w (probes t)) as [ | | [r | ] now | ]; simpl; auto.
  destruct (reply_alive r); simpl; auto.
Qed.

Lemma ensure_same_table (w : World) (tabId : nat) (url : Js.Str)
    (table table' : gmap nat AgentStatus) (t : list Action) :
  fst (ensureContentScript w tabId url (MkState table t))
  = fst (ensureContentScript w tabId url (MkState table' t))
  /\ trace (snd (ensureContentScript w tabId url (MkState table t)))
     = trace (snd (ensureContentScript w tabId url (MkState table' t))).
Proof.
  unfold ensureContentScript. destruct (isRestrictedUrl url); [now split | ].
  pose proof (ping_same_table w tabId default_timeout table table' t) as [Hv Ht].
  destruct (pingContentScript w tabId default_timeout (MkState table t)) as [r1 [c1 t1]].
  destruct (pingContentScript w tabId default_timeout (MkState table' t)) as [r2 [c2 t2]].
  cbn [fst snd trace] in Hv, Ht. subst r2 t2.
  destruct r1; [now split | ]. cbn [trace].
  destruct (inject_ok w (injections t1)); [ | now split].
  unfold log. cbn [trace contentScriptStatus]. apply ping_same_table.
Qed.

End TableFacts.

(** X22. The status table is written but never read by a page
    request: with any other table (so whatever [contentScriptReady]
    notifications, closed tabs and URL changes did to it) the request
    gives the same answer, makes the same probes and injections and
    leaves the suggestion cache the same. A script that announced
    itself ready is still probed. *)
Theorem status_table_is_never_consulted
    (w : PageRequest.World) (table table' : gmap nat Supervisor.AgentStatus)
    (t : list Supervisor.Action) (sug : Suggestions.State) :
  let r := PageRequest.handlePageContentRequest w
             (PageRequest.MkState (Supervisor.MkState table t) sug) in
  let r' := PageRequest.handlePageContentRequest w
              (PageRequest.MkState (Supervisor.MkState table' t) sug) in
  fst r = fst r'
  /\ Supervisor.trace (PageRequest.supervisor (snd r))
     = Supervisor.trace (PageRequest.supervisor (snd r'))
  /\ PageRequest.suggestions (snd r) = PageRequest.suggestions (snd r').
Proof.
  intros r r'. subst r r'. unfold PageRequest.handlePageContentRequest.
  destruct (PageRequest.tabs w) as [message | [[ | tab others] | ]]; try (now repeat split).
  destruct (Supervisor.isRestrictedUrl (PageRequest.tab_url tab)); [now repeat split | ].
  cbn [PageRequest.supervisor PageRequest.suggestions].
  pose proof (ensure_same_table (PageRequest.agent w) (PageRequest.tab_id tab)
                (PageRequest.tab_url tab) table table' t) as [Hv Ht].
  destruct (Supervisor.ensureContentScript _ _ _ (Supervisor.MkState table t)) as [v1 s1].
  destruct (Supervisor.ensureContentScript _ _ _ (Supervisor.MkState table' t)) as [v2 s2].
  cbn [fst snd] in Hv, Ht. subst v2.
  destruct v1; cbn [negb]; [ | now repeat split].
  destruct (PageRequest.extraction w) as [ | | content title url | error];
    try (now repeat split).
  cbn [PageRequest.supervisor PageRequest.suggestions].
  destruct (Suggestions.generateAISuggestions _ _ _ _) as [suggested sug'].
  now repeat split.
Qed.

(** X23. The status entry of a tab follows the tab: a
    [contentScriptReady] notification from a tab records it as alive
    and ready with the announced location, title and time, whatever
    was recorded before, and leaves the other tabs alone; closing the
    tab or changing its URL removes the entry again; an update that
    changes no URL keeps it. A notification without a tab, or from the
    tab id 0, records nothing. *)
Theorem status_entry_follows_the_tab
    (tabId : nat) (url title : string) (now : nat) (changed : Js.Str)
    (st : Supervisor.State) :
  tabId <> 0 ->
  let announced := Dispatcher.onContentScriptReady (Some tabId) url title now st in
  Supervisor.contentScriptStatus announced !! tabId
  = Some (Supervisor.MkAgentStatus true true url title now)
  /\ Vocabulary.same_elsewhere tabId announced st
  /\ Vocabulary.recorded_ready tabId announced
  /\ Supervisor.contentScriptStatus (Dispatcher.onTabRemoved tabId announced) !! tabId = None
  /\ Vocabulary.same_elsewhere tabId (Dispatcher.onTabRemoved tabId announced) st
  /\ Dispatcher.onTabUpdated tabId changed announced
     = (if Js.truthy changed then Dispatcher.onTabRemoved tabId announced else announced)
  /\ Dispatcher.onContentScriptReady (Some 0) url title now st = st
  /\ Dispatcher.onContentScriptReady None url title now st = st.
Proof.
  intros Hid announced. subst announced. unfold Dispatcher.onContentScriptReady.
  destruct (Nat.eqb_spec tabId 0) as [-> | _]; [contradiction | ].
  assert (Hl : forall m : gmap nat Supervisor.AgentStatus,
             <[tabId := Supervisor.MkAgentStatus true true url title now]> m !! tabId
             = Some (Supervisor.MkAgentStatus true true url title now))
    by (intros m; apply lookup_insert_eq).
  split; [apply Hl | ].
  split; [intros t Ht; cbn; now rewrite lookup_insert_ne | ].
  split; [eexists; split; [apply Hl | now split] | ].
  match goal with
  | |- context [Dispatcher.onTabRemoved tabId ?announced] =>
      assert (Hrem : Dispatcher.onTabRemoved tabId announced
                     = Supervisor.MkState
                         (delete tabId (Supervisor.contentScriptStatus announced))
                         (Supervisor.trace st))
        by (unfold Dispatcher.onTabRemoved; cbn [Supervisor.contentScriptStatus];
            rewrite Hl; reflexivity)
  end.
  split; [rewrite Hrem; apply lookup_delete_eq | ].
  split.
  { rewrite Hrem. intros t Ht. cbn. rewrite lookup_delete_ne by auto.
    now rewrite lookup_insert_ne. }
  split; [reflexivity | ]. split; reflexivity.
Qed.

Lemma status_entry_follows_the_tab_witness :
  let announced :=
    Dispatcher.onContentScriptReady (Some 5) "https://example.org/" "Example" 100
      (Supervisor.MkState ∅ []) in
  Vocabulary.recorded_ready 5 announced
  /\ Supervisor.contentScriptStatus (Dispatcher.onTabRemoved 5 announced) !! 5 = None.
Proof.
  intros announced.
  destruct (status_entry_follows_the_tab 5 "https://example.org/" "Example" 100 Js.Undefined
              (Supervisor.MkState ∅ [])) as (_ & _ & Hready & Hgone & _).
  - discriminate.
  - split; [exact Hready | exact Hgone].
Defined.

(** ** The [promptAPI] branch *)

Section MessageFacts.
Import Dispatcher.

Lemma prefix_app (sub a b : string) :
  String.prefix sub a = true -> String.prefix sub (a +:+ b) = true.
Proof.
  revert a. induction sub as [ | c sub IH]; intros a H.
  - now destruct (a +:+ b).
  - destruct a as [ | d a]; [discriminate H | ].
    change (String d a +:+ b) with (String d (a +:+ b)). simpl in H |- *.
    destruct (Ascii.ascii_dec c d); [now apply IH | discriminate H].
Qed.

Lemma includes_app (a b sub : string) :
  includes a sub = true -> includes (a +:+ b) sub = true.
Proof.
  induction a as [ | d a IH]; intros H.
  - simpl in H. rewrite orb_false_r in H.
    destruct sub; [ | discriminate H]. now destruct (EmptyString +:+ b).
  - change (String d a +:+ b) with (String d (a +:+ b)).
    cbn [includes] in H |- *. apply orb_true_iff in H as [H | H].
    + apply (prefix_app _ _ b) in H.
      change (String d a +:+ b) with (String d (a +:+ b)) in H. now rewrite H.
    + rewrite (IH H). apply orb_true_r.
Qed.

Lemma download_failure_is_friendly (message : string) :
  Vocabulary.friendly (userMessage ("Failed to download AI model: " +:+ message)).
Proof.
  unfold userMessage, Vocabulary.friendly.
  destruct (includes _ "not available"); [now left | ].
  destruct (includes _ "downloading"); [now right; left | ].
  rewrite (includes_app "Failed to download AI model: " message "download" eq_refl).
  now right; right.
Qed.

End MessageFacts.

(** X24. When [handlePromptAPI] itself refuses a request (no Prompt
    API, model unavailable, model still downloading, or the download
    failed) the popup is shown one of the three fixed messages, never
    the raw text; the raw text is passed on as [originalError]. A
    missing API or model gives the not-available message, a running
    download the downloading message. *)
Theorem own_refusals_are_categorised
    (p : Session.Provider) (requested : Js.Str) (now random : string) (st : Session.State) :
  Vocabulary.refused_early p ->
  exists original,
    fst (Dispatcher.onPromptAPI p requested now random st)
    = Dispatcher.PromptFailure (Dispatcher.userMessage original) original
        (Dispatcher.effectiveSessionId requested now random)
    /\ Vocabulary.friendly (Dispatcher.userMessage original)
    /\ (Session.capability p = false
        \/ Session.availability p = Lifecycle.Reports "unavailable" ->
        Dispatcher.userMessage original = Dispatcher.not_available_message)
    /\ (Session.capability p = true ->
        Session.availability p = Lifecycle.Reports "downloading" ->
        Dispatcher.userMessage original = Dispatcher.downloading_message).
Proof.
  intros Hrefused. unfold Dispatcher.onPromptAPI, Session.handlePromptAPI, Session.attempt.
  destruct (Session.capability p) eqn:Hcap; cbn [negb].
  2:{ eexists. split; [reflexivity | ]. split; [now left | ]. split; [reflexivity | discriminate]. }
  destruct Hrefused as [Hc | [Hav | [Hav | [Hav Hdl]]]]; [congruence | | | ]; rewrite Hav.
  - eexists. split; [reflexivity | ]. split; [now left | ].
    split; [reflexivity | intros _ [=]].
  - eexists. split; [reflexivity | ]. split; [now right; left | ].
    split; [intros [[=] | [=]] | reflexivity].
  - cbn [String.eqb orb]. unfold Session.handleModelDownload.
    replace (String.eqb "downloadable" "unavailable") with false by reflexivity.
    replace (String.eqb "downloadable" "downloadable") with true by reflexivity.
    cbn [orb].
    destruct (Session.download p) as [session [message | ] | message]; [ | discriminate Hdl | ].
    + eexists. split; [reflexivity | ].
      split; [apply download_failure_is_friendly | ]. split; [intros [[=] | [=]] | intros _ [=]].
    + eexists. split; [reflexivity | ].
      split; [apply download_failure_is_friendly | ]. split; [intros [[=] | [=]] | intros _ [=]].
Qed.

Lemma own_refusals_are_categorised_witness :
  exists original,
    fst (Dispatcher.onPromptAPI
           (Session.MkProvider true (Lifecycle.Reports "downloadable")
              (Session.DownloadFailed "timeout") None (inl "") [] [] [] Session.Exhausted []
              (Session.Err ""))
           Js.Undefined "17" "0.5" Scenarios.idle)
    = Dispatcher.PromptFailure Dispatcher.download_failed_message original
        (Js.Text "session_17_0.5").
Proof.
  destruct (own_refusals_are_categorised
              (Session.MkProvider true (Lifecycle.Reports "downloadable")
                 (Session.DownloadFailed "timeout") None (inl "") [] [] [] Session.Exhausted []
                 (Session.Err ""))
              Js.Undefined "17" "0.5" Scenarios.idle) as (original & Hr & _).
  - right; right; right. split; reflexivity.
  - exists original. rewrite Hr. vm_compute in Hr.
    injection Hr as _ <-. reflexivity.
Defined.

(** ** The session table after a request *)

Section UnregisterFacts.
Import Session.

Lemma handlePromptAPI_unregisters (p : Provider) (sessionId : Js.Str) (st : State) :
  Js.truthy sessionId = true ->
  has_session sessionId (snd (handlePromptAPI p sessionId st)) = false.
Proof.
  intros Ht. unfold handlePromptAPI.
  destruct (attempt p sessionId st) as [[result session] st']. cbn [snd].
  unfold cleanup. rewrite Ht. cbn [andb].
  set (st'' := match session with Some h => emit (Destroyed h) st' | None => st' end).
  destruct (has_session sessionId st'') eqn:E; [apply has_session_delete_same | exact E].
Qed.

Lemma effectiveSessionId_truthy (requested : Js.Str) (now random : string) :
  Js.truthy (Dispatcher.effectiveSessionId requested now random) = true.
Proof.
  unfold Dispatcher.effectiveSessionId.
  destruct (Js.truthy requested) eqn:E; [exact E | reflexivity].
Qed.

End UnregisterFacts.

(** X25. A [promptAPI] request always runs under a truthy session id
    (the requested one, or a generated [session_..] id when none was
    given), answers with that id, and when it answers the id is not in
    the session table any more, whatever happened in between and
    whoever had registered the id. *)
Theorem prompt_request_leaves_no_entry
    (p : Session.Provider) (requested : Js.Str) (now random : string) (st : Session.State) :
  let sessionId := Dispatcher.effectiveSessionId requested now random in
  let r := Dispatcher.onPromptAPI p requested now random st in
  Js.truthy sessionId = true
  /\ (if Js.truthy requested then sessionId = requested
      else sessionId = Js.Text ("session_" +:+ now +:+ "_" +:+ random))
  /\ Vocabulary.answered_id (fst r) = sessionId
  /\ Session.has_session sessionId (snd r) = false.
Proof.
  intros sessionId r. subst r sessionId.
  pose proof (effectiveSessionId_truthy requested now random) as Ht.
  split; [exact Ht | ].
  split; [unfold Dispatcher.effectiveSessionId; now destruct (Js.truthy requested) | ].
  pose proof (handlePromptAPI_unregisters p _ st Ht) as Hun.
  unfold Dispatcher.onPromptAPI.
  destruct (Session.handlePromptAPI p _ st) as [[response | message] st']; now split.
Qed.

(** ** The text a request answers with *)

Section AnswerFacts.
Import Session.

Variable sessionId : Js.Str.

Lemma stream_loop_text (todo : list Step) (full : string) (st : State) :
  exists n,
    n <= List.length todo
    /\ snd (fst (stream_loop sessionId todo full st)) = full +:+ joined (List.firstn n todo)
    /\ (fst (fst (stream_loop sessionId todo full st)) = false -> n = List.length todo)
    /\ (Js.truthy sessionId = false -> fst (fst (stream_loop sessionId todo full st)) = false).
Proof.
  revert full st. induction todo as [ | step rest IH]; intros full st.
  - exists 0. simpl. rewrite string_app_nil_r. auto.
  - cbn [stream_loop].
    set (st1 := run_turns (before step) st).
    destruct (Js.truthy sessionId && negb (has_session sessionId st1)) eqn:Hbreak.
    + exists 0. cbn [fst snd List.firstn joined List.length]. rewrite string_app_nil_r.
      split; [lia | ]. split; [reflexivity | ]. split; [discriminate | ].
      intros Hf. rewrite Hf in Hbreak. discriminate Hbreak.
    + assert (Hnext : forall st2, exists n,
                 n <= List.length (step :: rest)
                 /\ snd (fst (stream_loop sessionId rest (full +:+ chunk step) st2))
                    = full +:+ joined (List.firstn n (step :: rest))
                 /\ (fst (fst (stream_loop sessionId rest (full +:+ chunk step) st2)) = false ->
                     n = List.length (step :: rest))
                 /\ (Js.truthy sessionId = false ->
                     fst (fst (stream_loop sessionId rest (full +:+ chunk step) st2)) = false)).
      { intros st2. destruct (IH (full +:+ chunk step) st2) as (n & Hn & Htext & Hall & Hf).
        exists (S n). cbn [List.firstn joined List.length].
        split; [lia | ]. split; [now rewrite Htext, string_app_assoc | ].
        split; [intros Hb; now rewrite (Hall Hb) | exact Hf]. }
      destruct (negb (connected st1)); apply Hnext.
Qed.

Lemma streamResponse_text (p : Provider) (st : State) :
  (exists n, n <= List.length (steps p)
             /\ fst (streamResponse p sessionId st) = Ok (joined (List.firstn n (steps p)))
             /\ (Js.truthy sessionId = false -> n = List.length (steps p)))
  \/ (ending p = Thrown /\ fst (streamResponse p sessionId st) = fallback p).
Proof.
  unfold streamResponse.
  destruct (stream_loop_text (steps p) EmptyString st) as (n & Hn & Htext & Hall & Hf).
  destruct (stream_loop sessionId (steps p) EmptyString st) as [[broke full] st1].
  cbn [fst snd] in Htext, Hall, Hf. change (EmptyString +:+ ?x) with x in Htext. subst full.
  destruct broke.
  - left. exists n. split; [exact Hn | ]. split; [reflexivity | ].
    intros Hfalsy. specialize (Hf Hfalsy). discriminate Hf.
  - destruct (ending p) eqn:He.
    + left. exists n. split; [exact Hn | ]. split; [reflexivity | intros _; now apply Hall].
    + right. now split.
Qed.

End AnswerFacts.

(** X26. Once the session is created, a request answers either with
    the chunks of the first [n] steps of the stream, joined, or, when
    the stream threw, with the outcome of the non-streaming
    [session.prompt]. So a cancelled request is answered as a success
    with the text received so far, and a request without a truthy
    session id cannot be cut short: it gets all the chunks. *)
Theorem request_answers_with_a_prefix_of_the_stream
    (p : Session.Provider) (sessionId : Js.Str) (st : Session.State) (h : Session.Handle) :
  Session.ready p h ->
  (exists n, n <= List.length (Session.steps p)
             /\ fst (Session.handlePromptAPI p sessionId st)
                = Session.Ok (Session.joined (List.firstn n (Session.steps p)))
             /\ (Js.truthy sessionId = false -> n = List.length (Session.steps p)))
  \/ (Session.ending p = Session.Thrown
      /\ fst (Session.handlePromptAPI p sessionId st) = Session.fallback p).
Proof.
  intros Hready. unfold Session.handlePromptAPI.
  rewrite (attempt_ready p sessionId st h Hready). cbv zeta.
  pose proof (streamResponse_text sessionId p
                (Session.register sessionId h
                   (Session.run_turns (Session.before_register p) st))) as H.
  destruct (Session.streamResponse p sessionId _) as [result st2]. cbn [fst] in H |- *.
  exact H.
Qed.

Lemma request_answers_with_a_prefix_of_the_stream_witness :
  exists n, n <= 4
            /\ fst (Session.handlePromptAPI Scenarios.cancelled_after_three (Js.Text "s")
                      Scenarios.idle)
               = Session.Ok (Session.joined
                               (List.firstn n (Session.steps Scenarios.cancelled_after_three))).
Proof.
  destruct (request_answers_with_a_prefix_of_the_stream Scenarios.cancelled_after_three
              (Js.Text "s") Scenarios.idle 7) as [(n & Hn & Hr & _) | [Hthrown _]].
  - repeat split; reflexivity.
  - exists n. split; [exact Hn | exact Hr].
  - discriminate Hthrown.
Defined.

(** ** A request that nobody watches *)

Section SilentFacts.
Import Session Vocabulary.

Variable sessionId : Js.Str.

Lemma streamed_snoc (l : list Event) (e : Event) :
  is_streamed e = false -> streamed (l ++ [e]) = streamed l.
Proof.
  intros H. unfold streamed. rewrite List.filter_app. simpl. rewrite H. apply List.app_nil_r.
Qed.

Lemma silent_emit (base : list Event) (e : Event) (st : State) :
  is_streamed e = false -> silent_since base st -> silent_since base (emit e st).
Proof.
  intros He [Hc Hl]. split; [exact Hc | ]. cbn [emit log]. now rewrite streamed_snoc.
Qed.

Lemma silent_delete (base : list Event) (s : Js.Str) (st : State) :
  silent_since base st -> silent_since base (delete_session s st).
Proof. intros H. destruct s; exact H. Qed.

Lemma silent_register (base : list Event) (s : Js.Str) (h : Handle) (st : State) :
  silent_since base st -> silent_since base (register s h st).
Proof.
  intros H. unfold register. destruct s as [ | | k]; try exact H.
  destruct (Js.truthy (Js.Text k)); exact H.
Qed.

Lemma silent_cleanup (base : list Event) (o : option Handle) (s : Js.Str) (st : State) :
  silent_since base st -> silent_since base (cleanup o s st).
Proof.
  intros H. unfold cleanup.
  assert (H' : silent_since base (match o with Some h => emit (Destroyed h) st | None => st end))
    by (destruct o; [now apply silent_emit | exact H]).
  match goal with |- context [if ?b then _ else _] => destruct b end;
    [now apply silent_delete | exact H'].
Qed.

Lemma silent_cancel (base : list Event) (s : Js.Str) (throws : bool) (st : State) :
  silent_since base st -> silent_since base (snd (cancelSession s throws st)).
Proof.
  intros H. unfold cancelSession.
  destruct (lookup_session s st) as [h | ]; [ | now apply silent_emit].
  destruct throws; cbn [snd].
  - apply silent_emit; [reflexivity | ]. now apply silent_emit.
  - apply silent_emit; [reflexivity | ]. apply silent_delete. now apply silent_emit.
Qed.

Lemma silent_turn (base : list Event) (t : Turn) (st : State) :
  connects t = false -> silent_since base st -> silent_since base (run_turn st t).
Proof.
  intros Ht H. destruct t as [s thr | s h | s o | port | port]; cbn [run_turn].
  - now apply silent_cancel.
  - now apply silent_register.
  - now apply silent_cleanup.
  - discriminate Ht.
  - destruct H as [Hc Hl]. split; [ | exact Hl].
    cbn [with_connections activeConnections]. rewrite Hc. apply empty_difference_L.
Qed.

Lemma silent_turns (base : list Event) (ts : list Turn) (st : State) :
  forallb (fun t => negb (connects t)) ts = true ->
  silent_since base st -> silent_since base (run_turns ts st).
Proof.
  revert st. induction ts as [ | t ts IH]; intros st Hts H; [exact H | ].
  cbn [forallb] in Hts. apply andb_prop in Hts as [Ht Hts]. apply negb_true_iff in Ht.
  cbn [run_turns List.fold_left]. apply IH; [exact Hts | now apply silent_turn].
Qed.

Lemma silent_loop (base : list Event) (todo : list Step) (full : string) (st : State) :
  forallb (fun t => negb (connects t)) (List.concat (List.map before todo)) = true ->
  silent_since base st -> silent_since base (snd (stream_loop sessionId todo full st)).
Proof.
  revert full st. induction todo as [ | step rest IH]; intros full st Hts H; [exact H | ].
  cbn [List.map List.concat] in Hts. rewrite forallb_app in Hts.
  apply andb_prop in Hts as [Hstep Hrest].
  cbn [stream_loop].
  pose proof (silent_turns base (before step) st Hstep H) as H1.
  set (st1 := run_turns (before step) st) in *.
  destruct (Js.truthy sessionId && negb (has_session sessionId st1)); [exact H1 | ].
  assert (Hc : connected st1 = false).
  { unfold connected. destruct H1 as [-> _]. reflexivity. }
  rewrite Hc. cbn [negb]. now apply IH.
Qed.

Lemma silent_request (p : Provider) (st : State) :
  unobserved p st ->
  silent_since (log st) (snd (handlePromptAPI p sessionId st)).
Proof.
  intros [Hconn Hsched]. unfold schedule in Hsched.
  rewrite !forallb_app in Hsched.
  apply andb_prop in Hsched as [Hreg Hsched]. apply andb_prop in Hsched as [Hsteps Hsched].
  apply andb_prop in Hsched as [Hend Hfb].
  assert (H0 : silent_since (log st) st) by now split.
  unfold handlePromptAPI.
  assert (Hattempt : silent_since (log st) (snd (attempt p sessionId st))).
  { unfold attempt.
    destruct (capability p); cbn [negb]; [ | exact H0].
    pose proof (silent_turns _ _ _ Hreg H0) as H1.
    set (st1 := run_turns (before_register p) st) in *.
    destruct (availability p) as [value | message]; [ | exact H1].
    destruct (String.eqb value "unavailable"); [exact H1 | ].
    assert (Hdl : silent_since (log st)
                    (snd (if String.eqb value "downloadable" || String.eqb value "downloading"
                          then handleModelDownload p value st1 else (None, st1)))).
    { destruct (_ || _); [ | exact H1]. unfold handleModelDownload.
      destruct (String.eqb value "downloadable").
      - destruct (download p) as [session [message | ] | message]; cbn [snd];
          try exact H1; now apply silent_emit.
      - destruct (String.eqb value "downloading"); exact H1. }
    destruct (if _ || _ then _ else _) as [[message | ] st2]; cbn [snd] in Hdl; [exact Hdl | ].
    destruct (params_failure p); [exact Hdl | ].
    destruct (created p) as [message | session]; [exact Hdl | ].
    pose proof (silent_register _ sessionId session _ Hdl) as H3.
    unfold streamResponse.
    pose proof (silent_loop _ (steps p) EmptyString _ Hsteps H3) as H4.
    destruct (stream_loop sessionId (steps p) EmptyString _) as [[broke full] st4].
    cbn [snd] in H4. destruct broke; [exact H4 | ].
    pose proof (silent_turns _ _ _ Hend H4) as H5.
    destruct (ending p); [exact H5 | ]. cbn [snd]. now apply silent_turns. }
  destruct (attempt p sessionId st) as [[result session] st']. cbn [snd] in Hattempt |- *.
  now apply silent_cleanup.
Qed.

End SilentFacts.

(** X27. While no popup is connected and none connects, a request
    sends no [streamingResponse] message at all and no popup appears
    in the connection table; it still runs to its end. *)
Theorem unobserved_request_streams_nothing
    (p : Session.Provider) (sessionId : Js.Str) (st : Session.State) :
  Vocabulary.unobserved p st ->
  Vocabulary.streamed (Session.log (snd (Session.handlePromptAPI p sessionId st)))
  = Vocabulary.streamed (Session.log st)
  /\ Session.activeConnections (snd (Session.handlePromptAPI p sessionId st)) = ∅.
Proof.
  intros H. destruct (silent_request sessionId p st H) as [Hc Hl]. now split.
Qed.

Lemma unobserved_request_streams_nothing_witness :
  Vocabulary.streamed
    (Session.log (snd (Session.handlePromptAPI Scenarios.cancelled_after_three (Js.Text "s")
                         (Session.MkState ∅ ∅ []))))
  = [].
Proof.
  destruct (unobserved_request_streams_nothing Scenarios.cancelled_after_three (Js.Text "s")
              (Session.MkState ∅ ∅ [])) as [H _].
  - split; reflexivity.
  - exact H.
Defined.

(** ** Deliveries that fail *)

Section DeliveryFacts.
Import Session Vocabulary.

Variable sessionId : Js.Str.
Variable outcome : Step -> bool.

Ltac open_alike H :=
  let Hs := fresh "Hs" in
  let Hc := fresh "Hc" in
  let Hl := fresh "Hl" in
  destruct H as [[Hs Hc] Hl];
  match type of Hs with
  | activeSessions ?a = activeSessions ?b =>
      destruct a, b; cbn [activeSessions activeConnections log] in Hs, Hc, Hl; subst
  end.

Lemma alike_refl (a : State) : alike a a.
Proof. repeat split. Qed.

Lemma alike_lookup (s : Js.Str) (a b : State) :
  alike a b -> lookup_session s a = lookup_session s b.
Proof. intros H. open_alike H. reflexivity. Qed.

Lemma alike_has (s : Js.Str) (a b : State) :
  alike a b -> has_session s a = has_session s b.
Proof. intros H. unfold has_session. now rewrite (alike_lookup s a b H). Qed.

Lemma alike_connected (a b : State) : alike a b -> connected a = connected b.
Proof. intros H. open_alike H. reflexivity. Qed.

Lemma alike_emit (e e' : Event) (a b : State) :
  forget_delivery e = forget_delivery e' -> alike a b -> alike (emit e a) (emit e' b).
Proof.
  intros He H. open_alike H. repeat split. cbn [emit log].
  rewrite !List.map_app. cbn [List.map]. now rewrite Hl, He.
Qed.

Lemma alike_delete (s : Js.Str) (a b : State) :
  alike a b -> alike (delete_session s a) (delete_session s b).
Proof. intros H. open_alike H. destruct s; repeat split; assumption. Qed.

Lemma alike_register (s : Js.Str) (h : Handle) (a b : State) :
  alike a b -> alike (register s h a) (register s h b).
Proof.
  intros H. open_alike H. unfold register. destruct s as [ | | k]; try (repeat split; assumption).
  destruct (Js.truthy (Js.Text k)); repeat split; assumption.
Qed.

Lemma alike_cleanup (o : option Handle) (s : Js.Str) (a b : State) :
  alike a b -> alike (cleanup o s a) (cleanup o s b).
Proof.
  intros H. unfold cleanup.
  assert (H' : alike (match o with Some h => emit (Destroyed h) a | None => a end)
                     (match o with Some h => emit (Destroyed h) b | None => b end))
    by (destruct o; [now apply alike_emit | exact H]).
  rewrite (alike_has s _ _ H').
  destruct (Js.truthy s && has_session s _); [now apply alike_delete | exact H'].
Qed.

Lemma alike_cancel (s : Js.Str) (throws : bool) (a b : State) :
  alike a b -> alike (snd (cancelSession s throws a)) (snd (cancelSession s throws b)).
Proof.
  intros H. unfold cancelSession. rewrite (alike_lookup s a b H).
  destruct (lookup_session s b) as [h | ]; [ | now apply alike_emit].
  destruct throws; cbn [snd].
  - apply alike_emit; [reflexivity | ]. now apply alike_emit.
  - apply alike_emit; [reflexivity | ]. apply alike_delete. now apply alike_emit.
Qed.

Lemma alike_turn (t : Turn) (a b : State) : alike a b -> alike (run_turn a t) (run_turn b t).
Proof.
  intros H. destruct t as [s thr | s h | s o | port | port]; cbn [run_turn].
  - now apply alike_cancel.
  - now apply alike_register.
  - now apply alike_cleanup.
  - open_alike H. repeat split. assumption.
  - open_alike H. repeat split. assumption.
Qed.

Lemma alike_turns (ts : list Turn) (a b : State) :
  alike a b -> alike (run_turns ts a) (run_turns ts b).
Proof.
  revert a b. induction ts as [ | t ts IH]; intros a b H; [exact H | ].
  cbn [run_turns List.fold_left]. apply IH. now apply alike_turn.
Qed.

Lemma alike_loop (todo : list Step) (full : string) (a b : State) :
  alike a b ->
  fst (stream_loop sessionId
         (List.map (fun s => MkStep (before s) (chunk s) (outcome s)) todo) full a)
  = fst (stream_loop sessionId todo full b)
  /\ alike (snd (stream_loop sessionId
                   (List.map (fun s => MkStep (before s) (chunk s) (outcome s)) todo) full a))
           (snd (stream_loop sessionId todo full b)).
Proof.
  revert full a b. induction todo as [ | step rest IH]; intros full a b H; [now split | ].
  cbn [List.map stream_loop before chunk delivered].
  pose proof (alike_turns (before step) a b H) as H1.
  rewrite (alike_has sessionId _ _ H1), (alike_connected _ _ H1).
  destruct (Js.truthy sessionId && negb (has_session sessionId (run_turns (before step) b)));
    [now split | ].
  destruct (negb (connected (run_turns (before step) b))); [now apply IH | ].
  apply IH. now apply alike_emit.
Qed.

Lemma alike_stream (p : Provider) (a b : State) :
  alike a b ->
  fst (streamResponse (with_delivery outcome p) sessionId a) = fst (streamResponse p sessionId b)
  /\ alike (snd (streamResponse (with_delivery outcome p) sessionId a))
           (snd (streamResponse p sessionId b)).
Proof.
  intros H. unfold streamResponse.
  cbn [with_delivery steps before_end ending during_fallback fallback].
  pose proof (alike_loop (steps p) EmptyString a b H) as [Hres Hst].
  destruct (stream_loop sessionId (List.map _ (steps p)) EmptyString a) as [[broke full] a1].
  destruct (stream_loop sessionId (steps p) EmptyString b) as [[broke' full'] b1].
  cbn [fst snd] in Hres, Hst. injection Hres as -> ->.
  destruct broke'; [now split | ].
  pose proof (alike_turns (before_end p) _ _ Hst) as Hend.
  destruct (ending p); [now split | ].
  split; [reflexivity | ]. cbn [snd]. now apply alike_turns.
Qed.

Lemma alike_attempt (p : Provider) (st : State) :
  fst (attempt (with_delivery outcome p) sessionId st) = fst (attempt p sessionId st)
  /\ alike (snd (attempt (with_delivery outcome p) sessionId st)) (snd (attempt p sessionId st)).
Proof.
  unfold attempt, handleModelDownload.
  cbn [with_delivery capability availability download params_failure created before_register].
  destruct (capability p); cbn [negb]; [ | split; [reflexivity | apply alike_refl]].
  destruct (availability p) as [value | message]; [ | split; [reflexivity | apply alike_refl]].
  destruct (String.eqb value "unavailable"); [split; [reflexivity | apply alike_refl] | ].
  destruct (if String.eqb value "downloadable" || String.eqb value "downloading" then _ else _)
    as [[message | ] st2]; [split; [reflexivity | apply alike_refl] | ].
  destruct (params_failure p); [split; [reflexivity | apply alike_refl] | ].
  destruct (created p) as [message | session]; [split; [reflexivity | apply alike_refl] | ].
  pose proof (alike_stream p _ _ (alike_refl (register sessionId session st2))) as [Hres Hst].
  destruct (streamResponse (with_delivery outcome p) sessionId _) as [r1 a1].
  destruct (streamResponse p sessionId _) as [r2 b1].
  cbn [fst snd] in Hres, Hst |- *. subst r2. now split.
Qed.

Lemma alike_request (p : Provider) (st : State) :
  fst (handlePromptAPI (with_delivery outcome p) sessionId st)
  = fst (handlePromptAPI p sessionId st)
  /\ alike (snd (handlePromptAPI (with_delivery outcome p) sessionId st))
           (snd (handlePromptAPI p sessionId st)).
Proof.
  unfold handlePromptAPI. pose proof (alike_attempt p st) as [Hres Hst].
  destruct (attempt (with_delivery outcome p) sessionId st) as [[r1 o1] a1].
  destruct (attempt p sessionId st) as [[r2 o2] b1].
  cbn [fst snd] in Hres, Hst |- *. injection Hres as -> ->.
  split; [reflexivity | now apply alike_cleanup].
Qed.

End DeliveryFacts.

(** X28. Whether the [streamingResponse] messages reach the popup has
    no effect on a request: with any other delivery outcomes the same
    interleaving gives the same answer, the same session and
    connection tables and the same log up to the delivery flags; in
    particular the same sessions are destroyed and the same messages
    are attempted. A failed delivery is never retried and never stops
    the stream. *)
Theorem delivery_outcomes_do_not_matter
    (outcome : Session.Step -> bool) (p : Session.Provider) (sessionId : Js.Str)
    (st : Session.State) :
  let r := Session.handlePromptAPI p sessionId st in
  let r' := Session.handlePromptAPI (Vocabulary.with_delivery outcome p) sessionId st in
  fst r' = fst r
  /\ Vocabulary.same_tables (snd r') (snd r)
  /\ List.map Vocabulary.forget_delivery (Session.log (snd r'))
     = List.map Vocabulary.forget_delivery (Session.log (snd r))
  /\ (forall h, Session.destroys h (Session.log (snd r'))
                = Session.destroys h (Session.log (snd r))).
Proof.
  intros r r'. subst r r'.
  destruct (alike_request sessionId outcome p st) as [Hres [Htab Hlog]].
  split; [exact Hres | ]. split; [exact Htab | ]. split; [exact Hlog | ].
  intros h. unfold Session.destroys.
  assert (Hd : forall l, List.filter (Session.is_destroy_of h) l
                         = List.filter (Session.is_destroy_of h)
                             (List.map Vocabulary.forget_delivery l)).
  { induction l as [ | e l IH]; [reflexivity | ].
    destruct e; cbn [List.map List.filter Vocabulary.forget_delivery Session.is_destroy_of];
      try destruct (Nat.eqb _ _); now rewrite <- ?IH. }
  now rewrite Hd, Hlog, <- Hd.
Qed.

(** ** [cancelSession] *)

(** X29. [cancelSession] answers true exactly when the id is registered
    and destroying its session does not throw. After a true answer the
    id is not registered any more, so a repeated cancel answers false
    and destroys nothing. When the destroy throws the answer is false
    and the tables are left as they were: the stream that runs under
    the id goes on. An id that is not registered is answered false
    without any destroy. The other ids keep their sessions in every
    case. *)
Theorem cancelSession_outcomes
    (sessionId : Js.Str) (throws again : bool) (st : Session.State) :
  let r := Session.cancelSession sessionId throws st in
  (fst r = true <-> Session.has_session sessionId st = true /\ throws = false)
  /\ (fst r = true ->
      Session.has_session sessionId (snd r) = false
      /\ fst (Session.cancelSession sessionId again (snd r)) = false
      /\ forall h, Session.destroys h
                     (Session.log (snd (Session.cancelSession sessionId again (snd r))))
                   = Session.destroys h (Session.log (snd r)))
  /\ (fst r = false -> Vocabulary.same_tables (snd r) st)
  /\ (Session.has_session sessionId st = false ->
      Session.log (snd r) = Session.log st ++ [Session.CancelReturned sessionId None false])
  /\ (forall other, Js.eqb sessionId other = false ->
        Session.lookup_session other (snd r) = Session.lookup_session other st).
Proof.
  intros r. subst r. unfold Session.cancelSession, Session.has_session.
  destruct (Session.lookup_session sessionId st) as [h | ] eqn:Hl.
  - destruct throws; cbn [fst snd].
    + split; [split; [discriminate | intros [_ [=]]] | ].
      split; [discriminate | ]. split; [intros _; now split | ].
      split; [discriminate | reflexivity].
    + assert (Hgone : forall e, Session.lookup_session sessionId
                          (Session.emit e (Session.delete_session sessionId
                             (Session.emit (Session.Destroyed h) st))) = None).
      { intros e. destruct sessionId as [ | | s]; try reflexivity.
        cbn. apply lookup_delete_eq. }
      split; [split; [now split | reflexivity] | ].
      split.
      { intros _. rewrite !Hgone. cbn [fst snd]. split; [reflexivity | ].
        split; [reflexivity | ]. intros h'. cbn [Session.emit Session.log].
        rewrite destroys_app. cbn. lia. }
      split; [discriminate | ]. split; [discriminate | ].
      intros other Hne. destruct sessionId as [ | | s]; try reflexivity.
      destruct other as [ | | k]; try reflexivity. cbn.
      apply lookup_delete_ne. intros ->. cbn in Hne. now rewrite String.eqb_refl in Hne.
  - cbn [fst snd]. split; [split; [discriminate | intros [[=] _]] | ].
    split; [discriminate | ]. split; [intros _; now split | ].
    split; [reflexivity | reflexivity].
Qed.

(** ** The cache between two requests *)

(** X30. When a generation gives three suggestions they are stored
    under the fingerprint of the page, so the next request for the
    same content and title is answered with them from the cache,
    whatever the model then does and without asking it. This holds
    even when the first request itself answered with the fallback
    suggestions because destroying its session threw. *)
Theorem next_request_is_served_from_the_cache
    (p q : Suggestions.Provider) (content title : string) (st : Suggestions.State)
    (response : Js.Str) :
  List.length (Suggestions.suggestionCache st) <= 50 ->
  Suggestions.has (Suggestions.simpleHash (content +:+ title)) (Suggestions.suggestionCache st)
  = false ->
  Suggestions.reaches_prompt p = true ->
  Suggestions.prompt_response p = Some response ->
  List.length (Suggestions.parseAISuggestions response) = 3 ->
  let first := Suggestions.generateAISuggestions p content title st in
  Suggestions.generateAISuggestions q content title (snd first)
  = (Suggestions.parseAISuggestions response, snd first)
  /\ fst first = (if Suggestions.destroy_throws p then Suggestions.getFallbackSuggestions
                  else Suggestions.parseAISuggestions response).
Proof.
  intros Hbound Hmiss Hp Hresp Hthree first. subst first.
  rewrite (generate_on_miss p content title st response Hmiss Hp Hresp). cbv zeta.
  rewrite Hthree. cbn [Nat.eqb fst snd]. split; [ | reflexivity].
  apply generate_on_hit. cbn [Suggestions.suggestionCache].
  apply get_store. unfold Suggestions.after_interleaving.
  now repeat apply apply_ops_bound.
Qed.

Lemma next_request_is_served_from_the_cache_witness :
  let p := Suggestions.MkProvider true (Lifecycle.Reports "available") [] true []
             (Some (Js.Text Scenarios.five_lines)) [] true in
  let first := Suggestions.generateAISuggestions p "abc" "T" Scenarios.empty_cache in
  fst first = Suggestions.getFallbackSuggestions
  /\ fst (Suggestions.generateAISuggestions Scenarios.no_model "abc" "T" (snd first))
     = Suggestions.parseAISuggestions (Js.Text Scenarios.five_lines).
Proof.
  intros p first.
  destruct (next_request_is_served_from_the_cache p Scenarios.no_model "abc" "T"
              Scenarios.empty_cache (Js.Text Scenarios.five_lines)) as [Hnext Hfirst].
  - simpl. lia.
  - reflexivity.
  - reflexivity.
  - reflexivity.
  - reflexivity.
  - split; [exact Hfirst | ]. subst first. now rewrite Hnext.
Defined.
